(** * ASCII video generator: rendering core

    A shallow embedding of the three converters of the repository
    ([video_to_ascii.py], [simple_ascii_video.py] and
    [ascii_video_with_audio.py]) and the properties of their glyph
    quantizer, colour quantizer, row computation, compositor sizes and
    save-with-audio tail.

    Layout: the Python run-time pieces the converters lean on ([Py]: strings
    as lists of code points, [int()] of a string, exceptions; [B64]: IEEE
    binary64 on top of the Standard Library's [SpecFloat]), then one module
    per source file, then the lemmas and theorems. *)

From Stdlib Require Import ZArith NArith List String Ascii Bool Lia.
From Stdlib Require Import Numbers.DecimalString.
From Stdlib Require Import Floats.SpecFloat.
Import ListNotations.

Open Scope Z_scope.

(* ================================================================== *)
(** * Python run-time model *)
(* ================================================================== *)

Module Py.

(** ** Exceptions and the result of a call *)

Inductive exn : Type :=
| ValueError
| IndexError
| OverflowError
| ZeroDivisionError
| TypeError.

Inductive res (A : Type) : Type :=
| Ret (a : A)
| Raise (e : exn).

Arguments Ret {A} a.
Arguments Raise {A} e.

Definition bind {A B : Type} (m : res A) (k : A -> res B) : res B :=
  match m with
  | Ret a => k a
  | Raise e => Raise e
  end.

Definition returns {A : Type} (m : res A) : bool :=
  match m with Ret _ => true | Raise _ => false end.

(** ** Strings: sequences of Unicode code points *)

Definition char : Type := N.
Definition str : Type := list char.

(** An ASCII literal of the source. *)
Definition lit (s : string) : str :=
  List.map N_of_ascii (list_ascii_of_string s).

Definition ESC : char := 27%N.        (* '\033' *)
Definition NL : char := 10%N.         (* '\n' *)
Definition SPACE : char := 32%N.
Definition SEMI : char := 59%N.       (* ';' *)
Definition LOWER_M : char := 109%N.   (* 'm' *)
Definition UNDERSCORE : char := 95%N.
Definition PLUS : char := 43%N.
Definition MINUS : char := 45%N.

Definition len (s : str) : Z := Z.of_nat (List.length s).

Fixpoint str_eqb (a b : str) : bool :=
  match a, b with
  | [], [] => true
  | x :: a', y :: b' => N.eqb x y && str_eqb a' b'
  | _, _ => false
  end.

(** [d.get(key, default)] on a dict with string keys. *)
Fixpoint dict_get {V : Type} (d : list (str * V)) (key : str) (default : V) : V :=
  match d with
  | [] => default
  | (k, v) :: rest => if str_eqb k key then v else dict_get rest key default
  end.

(** [s.startswith(p)] *)
Fixpoint startswith (s p : str) : bool :=
  match p, s with
  | [], _ => true
  | x :: p', y :: s' => N.eqb x y && startswith s' p'
  | _ :: _, [] => false
  end.

(** [s.split(sep)] for a one-character separator: never empty, the last
    field is what follows the last separator. *)
Fixpoint split (sep : char) (s : str) : list str :=
  match s with
  | [] => [[]]
  | c :: r =>
      if N.eqb c sep then [] :: split sep r
      else match split sep r with
           | [] => [[c]]
           | w :: ws => (c :: w) :: ws
           end
  end.

(** [l[i]] on a list: negative indices count from the end, anything out of
    range raises IndexError. *)
Definition index {A : Type} (l : list A) (i : Z) : res A :=
  let n := Z.of_nat (List.length l) in
  let j := if i <? 0 then i + n else i in
  if (j <? 0) || (n <=? j) then Raise IndexError
  else match nth_error l (Z.to_nat j) with
       | Some a => Ret a
       | None => Raise IndexError
       end.

Fixpoint dropwhile (p : char -> bool) (s : str) : str :=
  match s with
  | [] => []
  | c :: r => if p c then dropwhile p r else s
  end.

Definition lstrip_by (p : char -> bool) (s : str) : str := dropwhile p s.
Definition rstrip_by (p : char -> bool) (s : str) : str :=
  List.rev (dropwhile p (List.rev s)).

(** [s.rstrip('m')]-style stripping of one given character. *)
Definition rstrip_char (c : char) (s : str) : str := rstrip_by (N.eqb c) s.

(** [str.isspace] for one character (Py_UNICODE_ISSPACE): what the
    argument-less [strip()] removes. *)
Definition isspace (c : char) : bool :=
  ((9 <=? c) && (c <=? 13) || (28 <=? c) && (c <=? 32)
   || (c =? 133) || (c =? 160) || (c =? 5760)
   || (8192 <=? c) && (c <=? 8202)
   || (c =? 8232) || (c =? 8233) || (c =? 8239) || (c =? 8287)
   || (c =? 12288))%N.

(** [s.strip()] *)
Definition strip (s : str) : str := rstrip_by isspace (lstrip_by isspace s).

(** ** [int(s)] for a string, base 10 *)

(** White space [int()] skips at both ends: the ASCII set of Py_ISSPACE and
    the non-ASCII Unicode spaces (U+001C..U+001F are not skipped). *)
Definition int_space (c : char) : bool :=
  ((9 <=? c) && (c <=? 13) || (c =? 32)
   || (c =? 133) || (c =? 160) || (c =? 5760)
   || (8192 <=? c) && (c <=? 8202)
   || (c =? 8232) || (c =? 8233) || (c =? 8239) || (c =? 8287)
   || (c =? 12288))%N.

(** Code points of the digit zero of every Unicode decimal-digit block
    (general category Nd, Unicode 14.0); each block is ten consecutive code
    points in increasing value. *)
Definition decimal_zeros : list N :=
  [48; 1632; 1776; 1984; 2406; 2534; 2662; 2790; 2918; 3046; 3174; 3302;
   3430; 3558; 3664; 3792; 3872; 4160; 4240; 6112; 6160; 6470; 6608; 6784;
   6800; 6992; 7088; 7232; 7248; 42528; 43216; 43264; 43472; 43504; 43600;
   44016; 65296; 66720; 68912; 69734; 69872; 69942; 70096; 70384; 70736;
   70864; 71248; 71360; 71472; 71904; 72016; 72784; 73040; 73120; 92768;
   92864; 93008; 120782; 120792; 120802; 120812; 120822; 123200; 123632;
   125264; 130032]%N.

Definition decimal_value (c : char) : option Z :=
  match List.find (fun z => (z <=? c) && (c <? z + 10))%N decimal_zeros with
  | Some z => Some (Z.of_N (c - z))
  | None => None
  end.

(** Digits with single underscores between them; [prev_us] says the previous
    character was an underscore. *)
Fixpoint int_digits (s : str) (acc : Z) (prev_us : bool) : option Z :=
  match s with
  | [] => if prev_us then None else Some acc
  | c :: r =>
      if N.eqb c UNDERSCORE then
        if prev_us then None else int_digits r acc true
      else match decimal_value c with
           | Some d => int_digits r (10 * acc + d) false
           | None => None
           end
  end.

Definition int_unsigned (s : str) : option Z :=
  match s with
  | [] => None
  | c :: _ => if N.eqb c UNDERSCORE then None else int_digits s 0 false
  end.

Definition int_of_str (s : str) : res Z :=
  let t := rstrip_by int_space (lstrip_by int_space s) in
  let signed :=
    match t with
    | c :: r =>
        if N.eqb c MINUS then option_map Z.opp (int_unsigned r)
        else if N.eqb c PLUS then int_unsigned r
        else int_unsigned t
    | [] => None
    end in
  match signed with
  | Some z => Ret z
  | None => Raise ValueError
  end.

(** [str(n)] / [f"{n}"] for an int. *)
Definition str_of_int (n : Z) : str :=
  lit (NilZero.string_of_int (Z.to_int n)).

(** [int(a / b)] for ints [a], [b]: the double nearest the quotient,
    truncated toward zero.  As long as the quotient stays far below 2^53 the
    nearest double lies in the same unit interval as the quotient, so this is
    truncating integer division; [B64.int_truediv] below is the
    double-precision form, and [b64_int_truediv_255] proves that the two
    agree at every numerator below 2^50 that is divided by 255. *)
Definition int_truediv (a b : Z) : Z := Z.quot a b.

(** [s.find(c)]: the first position of a character, None for -1. *)
Fixpoint find (c : char) (s : str) : option nat :=
  match s with
  | [] => None
  | x :: r => if N.eqb x c then Some O else option_map S (find c r)
  end.

(** [c in s] for one character. *)
Definition contains (s : str) (c : char) : bool :=
  match find c s with Some _ => true | None => false end.

(** [s.index(c)]: the first position, ValueError when there is none. *)
Definition str_index (s : str) (c : char) : res Z :=
  match find c s with
  | Some i => Ret (Z.of_nat i)
  | None => Raise ValueError
  end.

End Py.

(* ================================================================== *)
(** * IEEE binary64 arithmetic, as Python floats have it *)
(* ================================================================== *)

Module B64.
Import Py.

Definition prec : Z := 53.
Definition emax : Z := 1024.
Definition float : Type := spec_float.

(** An int as an exact, not yet rounded, operand. *)
Definition exact (z : Z) : float :=
  match z with
  | Z0 => S754_zero false
  | Zpos p => S754_finite false p 0
  | Zneg p => S754_finite true p 0
  end.

Definition finite_or_overflow (x : float) : res float :=
  match x with
  | S754_infinity _ => Raise OverflowError
  | _ => Ret x
  end.

(** [float(z)]: the nearest double, ties to even. *)
Definition of_int (z : Z) : res float :=
  finite_or_overflow (binary_normalize prec emax z 0 false).

(** [a / b] on ints: the double nearest the true quotient. *)
Definition truediv (a b : Z) : res float :=
  if b =? 0 then Raise ZeroDivisionError
  else finite_or_overflow (SFdiv prec emax (exact a) (exact b)).

(** [x * y] on floats. *)
Definition mul (x y : float) : float := SFmul prec emax x y.

(** [int(x)]: truncation toward zero. *)
Definition to_int (x : float) : res Z :=
  match x with
  | S754_zero _ => Ret 0
  | S754_finite s m e => Ret (cond_Zopp s (Z.shiftl (Zpos m) e))
  | S754_infinity _ => Raise OverflowError
  | S754_nan => Raise ValueError
  end.

(** A decimal literal [n / 10^k] of the source: the double nearest to it. *)
Definition literal (n pow10 : Z) : float :=
  SFdiv prec emax (exact n) (exact pow10).

Definition f0_45 : float := literal 45 100.
Definition f0_55 : float := literal 55 100.
Definition f0_5 : float := literal 5 10.

(** [int(a / b)] computed through doubles. *)
Definition int_truediv (a b : Z) : res Z :=
  bind (truediv a b) to_int.

(** [lo <= x < hi] for a finite double and integer bounds, decided exactly:
    with [x = m * 2^e] and [e < 0] the comparison is made after multiplying
    through by [2^(-e)]. *)
Definition scaled (x : float) : option (Z * Z) :=
  match x with
  | S754_zero _ => Some (0, 1)
  | S754_finite s m e =>
      if 0 <=? e then Some (cond_Zopp s (Zpos m * 2 ^ e), 1)
      else Some (cond_Zopp s (Zpos m), 2 ^ (- e))
  | _ => None
  end.

(** A non-negative double that is zero or has magnitude at most [2^B] and
    exponent at most [E]. *)
Definition bounded_by (B E : Z) (x : float) : Prop :=
  match x with
  | S754_zero false => True
  | S754_finite false m e => Zdigits2 (Zpos m) + e <= B /\ e <= E
  | _ => False
  end.

End B64.

(* ================================================================== *)
(** * The glyph quantizer shared by the three converters *)
(* ================================================================== *)

Module Glyph.
Import Py.

(** The three [frame_to_ascii] bodies map a brightness sample to an index
    with the same three lines:
<<
    brightness = max(0, min(255, int(brightness)))
    char_index = int(brightness * (len(self.ascii_chars) - 1) / 255)
    char_index = max(0, min(len(self.ascii_chars) - 1, char_index))
>>
    [n_chars] is [len(self.ascii_chars)]. *)
Definition char_index (n_chars brightness : Z) : Z :=
  let brightness := Z.max 0 (Z.min 255 brightness) in
  let char_index := int_truediv (brightness * (n_chars - 1)) 255 in
  Z.max 0 (Z.min (n_chars - 1) char_index).

(** The same lines with the division carried out in binary64. *)
Definition char_index_b64 (n_chars brightness : Z) : res Z :=
  let brightness := Z.max 0 (Z.min 255 brightness) in
  bind (B64.int_truediv (brightness * (n_chars - 1)) 255) (fun char_index =>
  Ret (Z.max 0 (Z.min (n_chars - 1) char_index))).

(** [self.ascii_chars[char_index]] for a sample. *)
Definition glyph (ascii_chars : str) (brightness : Z) : res char :=
  index ascii_chars (char_index (len ascii_chars) brightness).

(** One row of samples, glyph by glyph. *)
Fixpoint glyph_row (ascii_chars : str) (row : list Z) : res str :=
  match row with
  | [] => Ret []
  | pixel :: rest =>
      bind (glyph ascii_chars pixel) (fun ch =>
      bind (glyph_row ascii_chars rest) (fun tail =>
      Ret (ch :: tail)))
  end.

(** The compositors' way back from a glyph to a grey level:
    [int((self.ascii_chars.index(char) / (len(self.ascii_chars) - 1)) * 255)],
    in binary64 as written. *)
Definition glyph_brightness (ascii_chars : str) (char : char) : res Z :=
  bind (str_index ascii_chars char) (fun idx =>
  bind (B64.truediv idx (len ascii_chars - 1)) (fun q =>
  B64.to_int (B64.mul q (B64.exact 255)))).

End Glyph.

(* ================================================================== *)
(** * Pixel frames and bitmap frames *)
(* ================================================================== *)

Module Frame.

(** A colour triple; the converters read pixels as (b, g, r) and report
    colours as (r, g, b). *)
Definition rgb : Type := (Z * Z * Z)%type.

Definition white : rgb := (255, 255, 255).

(** A single-channel image: rows of samples. *)
Definition gray_image : Type := list (list Z).

(** A three-channel image: rows of (b, g, r) pixels. *)
Definition color_image : Type := list (list (Z * Z * Z)).

(** What the encoder sees of a bitmap frame: its pixel size. *)
Record image : Type := { img_width : Z; img_height : Z }.

Definition same_size (a b : image) : bool :=
  (img_width a =? img_width b) && (img_height a =? img_height b).

(** An image with pixels in it.  cv2 takes no other: [cvtColor] and
    [resize] raise on an empty array. *)
Definition nonempty (img : image) : bool :=
  (0 <? img_width img) && (0 <? img_height img).

(** A filled rectangle handed to [draw.rectangle]: corners (inclusive) and
    fill colour. *)
Record rect : Type := {
  x1 : Z; y1 : Z; x2 : Z; y2 : Z; fill : Z * Z * Z
}.

(** A character handed to [draw.text] (or, without a font, the rectangle
    drawn in its place): position, character and colour. *)
Record glyph_cell : Type := {
  cell_x : Z; cell_y : Z; cell_char : N; cell_fill : Z * Z * Z
}.

End Frame.

(* ================================================================== *)
(** * Text frames as the compositors read them *)
(* ================================================================== *)

Module TextFrame.
Import Py Frame.

Definition LBRACKET : char := 91%N.   (* '[' *)

Definition is_sgr_param (c : char) : bool :=
  ((48 <=? c) && (c <=? 57) || (c =? 59))%N.

(** [re.sub(r'\033\[[0-9;]*m', '', s)].  [pending] holds the characters of a
    possible escape read so far (empty when there is none); they are dropped
    when the closing 'm' arrives and put back when anything else does.  No
    character of a pending escape after its first is ESC, so no match can
    begin inside one that fails. *)
Fixpoint sub_ansi (s : str) (pending : str) : str :=
  match s with
  | [] => pending
  | c :: r =>
      let restart :=
        if N.eqb c ESC then pending ++ sub_ansi r [ESC]
        else pending ++ c :: sub_ansi r [] in
      match pending with
      | [] => restart
      | [_] => if N.eqb c LBRACKET then sub_ansi r (pending ++ [c]) else restart
      | _ =>
          if is_sgr_param c then sub_ansi r (pending ++ [c])
          else if N.eqb c LOWER_M then sub_ansi r []
          else restart
      end
  end.

Definition clean_line (line : str) : str := sub_ansi line [].

(** [ascii_text.strip().split('\n')] *)
Definition lines_of (ascii_text : str) : list str := split NL (strip ascii_text).

(** [max(len(line) for line in lines)] on a non-empty list. *)
Definition max_len (lines : list str) : Z :=
  List.fold_right (fun l acc => Z.max (len l) acc) 0 lines.

(** A text frame written line by line: each line and its newline. *)
Definition unlines (lines : list str) : str :=
  List.concat (List.map (fun l => l ++ [NL]) lines).

(** Size of the image of [ascii_to_image] in video_to_ascii.py and
    ascii_video_with_audio.py: widest cleaned line by line count. *)
Definition image_of_text (char_width char_height default_width : Z)
  (ascii_text : str) : option image :=
  let lines := lines_of ascii_text in
  match lines with
  | [] => None
  | _ =>
      let clean_lines := List.map clean_line lines in
      let max_width :=
        match clean_lines with [] => default_width | _ => max_len clean_lines end in
      Some {| img_width := max_width * char_width;
              img_height := Z.of_nat (List.length clean_lines) * char_height |}
  end.

End TextFrame.

(* ================================================================== *)
(** * The encoder and the file system the save paths act on *)
(* ================================================================== *)

Module Encoder.
Import Frame.

(** A cv2.VideoWriter: the frame size it was opened with and the frames
    handed to [write], oldest first. *)
Record writer : Type := { frame_size : image; frames : list image }.

Definition opened (size : image) : writer :=
  {| frame_size := size; frames := [] |}.

Definition write (out : writer) (img : image) : writer :=
  {| frame_size := frame_size out; frames := frames out ++ [img] |}.

(** [cv2.resize(img, (width, height))] gives a frame of the size asked. *)
Definition resize (img : image) (width height : Z) : image :=
  {| img_width := width; img_height := height |}.

(** Every frame handed to the writer has the size it was opened with. *)
Definition uniform (out : writer) : bool :=
  List.forallb (fun f => same_size f (frame_size out)) (frames out).

End Encoder.

Module Files.
Import Py.

Inductive content : Type :=
| SilentVideo        (* the rendered video, no sound track *)
| VideoWithAudio     (* the remuxed result *)
| AudioTrack         (* the extracted sound track *)
| Partial            (* what a failed writer left behind *)
| Other.             (* anything that was there before the run *)

(** Paths to contents. *)
Definition fs : Type := list (str * content).

Fixpoint lookup (d : fs) (path : str) : option content :=
  match d with
  | [] => None
  | (p, c) :: rest => if str_eqb p path then Some c else lookup rest path
  end.

(** [os.path.exists] *)
Definition exists_ (d : fs) (path : str) : bool :=
  match lookup d path with Some _ => true | None => false end.

(** [os.remove] of a file that is there. *)
Fixpoint remove (d : fs) (path : str) : fs :=
  match d with
  | [] => []
  | (p, c) :: rest =>
      if str_eqb p path then remove rest path else (p, c) :: remove rest path
  end.

Definition put (d : fs) (path : str) (c : content) : fs :=
  (path, c) :: remove d path.

(** [os.rename(src, dst)] of a file that is there. *)
Definition rename (d : fs) (src dst : str) : fs :=
  match lookup d src with
  | Some c => put (remove d src) dst c
  | None => d
  end.

(** What the moviepy calls can do. *)
Inductive extract_outcome : Type :=
| NoAudioTrack                        (* the clip has no sound *)
| Extracted                           (* the track was written *)
| ExtractFails (left_file : bool).    (* an exception, with or without a stump *)

Inductive combine_outcome : Type :=
| Combined
| CombineFails (left_file : bool).

Record moviepy : Type := {
  available : bool;                   (* MOVIEPY_AVAILABLE *)
  on_extract : extract_outcome;
  on_combine : combine_outcome
}.

(** What a run prints about its sound track. *)
Inductive message : Type :=
| NoTrackWarning
| ExtractWarning
| CombineError
| SavedWithAudio
| CombineFailedNotice
| SavedNoAudio.

Definition temp_audio_path : str := lit "temp_audio.wav".

(** [extract_audio], the same method in both classes that have it: the path
    of the extracted track, or None. *)
Definition extract_audio (mp : moviepy) (d : fs) : option str * fs * list message :=
  if negb (available mp) then (None, d, [])
  else match on_extract mp with
       | NoAudioTrack => (None, d, [NoTrackWarning])
       | Extracted => (Some temp_audio_path, put d temp_audio_path AudioTrack, [])
       | ExtractFails left_file =>
           (None, if left_file then put d temp_audio_path Partial else d,
            [ExtractWarning])
       end.

(** [combine_video_audio], again the same in both classes. *)
Definition combine_video_audio (mp : moviepy) (d : fs)
  (video_path output_path : str) : bool * fs * list message :=
  if negb (available mp) then (false, d, [])
  else match on_combine mp with
       | Combined => (true, put d output_path VideoWithAudio, [])
       | CombineFails left_file =>
           (false, if left_file then put d output_path Partial else d,
            [CombineError])
       end.

End Files.

(* ================================================================== *)
(** * video_to_ascii.py: class VideoToASCII *)
(* ================================================================== *)

Module VideoToASCII.
Import Py Frame.

Record t : Type := {
  ascii_chars : str;
  width : Z;
  use_color : bool;
  quality : str;
  font_size : Z;
  char_width : Z;
  char_height : Z
}.

Definition ascii_sets : list (str * str) :=
  [ (lit "low", lit "@#*+=-:. ");
    (lit "medium", lit "@%#*+=-:. ");
    (lit "high", [9608; 9609; 9610; 9611; 9612; 9613; 9614; 9615; 32]%N);
    (lit "ultra", [9608; 9608; 9619; 9618; 9617; 9618; 9619; 9608; 9608]%N) ].

(** [__init__]; [colorama_available] is the module flag COLORAMA_AVAILABLE. *)
Definition init (colorama_available : bool) (width : Z) (use_color : bool)
  (quality : str) : t :=
  let high := str_eqb quality (lit "high") in
  {| ascii_chars := dict_get ascii_sets quality (lit "@%#*+=-:. ");
     width := width;
     use_color := use_color && colorama_available;
     quality := quality;
     font_size := if high then 8 else 10;
     char_width := if high then 6 else 8;
     char_height := if high then 12 else 14 |}.

(** ** resize_frame: the row count handed to cv2.resize *)

Definition char_aspect_ratio (self : t) : B64.float :=
  if str_eqb (quality self) (lit "high") then B64.f0_45 else B64.f0_55.

(** [new_height = int(width * aspect_ratio * char_aspect_ratio)] with
    [aspect_ratio = height / original_width]. *)
Definition new_height (self : t) (height original_width width : Z) : res Z :=
  bind (B64.truediv height original_width) (fun aspect_ratio =>
  bind (B64.of_int width) (fun w =>
  B64.to_int (B64.mul (B64.mul w aspect_ratio) (char_aspect_ratio self)))).

(** ** get_color_code: RGB to an ANSI 256-colour escape *)

(** [f"\033[38;5;{n}m"] *)
Definition sgr256 (n : Z) : str :=
  ESC :: lit "[38;5;" ++ str_of_int n ++ lit "m".

(** [int(channel / 255 * steps)] *)
Definition level (channel steps : Z) : res Z :=
  bind (B64.truediv channel 255) (fun q =>
  B64.to_int (B64.mul q (B64.exact steps))).

Definition get_color_code (self : t) (r g b : Z) : res str :=
  if negb (use_color self) then Ret []
  else if (r =? g) && (g =? b) then
    if r <? 8 then Ret (sgr256 16)
    else if 248 <? r then Ret (sgr256 231)
    else bind (level r 23) (fun k => Ret (sgr256 (232 + k)))
  else
    bind (level r 5) (fun r_idx =>
    bind (level g 5) (fun g_idx =>
    bind (level b 5) (fun b_idx =>
    Ret (sgr256 (16 + 36 * r_idx + 6 * g_idx + b_idx))))).

(** ** get_rgb_from_ansi: an escape back to RGB *)

Definition basic_colors : list rgb :=
  [ (0, 0, 0); (128, 0, 0); (0, 128, 0); (128, 128, 0);
    (0, 0, 128); (128, 0, 128); (0, 128, 128); (192, 192, 192);
    (128, 128, 128); (255, 0, 0); (0, 255, 0); (255, 255, 0);
    (0, 0, 255); (255, 0, 255); (0, 255, 255); (255, 255, 255) ].

Definition sgr256_prefix : str := ESC :: lit "[38;5;".

(** The colour of a palette number; [None] when no branch returns. *)
Definition rgb_of_color_num (color_num : Z) : res (option rgb) :=
  if (232 <=? color_num) && (color_num <=? 255) then
    let gray_val := int_truediv ((color_num - 232) * 255) 23 in
    Ret (Some (gray_val, gray_val, gray_val))
  else if (16 <=? color_num) && (color_num <=? 231) then
    let color_num := color_num - 16 in
    let r := (color_num / 36) * 51 in
    let g := ((color_num mod 36) / 6) * 51 in
    let b := (color_num mod 6) * 51 in
    Ret (Some (r, g, b))
  else if (0 <=? color_num) && (color_num <? Z.of_nat (List.length basic_colors)) then
    bind (index basic_colors color_num) (fun c => Ret (Some c))
  else Ret None.

(** The body of the [try]. *)
Definition rgb_try (ansi_code : str) : res (option rgb) :=
  bind (index (split SEMI ansi_code) 2) (fun field =>
  bind (int_of_str (rstrip_char LOWER_M field)) (fun color_num =>
  rgb_of_color_num color_num)).

Definition get_rgb_from_ansi (ansi_code : str) : res rgb :=
  if match ansi_code with [] => true | _ => false end
     || negb (startswith ansi_code sgr256_prefix)
  then Ret white
  else
    match rgb_try ansi_code with
    | Ret (Some c) => Ret c
    | Ret None => Ret white
    | Raise ValueError => Ret white       (* except (ValueError, IndexError) *)
    | Raise IndexError => Ret white
    | Raise e => Raise e
    end.

(** The palette number the [try] reads out of a code:
    [int(ansi_code.split(';')[2].rstrip('m'))]. *)
Definition palette_number (ansi_code : str) : res Z :=
  bind (index (split SEMI ansi_code) 2) (fun field =>
  int_of_str (rstrip_char LOWER_M field)).

(** ** frame_to_ascii: the text frame of a resized frame *)

(** One line: a glyph per sample, each preceded by its colour escape when
    colour is on and the colour frame has three channels. *)
Fixpoint ascii_line (self : t) (grays : list Z) (colors : option (list (Z * Z * Z)))
  : res str :=
  match grays with
  | [] => Ret []
  | brightness :: grays' =>
      bind (Glyph.glyph (ascii_chars self) brightness) (fun ch =>
      match colors with
      | Some cs =>
          bind (index cs 0) (fun bgr =>
          let '(b, g, r) := bgr in
          bind (get_color_code self r g b) (fun color_code =>
          bind (ascii_line self grays' (Some (List.tl cs))) (fun rest =>
          Ret (color_code ++ ch :: rest))))
      | None =>
          bind (ascii_line self grays' None) (fun rest => Ret (ch :: rest))
      end)
  end.

Fixpoint ascii_lines (self : t) (gray_resized : gray_image)
  (resized_frame : option color_image) : res str :=
  match gray_resized with
  | [] => Ret []
  | row :: rows =>
      let crow := match resized_frame with
                  | Some (c :: _) => Some c
                  | Some [] => Some []
                  | None => None
                  end in
      bind (ascii_line self row crow) (fun line =>
      bind (ascii_lines self rows (option_map (@List.tl _) resized_frame)) (fun rest =>
      Ret (line ++ NL :: rest)))
  end.

(** [frame_to_ascii] from the resized frame on: [gray_resized] is the
    grey view, [resized_color] the colour frame it was taken from.  The
    filters and [resize_frame] come before it; [cv2.resize] raises there
    when the row count of [new_height] is not positive. *)
Definition frame_to_ascii (self : t) (gray_resized : gray_image)
  (resized_color : color_image) : res str :=
  bind (ascii_lines self gray_resized
          (if use_color self then Some resized_color else None)) (fun body =>
  Ret (if use_color self then body ++ ESC :: lit "[0m" else body)).

(** ** ascii_to_image: the size of the bitmap frame *)

(** [pil_available] is the module flag PIL_AVAILABLE. *)
Definition ascii_to_image (pil_available : bool) (self : t) (ascii_text : str)
  : option image :=
  if negb pil_available then None
  else TextFrame.image_of_text (char_width self) (char_height self) (width self)
         ascii_text.

(** ** save_ascii_video *)

(** The rendering loop: frame [i] is composited, brought to
    ([width], [height]) when its size differs, and handed to the writer;
    [write_ok i] is what [out.write] answers.  A frame that yields no image
    is skipped.  The loop is followed on text frames whose images are not
    empty ([Frame.nonempty]): on an empty image, which a text of blanks
    only gives, [cv2.cvtColor] raises inside the [try] and the frame is
    skipped before it reaches the writer. *)
Fixpoint write_frames (pil_available : bool) (write_ok : nat -> bool) (self : t)
  (width height : Z) (ascii_frames : list str) (i : nat)
  (out : Encoder.writer) (successful_frames : Z) : Encoder.writer * Z :=
  match ascii_frames with
  | [] => (out, successful_frames)
  | ascii_frame :: rest =>
      match ascii_to_image pil_available self ascii_frame with
      | Some img =>
          let actual_height := img_height img in
          let actual_width := img_width img in
          let img_bgr :=
            if negb (actual_height =? height) || negb (actual_width =? width)
            then Encoder.resize img width height
            else img in
          let out := Encoder.write out img_bgr in
          write_frames pil_available write_ok self width height rest (S i) out
            (if write_ok i then successful_frames + 1 else successful_frames)
      | None =>
          write_frames pil_available write_ok self width height rest (S i) out
            successful_frames
      end
  end.

Definition temp_video_path : str := lit "temp_ascii_video.avi".

(** The run's outcome: the return value, the writer when one was opened,
    the files left behind and what was printed about the sound track. *)
Record outcome : Type := {
  returned : bool;
  video : option Encoder.writer;
  disk : Files.fs;
  printed : list Files.message
}.

(** [save_ascii_video]; [writer_opens] is [out.isOpened()],
    [original_video_path] is None or a non-empty path. *)
Definition save_ascii_video (pil_available writer_opens : bool)
  (write_ok : nat -> bool) (mp : Files.moviepy) (self : t)
  (ascii_frames : list str) (output_path : str)
  (original_video_path : option str) (preserve_audio : bool)
  (d : Files.fs) : outcome :=
  let fail out d := {| returned := false; video := out; disk := d; printed := [] |} in
  if negb pil_available then fail None d
  else match ascii_frames with
  | [] => fail None d
  | first :: _ =>
  match ascii_to_image pil_available self first with
  | None => fail None d
  | Some first_img =>
      let width := img_width first_img in
      let height := img_height first_img in
      if negb writer_opens then fail None d
      else
        let d := Files.put d temp_video_path Files.SilentVideo in
        let '(out, successful_frames) :=
          write_frames pil_available write_ok self width height ascii_frames 0
            (Encoder.opened first_img) 0 in
        if successful_frames =? 0 then fail (Some out) d
        else
          let rename_tail (d : Files.fs) (log : list Files.message) :=
            if Files.exists_ d temp_video_path then
              let d := if Files.exists_ d output_path
                       then Files.remove d output_path else d in
              {| returned := true; video := Some out;
                 disk := Files.rename d temp_video_path output_path;
                 printed := log ++ [Files.SavedNoAudio] |}
            else {| returned := false; video := Some out; disk := d;
                    printed := log |} in
          let has_source :=
            match original_video_path with Some (_ :: _) => true | _ => false end in
          if preserve_audio && has_source && Files.available mp then
            let '(audio_path, d, log) := Files.extract_audio mp d in
            match audio_path with
            | Some audio_path =>
                let '(success, d, log2) :=
                  Files.combine_video_audio mp d temp_video_path output_path in
                let log := log ++ log2 in
                let d := if Files.exists_ d temp_video_path
                         then Files.remove d temp_video_path else d in
                let d := if Files.exists_ d audio_path
                         then Files.remove d audio_path else d in
                if success then
                  {| returned := true; video := Some out; disk := d;
                     printed := log ++ [Files.SavedWithAudio] |}
                else rename_tail d (log ++ [Files.CombineFailedNotice])
            | None => rename_tail d log
            end
          else rename_tail d []
  end
  end.

(** ** ascii_to_image: the drawing loop *)

Definition sgr_reset : str := ESC :: lit "[0m".

(** The [while i < len(line)] loop on what is left of the line, [s] being
    [line[i:]].  [isprintable] is [str.isprintable] on one character, a table
    of the Unicode database; [fuel] bounds the iterations, and every
    iteration consumes at least one character, so [length s] is enough.  A
    colour escape sets the colour for what follows, the reset escape puts
    white back, any other printable character is drawn at [x_pos] and moves
    it one cell to the right. *)
Fixpoint draw_chars (isprintable : char -> bool) (self : t) (fuel : nat)
  (s : str) (x_pos y_pos : Z) (current_color : rgb) : res (list glyph_cell) :=
  match fuel with
  | O => Ret []
  | S fuel' =>
      match s with
      | [] => Ret []
      | char :: s' =>
          let draw_char :=
            if negb (N.eqb char NL) && isprintable char then
              bind (draw_chars isprintable self fuel' s'
                      (x_pos + char_width self) y_pos current_color)
                (fun rest =>
                   Ret ({| cell_x := x_pos; cell_y := y_pos;
                           cell_char := char; cell_fill := current_color |}
                        :: rest))
            else draw_chars isprintable self fuel' s' x_pos y_pos current_color in
          if str_eqb (List.firstn 7 s) sgr256_prefix then
            match find LOWER_M s with
            | Some end_pos =>
                bind (get_rgb_from_ansi (List.firstn (S end_pos) s)) (fun color =>
                draw_chars isprintable self fuel' (List.skipn (S end_pos) s)
                  x_pos y_pos color)
            | None => draw_char
            end
          else if str_eqb (List.firstn 4 s) sgr_reset then
            draw_chars isprintable self fuel' (List.skipn 4 s) x_pos y_pos white
          else draw_char
      end
  end.

(** One line: drawn from the left edge in white. *)
Definition draw_line (isprintable : char -> bool) (self : t) (line : str)
  (y_pos : Z) : res (list glyph_cell) :=
  draw_chars isprintable self (List.length line) line 0 y_pos white.

(** The lines from top to bottom, [char_height] apart. *)
Fixpoint draw_lines (isprintable : char -> bool) (self : t) (lines : list str)
  (y_pos : Z) : res (list glyph_cell) :=
  match lines with
  | [] => Ret []
  | line :: rest =>
      bind (draw_line isprintable self line y_pos) (fun cells =>
      bind (draw_lines isprintable self rest (y_pos + char_height self))
        (fun more => Ret (cells ++ more)))
  end.

(** Everything [ascii_to_image] draws for a text frame. *)
Definition draw_text (isprintable : char -> bool) (self : t) (ascii_text : str)
  : res (list glyph_cell) :=
  draw_lines isprintable self (TextFrame.lines_of ascii_text) 0.

(** ** convert_video: which frames are converted *)

(** The reading loop.  [cap] holds the frames the capture has still to give
    and [pos] is its CAP_PROP_POS_FRAMES, the index of the frame it gives
    next; [duration_set] is the truth value of [duration]; [render] is
    [frame_to_ascii].  The result is [ascii_frames]. *)
Fixpoint read_frames {A B : Type} (render : A -> B) (duration_set : bool)
  (end_frame skip_frames : Z) (cap : list A) (pos frame_count : Z)
  : res (list B) :=
  match cap with
  | [] => Ret []
  | frame :: cap' =>
      let pos := pos + 1 in
      if duration_set && (end_frame <=? pos) then Ret []
      else
        let frame_count := frame_count + 1 in
        if skip_frames =? 0 then Raise ZeroDivisionError
        else if negb (frame_count mod skip_frames =? 0) then
          read_frames render duration_set end_frame skip_frames cap' pos
            frame_count
        else
          bind (read_frames render duration_set end_frame skip_frames cap' pos
                  frame_count)
            (fun rest => Ret (render frame :: rest))
  end.

End VideoToASCII.

(* ================================================================== *)
(** * simple_ascii_video.py: class SimpleVideoToASCII *)
(* ================================================================== *)

Module SimpleVideoToASCII.
Import Py Frame.

Record t : Type := {
  ascii_chars : str;
  width : Z;
  char_width : Z;
  char_height : Z
}.

Definition init (width : Z) : t :=
  {| ascii_chars := lit "@%#*+=-:. ";
     width := width;
     char_width := 8;
     char_height := 16 |}.

(** [new_height = int(self.width * aspect_ratio * 0.5)] *)
Definition new_height (self : t) (height original_width : Z) : res Z :=
  bind (B64.truediv height original_width) (fun aspect_ratio =>
  bind (B64.of_int (width self)) (fun w =>
  B64.to_int (B64.mul (B64.mul w aspect_ratio) B64.f0_5))).

(** [frame_to_ascii] from the resized grey frame on: a glyph per sample and
    a newline per row.  [cv2.resize] comes before it and raises when the
    row count of [new_height] is not positive. *)
Fixpoint frame_to_ascii (self : t) (resized : gray_image) : res str :=
  match resized with
  | [] => Ret []
  | row :: rows =>
      bind (Glyph.glyph_row (ascii_chars self) row) (fun line =>
      bind (frame_to_ascii self rows) (fun rest =>
      Ret (line ++ NL :: rest)))
  end.

(** [ascii_to_simple_image]: the size of the bitmap frame, the width taken
    from the first line. *)
Definition ascii_to_simple_image (pil_available : bool) (self : t)
  (ascii_text : str) : option image :=
  if negb pil_available then None
  else
    let lines := TextFrame.lines_of ascii_text in
    match lines with
    | [] => None
    | first :: _ =>
        Some {| img_width := len first * char_width self;
                img_height := Z.of_nat (List.length lines) * char_height self |}
    end.

(** The writing loop of [create_video]: every image goes to the writer as
    it is.  The loop is followed on text frames whose images are not empty
    ([Frame.nonempty]): on an empty image [cv2.cvtColor] raises, and nothing
    here catches it. *)
Fixpoint write_frames (pil_available : bool) (self : t) (ascii_frames : list str)
  (out : Encoder.writer) : Encoder.writer :=
  match ascii_frames with
  | [] => out
  | ascii_frame :: rest =>
      match ascii_to_simple_image pil_available self ascii_frame with
      | Some img => write_frames pil_available self rest (Encoder.write out img)
      | None => write_frames pil_available self rest out
      end
  end.

(** [create_video] from the text frames on; None stands for the early
    [return False]s. *)
Definition create_video (pil_available writer_opens : bool) (self : t)
  (ascii_frames : list str) : option Encoder.writer :=
  match ascii_frames with
  | [] => None
  | first :: _ =>
      match ascii_to_simple_image pil_available self first with
      | None => None
      | Some first_img =>
          if negb writer_opens then None
          else Some (write_frames pil_available self ascii_frames
                       (Encoder.opened first_img))
      end
  end.

(** ** create_video: which frames are converted *)

(** The reading loop: while fewer than [max_frames] text frames are kept,
    read a frame and keep every third one, counting from the first;
    [render] is [frame_to_ascii] and [ascii_frames] the frames kept so far. *)
Fixpoint read_frames {A B : Type} (render : A -> B) (max_frames : Z)
  (cap : list A) (frame_count : Z) (ascii_frames : list B) : list B :=
  if Z.of_nat (List.length ascii_frames) <? max_frames then
    match cap with
    | [] => ascii_frames
    | frame :: cap' =>
        read_frames render max_frames cap' (frame_count + 1)
          (if frame_count mod 3 =? 0 then ascii_frames ++ [render frame]
           else ascii_frames)
    end
  else ascii_frames.

(** ** ascii_to_simple_image: the rectangles *)

(** The characters of one line, [x] counting columns: a character of the
    alphabet becomes a filled rectangle in the grey of its index, anything
    else leaves its cell to the background. *)
Fixpoint draw_line (self : t) (line : str) (x y : Z) : res (list rect) :=
  match line with
  | [] => Ret []
  | char :: rest =>
      if contains (ascii_chars self) char then
        bind (Glyph.glyph_brightness (ascii_chars self) char) (fun brightness =>
        let x1 := x * char_width self in
        let y1 := y * char_height self in
        let x2 := x1 + char_width self - 1 in
        let y2 := y1 + char_height self - 1 in
        bind (draw_line self rest (x + 1) y) (fun more =>
        Ret ({| x1 := x1; y1 := y1; x2 := x2; y2 := y2;
                fill := (brightness, brightness, brightness) |} :: more)))
      else draw_line self rest (x + 1) y
  end.

Fixpoint draw_lines (self : t) (lines : list str) (y : Z) : res (list rect) :=
  match lines with
  | [] => Ret []
  | line :: rest =>
      bind (draw_line self line 0 y) (fun rects =>
      bind (draw_lines self rest (y + 1)) (fun more => Ret (rects ++ more)))
  end.

(** Everything [ascii_to_simple_image] draws for a text frame. *)
Definition draw_text (self : t) (ascii_text : str) : res (list rect) :=
  draw_lines self (TextFrame.lines_of ascii_text) 0.

End SimpleVideoToASCII.

(* ================================================================== *)
(** * ascii_video_with_audio.py: class ReliableVideoToASCII *)
(* ================================================================== *)

Module ReliableVideoToASCII.
Import Py Frame.

Record t : Type := {
  ascii_chars : str;
  width : Z;
  use_color : bool;
  char_width : Z;
  char_height : Z
}.

Definition init (width : Z) (use_color : bool) : t :=
  {| ascii_chars := lit "@%#*+=-:. ";
     width := width;
     use_color := use_color;
     char_width := 8;
     char_height := 16 |}.

(** [new_height = int(self.width * aspect_ratio * 0.5)] *)
Definition new_height (self : t) (height original_width : Z) : res Z :=
  bind (B64.truediv height original_width) (fun aspect_ratio =>
  bind (B64.of_int (width self)) (fun w =>
  B64.to_int (B64.mul (B64.mul w aspect_ratio) B64.f0_5))).

(** [f"\033[{n}m"] for the sixteen-colour escapes. *)
Definition sgr (n : string) : str := ESC :: lit "[" ++ lit n ++ lit "m".

(** ** get_color_code: RGB to a sixteen-colour escape *)
Definition get_color_code (r g b : Z) : str :=
  if (r =? g) && (g =? b) then
    if r <? 64 then sgr "30"
    else if r <? 128 then sgr "90"
    else if r <? 192 then sgr "37"
    else sgr "97"
  else
    if (g <? r) && (b <? r) then sgr "91"
    else if (r <? g) && (b <? g) then sgr "92"
    else if (r <? b) && (g <? b) then sgr "94"
    else if (128 <? r) && (128 <? g) then sgr "93"
    else if (128 <? r) && (128 <? b) then sgr "95"
    else if (128 <? g) && (128 <? b) then sgr "96"
    else sgr "37".

(** ** ansi_to_rgb *)
Definition color_map : list (str * rgb) :=
  [ (sgr "30", (0, 0, 0));
    (sgr "90", (128, 128, 128));
    (sgr "37", (192, 192, 192));
    (sgr "97", (255, 255, 255));
    (sgr "91", (255, 0, 0));
    (sgr "92", (0, 255, 0));
    (sgr "94", (0, 0, 255));
    (sgr "93", (255, 255, 0));
    (sgr "95", (255, 0, 255));
    (sgr "96", (0, 255, 255)) ].

Definition ansi_to_rgb (ansi_code : str) : rgb :=
  dict_get color_map ansi_code (255, 255, 255).

(** ** ascii_to_image: the size of the bitmap frame *)
Definition ascii_to_image (pil_available : bool) (self : t) (ascii_text : str)
  : option image :=
  if negb pil_available then None
  else TextFrame.image_of_text (char_width self) (char_height self) (width self)
         ascii_text.

(** The writing loop of [create_video], followed on text frames whose
    images are not empty ([Frame.nonempty]): on an empty image
    [cv2.cvtColor] raises, and nothing here catches it. *)
Fixpoint write_frames (pil_available : bool) (self : t) (ascii_frames : list str)
  (out : Encoder.writer) : Encoder.writer :=
  match ascii_frames with
  | [] => out
  | ascii_frame :: rest =>
      match ascii_to_image pil_available self ascii_frame with
      | Some img => write_frames pil_available self rest (Encoder.write out img)
      | None => write_frames pil_available self rest out
      end
  end.

Definition temp_video : str := lit "temp_ascii.avi".

Record outcome : Type := {
  returned : bool;
  video : option Encoder.writer;
  disk : Files.fs;
  printed : list Files.message
}.

(** [create_video] from the text frames on. *)
Definition create_video (pil_available writer_opens : bool)
  (mp : Files.moviepy) (self : t) (ascii_frames : list str)
  (output_path : str) (preserve_audio : bool) (d : Files.fs) : outcome :=
  let fail d := {| returned := false; video := None; disk := d; printed := [] |} in
  match ascii_frames with
  | [] => fail d
  | first :: _ =>
  match ascii_to_image pil_available self first with
  | None => fail d
  | Some first_img =>
      if negb writer_opens then fail d
      else
        let d := Files.put d temp_video Files.SilentVideo in
        let out := write_frames pil_available self ascii_frames
                     (Encoder.opened first_img) in
        let rename_tail (d : Files.fs) (log : list Files.message) :=
          if Files.exists_ d temp_video then
            let d := if Files.exists_ d output_path
                     then Files.remove d output_path else d in
            {| returned := true; video := Some out;
               disk := Files.rename d temp_video output_path;
               printed := log ++ [Files.SavedNoAudio] |}
          else {| returned := false; video := Some out; disk := d;
                  printed := log |} in
        if preserve_audio && Files.available mp then
          let '(audio_path, d, log) := Files.extract_audio mp d in
          match audio_path with
          | Some audio_path =>
              let '(success, d, log2) :=
                Files.combine_video_audio mp d temp_video output_path in
              let log := log ++ log2 in
              let d := if Files.exists_ d temp_video
                       then Files.remove d temp_video else d in
              let d := if Files.exists_ d audio_path
                       then Files.remove d audio_path else d in
              if success then
                {| returned := true; video := Some out; disk := d;
                   printed := log ++ [Files.SavedWithAudio] |}
              else rename_tail d log
          | None => rename_tail d log
          end
        else rename_tail d []
  end
  end.

(** ** frame_to_ascii *)

(** One row: a glyph per sample, preceded by its colour escape when colour
    is on. *)
Fixpoint ascii_line (self : t) (grays : list Z)
  (colors : option (list (Z * Z * Z))) : res str :=
  match grays with
  | [] => Ret []
  | brightness :: grays' =>
      bind (Glyph.glyph (ascii_chars self) brightness) (fun ch =>
      match colors with
      | Some cs =>
          bind (index cs 0) (fun bgr =>
          let '(b, g, r) := bgr in
          bind (ascii_line self grays' (Some (List.tl cs))) (fun rest =>
          Ret (get_color_code r g b ++ ch :: rest)))
      | None =>
          bind (ascii_line self grays' None) (fun rest => Ret (ch :: rest))
      end)
  end.

Fixpoint ascii_lines (self : t) (gray_resized : gray_image)
  (resized_color : option color_image) : res str :=
  match gray_resized with
  | [] => Ret []
  | row :: rows =>
      let crow := match resized_color with
                  | Some (c :: _) => Some c
                  | Some [] => Some []
                  | None => None
                  end in
      bind (ascii_line self row crow) (fun line =>
      bind (ascii_lines self rows (option_map (@List.tl _) resized_color))
        (fun rest => Ret (line ++ NL :: rest)))
  end.

(** [frame_to_ascii] from the resized frame on; [cv2.resize] comes before
    it and raises when the row count of [new_height] is not positive. *)
Definition frame_to_ascii (self : t) (gray_resized : gray_image)
  (resized : color_image) : res str :=
  bind (ascii_lines self gray_resized
          (if use_color self then Some resized else None)) (fun body =>
  Ret (if use_color self then body ++ sgr "0" else body)).

(** ** create_video: which frames are converted *)

(** The reading loop: every second frame, counting from the first, until
    [max_frames] are kept. *)
Fixpoint read_frames {A B : Type} (render : A -> B) (max_frames : Z)
  (cap : list A) (frame_count : Z) (ascii_frames : list B) : list B :=
  if Z.of_nat (List.length ascii_frames) <? max_frames then
    match cap with
    | [] => ascii_frames
    | frame :: cap' =>
        read_frames render max_frames cap' (frame_count + 1)
          (if frame_count mod 2 =? 0 then ascii_frames ++ [render frame]
           else ascii_frames)
    end
  else ascii_frames.

(** ** ascii_to_image: the drawing loop *)

(** The [while i < len(line)] loop on [s = line[i:]].  The escape test
    compares the four-character slice [line[i:i+4]] with the two-character
    string ESC '['.  Every character but a newline moves [x_pos] one cell
    to the right; a character of the alphabet is drawn there, in the current
    colour when colour is on and in the grey of its index otherwise. *)
Fixpoint draw_chars (self : t) (fuel : nat) (s : str) (x_pos y : Z)
  (current_color : rgb) : res (list rect) :=
  match fuel with
  | O => Ret []
  | S fuel' =>
      match s with
      | [] => Ret []
      | char :: s' =>
          let draw_char :=
            if negb (N.eqb char NL) then
              if contains (ascii_chars self) char then
                bind (Glyph.glyph_brightness (ascii_chars self) char)
                  (fun brightness =>
                let color := if use_color self then current_color
                             else (brightness, brightness, brightness) in
                let x1 := x_pos in
                let y1 := y * char_height self in
                let x2 := x1 + char_width self - 1 in
                let y2 := y1 + char_height self - 1 in
                bind (draw_chars self fuel' s' (x_pos + char_width self) y
                        current_color) (fun more =>
                Ret ({| x1 := x1; y1 := y1; x2 := x2; y2 := y2;
                        fill := color |} :: more)))
              else draw_chars self fuel' s' (x_pos + char_width self) y
                     current_color
            else draw_chars self fuel' s' x_pos y current_color in
          if str_eqb (List.firstn 4 s) (ESC :: lit "[") then
            match find LOWER_M s with
            | Some end_pos =>
                draw_chars self fuel' (List.skipn (S end_pos) s) x_pos y
                  (ansi_to_rgb (List.firstn (S end_pos) s))
            | None => draw_char
            end
          else draw_char
      end
  end.

Definition draw_line (self : t) (line : str) (y : Z) : res (list rect) :=
  draw_chars self (List.length line) line 0 y (255, 255, 255).

Fixpoint draw_lines (self : t) (lines : list str) (y : Z) : res (list rect) :=
  match lines with
  | [] => Ret []
  | line :: rest =>
      bind (draw_line self line y) (fun rects =>
      bind (draw_lines self rest (y + 1)) (fun more => Ret (rects ++ more)))
  end.

(** Everything [ascii_to_image] draws for a text frame. *)
Definition draw_text (self : t) (ascii_text : str) : res (list rect) :=
  draw_lines self (TextFrame.lines_of ascii_text) 0.

End ReliableVideoToASCII.

(* ================================================================== *)
(** * Statements of the specification, in its own words *)
(* ================================================================== *)

Module Spec.
Import Py Frame.

(** ** Glyph quantizer (spec 4.1): floor(b * (N-1) / 255) on the clamped
    sample, clamped to the alphabet. *)
Definition quantize (brightness n : Z) : Z :=
  let b := Z.max 0 (Z.min 255 brightness) in
  Z.max 0 (Z.min (n - 1) (b * (n - 1) / 255)).

(** ** Colour quantizer (spec 4.2) *)

(** level = floor(channel / 255 * 5) *)
Definition cube_level (channel : Z) : Z := channel * 5 / 255.

(** 16 + 36 * r_level + 6 * g_level + b_level *)
Definition cube_code (r g b : Z) : Z :=
  16 + 36 * cube_level r + 6 * cube_level g + cube_level b.

(** code -= 16; r = (code/36)*51; g = ((code%36)/6)*51; b = (code%6)*51 *)
Definition cube_rgb (code : Z) : rgb :=
  let c := code - 16 in
  ((c / 36) * 51, ((c mod 36) / 6) * 51, (c mod 6) * 51).

(** The grayscale band of the palette. *)
Definition gray_band (code : Z) : bool := (232 <=? code) && (code <=? 255).

(** gray = (code - 232) * 255 / 23 *)
Definition gray_value (code : Z) : Z := (code - 232) * 255 / 23.

(** An escape that selects a code of the grayscale band. *)
Definition gray_band_escape (code : str) : bool :=
  List.existsb (fun n => str_eqb code (VideoToASCII.sgr256 (Z.of_nat n)))
    (List.seq 232 24).

(** The grey round trip as the specification states it, at one intensity:
    the forward code is in the grayscale band and every component of its
    inverse is within [bound] of the input. *)
Definition gray_round_trip_within (self : VideoToASCII.t) (bound v : Z) : Prop :=
  exists code r g b,
    VideoToASCII.get_color_code self v v v = Ret code
    /\ gray_band_escape code = true
    /\ VideoToASCII.get_rgb_from_ansi code = Ret (r, g, b)
    /\ Z.abs (r - v) <= bound /\ Z.abs (g - v) <= bound /\ Z.abs (b - v) <= bound.

(** The code [get_color_code] gives a grey of intensity [v]. *)
Definition gray_code (v : Z) : Z :=
  if v <? 8 then 16 else if 248 <? v then 231 else 232 + v * 23 / 255.

(** ** The sixteen-colour classes (spec 4.2), as an ordered rule list *)

Inductive color16 : Type :=
| Black | DarkGray | LightGray | White
| Red | Green | Blue | Yellow | Magenta | Cyan.

(** Grayscale first, then a dominant single channel, then a pair of
    channels above 128; the first rule that fires wins. *)
Definition rules16 (r g b : Z) : list (bool * color16) :=
  let gray := (r =? g) && (g =? b) in
  [ (gray && (r <? 64), Black);
    (gray && (r <? 128), DarkGray);
    (gray && (r <? 192), LightGray);
    (gray, White);
    ((r >? g) && (r >? b), Red);
    ((g >? r) && (g >? b), Green);
    ((b >? r) && (b >? g), Blue);
    ((r >? 128) && (g >? 128), Yellow);
    ((r >? 128) && (b >? 128), Magenta);
    ((g >? 128) && (b >? 128), Cyan) ].

Fixpoint first_match {A : Type} (rules : list (bool * A)) (default : A) : A :=
  match rules with
  | [] => default
  | (fires, a) :: rest => if fires then a else first_match rest default
  end.

Definition classify16 (r g b : Z) : color16 :=
  first_match (rules16 r g b) LightGray.

Definition escape16 (c : color16) : str :=
  ReliableVideoToASCII.sgr
    match c with
    | Black => "30" | DarkGray => "90" | LightGray => "37" | White => "97"
    | Red => "91" | Green => "92" | Blue => "94"
    | Yellow => "93" | Magenta => "95" | Cyan => "96"
    end.

Definition rgb16 (c : color16) : rgb :=
  match c with
  | Black => (0, 0, 0) | DarkGray => (128, 128, 128)
  | LightGray => (192, 192, 192) | White => (255, 255, 255)
  | Red => (255, 0, 0) | Green => (0, 255, 0) | Blue => (0, 0, 255)
  | Yellow => (255, 255, 0) | Magenta => (255, 0, 255) | Cyan => (0, 255, 255)
  end.

(** ** Palette codes (spec 4.2, inverse contract) *)

(** A palette code of the 256-colour mode: the escape ESC[38;5;Nm of a
    palette number N in 0..255, as the forward mapping writes it. *)
Definition well_formed256 (ansi_code : str) : Prop :=
  exists n, 0 <= n <= 255 /\ ansi_code = VideoToASCII.sgr256 n.

(** The colour of a palette number: the grey band, the colour cube, and
    below them the sixteen basic colours. *)
Definition palette_rgb (n : Z) : rgb :=
  if 232 <=? n then (gray_value n, gray_value n, gray_value n)
  else if 16 <=? n then cube_rgb n
  else List.nth (Z.to_nat n) VideoToASCII.basic_colors white.

(** "Unrecognized or malformed codes fail soft: return a default color
    (white)": every string that is not a palette code reads as white. *)
Definition malformed_gives_white : Prop :=
  forall ansi_code,
    ~ well_formed256 ansi_code ->
    VideoToASCII.get_rgb_from_ansi ansi_code = Ret white.

(** A sixteen-colour escape the inverse mapping recognizes: a key of its
    table. *)
Definition recognized16 (ansi_code : str) : Prop :=
  In ansi_code (List.map fst ReliableVideoToASCII.color_map).

(** ** Row count (spec 4.3): round(width * (h / w) * aspect_correction) *)

(** round(num / den) for [den > 0], ties to the even neighbour as Python's
    [round] has them. *)
Definition round_ratio (num den : Z) : Z :=
  let q := num / den in
  let r := num mod den in
  if 2 * r <? den then q
  else if den <? 2 * r then q + 1
  else if Z.even q then q else q + 1.

(** The aspect correction as the fraction [c_num / c_den]. *)
Definition rounded_rows (width h w c_num c_den : Z) : Z :=
  round_ratio (width * h * c_num) (w * c_den).

End Spec.

(* ================================================================== *)
(** * Finite checks *)
(* ================================================================== *)

Module Range.

(** [p] holds on [lo], [lo+1], ..., [lo + n - 1]. *)
Fixpoint all_from (p : Z -> bool) (lo : Z) (n : nat) : bool :=
  match n with
  | O => true
  | S k => p lo && all_from p (lo + 1) k
  end.

Definition all_between (p : Z -> bool) (lo hi : Z) : bool :=
  all_from p lo (Z.to_nat (hi - lo + 1)).

End Range.

(** Every k-th frame of a capture, for the reading loops. *)
Module Sampling.
(** Every [k]-th element of a list: [skip] elements are passed over, the
    next one is kept, then [k - 1] are passed over before each further
    one. *)
Fixpoint every_nth {A : Type} (k skip : nat) (l : list A) : list A :=
  match l with
  | [] => []
  | a :: r =>
      match skip with
      | O => a :: every_nth k (k - 1) r
      | S skip' => every_nth k skip' r
      end
  end.

End Sampling.

(** Decidable forms of the colour-quantizer statements, for the finite
    checks. *)
Module Checks.
Import Py Frame.

Definition res_eqb {A : Type} (eqb : A -> A -> bool) (x : res A) (y : A) : bool :=
  match x with Ret a => eqb a y | Raise _ => false end.

Definition rgb_eqb (x y : rgb) : bool :=
  let '(a, b, c) := x in
  let '(a', b', c') := y in
  (a =? a') && (b =? b') && (c =? c').

(** The binary64 division agrees with truncating division at [a / b]. *)
Definition truediv_agrees (b a : Z) : bool :=
  res_eqb Z.eqb (B64.int_truediv a b) (int_truediv a b).

(** [int(channel / 255 * steps)] is [floor(channel * steps / 255)]. *)
Definition level_agrees (steps channel : Z) : bool :=
  res_eqb Z.eqb (VideoToASCII.level channel steps) (channel * steps / 255).

(** The escape of palette number [n] reads back as [n]'s colour. *)
Definition reads_back (expected : Z -> rgb) (n : Z) : bool :=
  res_eqb rgb_eqb (VideoToASCII.get_rgb_from_ansi (VideoToASCII.sgr256 n))
    (expected n).

(** [int()] reads the decimal of [n] back as [n], trailing 'm's removed. *)
Definition reads_own_number (n : Z) : bool :=
  res_eqb Z.eqb (int_of_str (rstrip_char LOWER_M (str_of_int n))) n.

(** The branches of the [try] give palette number [n] its colour. *)
Definition palette_agrees (n : Z) : bool :=
  match VideoToASCII.rgb_of_color_num n with
  | Ret (Some c) => rgb_eqb c (Spec.palette_rgb n)
  | _ => false
  end.

(** The glyph of a sample is a character of the ten-glyph alphabet other
    than a newline, and the grey the compositors give it is at or below the
    sample, by at most 28. *)
Definition grey_within (b : Z) : bool :=
  match Glyph.glyph (lit "@%#*+=-:. ") b with
  | Ret ch =>
      contains (lit "@%#*+=-:. ") ch && negb (N.eqb ch NL)
      && match Glyph.glyph_brightness (lit "@%#*+=-:. ") ch with
         | Ret g => (g <=? b) && (b <=? g + 28)
         | Raise _ => false
         end
  | Raise _ => false
  end.

(** The glyph of a sample is not white space, so [strip()] leaves it. *)
Definition glyph_visible (ascii_chars : str) (b : Z) : bool :=
  match Glyph.glyph ascii_chars b with
  | Ret ch => negb (isspace ch)
  | Raise _ => false
  end.

Definition is_digit (c : char) : bool := ((48 <=? c) && (c <=? 57))%N.

(** [str(n)] is made of the digits 0..9 only. *)
Definition digits_only (n : Z) : bool := List.forallb is_digit (str_of_int n).

End Checks.

(* ================================================================== *)
(** * Properties *)
(* ================================================================== *)

Import Py Frame.

(** ** Finite checks *)

Lemma all_from_spec (p : Z -> bool) (n : nat) :
  forall lo, Range.all_from p lo n = true ->
  forall x, lo <= x < lo + Z.of_nat n -> p x = true.
Proof.
  induction n as [|k IH]; intros lo H x Hx.
  - simpl in Hx. lia.
  - simpl in H. apply andb_prop in H. destruct H as [H0 H1].
    destruct (Z.eq_dec x lo) as [->|Hne]; [exact H0|].
    apply (IH (lo + 1) H1). lia.
Qed.

Lemma all_between_spec (p : Z -> bool) (lo hi : Z) :
  Range.all_between p lo hi = true ->
  forall x, lo <= x <= hi -> p x = true.
Proof.
  unfold Range.all_between. intros H x Hx.
  apply (all_from_spec p _ lo H). rewrite Z2Nat.id; lia.
Qed.

Lemma res_eqb_Z (x : res Z) (y : Z) :
  Checks.res_eqb Z.eqb x y = true -> x = Ret y.
Proof.
  destruct x as [a|e]; simpl; [|discriminate].
  intros H. apply Z.eqb_eq in H. now subst.
Qed.

Lemma rgb_eqb_eq (x y : rgb) : Checks.rgb_eqb x y = true -> x = y.
Proof.
  destruct x as [[a b] c], y as [[a' b'] c']. simpl. intros H.
  apply andb_prop in H. destruct H as [H Hc].
  apply andb_prop in H. destruct H as [Ha Hb].
  apply Z.eqb_eq in Ha, Hb, Hc. now subst.
Qed.

Lemma res_eqb_rgb (x : res rgb) (y : rgb) :
  Checks.res_eqb Checks.rgb_eqb x y = true -> x = Ret y.
Proof.
  destruct x as [a|e]; simpl; [|discriminate].
  intros H. apply rgb_eqb_eq in H. now subst.
Qed.

(** ** Binary64: magnitudes *)

Lemma digits2_pos_size (p : positive) : digits2_pos p = Pos.size p.
Proof. induction p; simpl; congruence. Qed.

Lemma Zdigits2_log2 (p : positive) : Zdigits2 (Zpos p) = Z.log2 (Zpos p) + 1.
Proof.
  unfold Zdigits2. rewrite digits2_pos_size.
  destruct p; simpl; lia.
Qed.

Lemma Zdigits2_nonneg (z : Z) : 0 <= Zdigits2 z.
Proof. destruct z; simpl; lia. Qed.

Lemma Zdigits2_le (a b : Z) : 0 <= a <= b -> Zdigits2 a <= Zdigits2 b.
Proof.
  intros [Ha Hab]. destruct a as [|p|p]; [apply Zdigits2_nonneg | | lia].
  destruct b as [|q|q]; try lia.
  rewrite !Zdigits2_log2. pose proof (Z.log2_le_mono (Zpos p) (Zpos q) Hab). lia.
Qed.

Lemma Zdigits2_succ (a : Z) : 0 <= a -> Zdigits2 (a + 1) <= Zdigits2 a + 1.
Proof.
  intros Ha. destruct a as [|p|p]; [simpl; lia | | lia].
  replace (Zpos p + 1) with (Zpos (p + 1)) by lia.
  rewrite !Zdigits2_log2.
  pose proof (Z.log2_succ_le (Zpos p)).
  replace (Z.succ (Zpos p)) with (Zpos (p + 1)) in * by lia. lia.
Qed.

Lemma Zdigits2_mul (p q : positive) :
  Zdigits2 (Zpos (p * q)) <= Zdigits2 (Zpos p) + Zdigits2 (Zpos q).
Proof.
  rewrite !Zdigits2_log2.
  pose proof (Z.log2_mul_above (Zpos p) (Zpos q) ltac:(lia) ltac:(lia)).
  replace (Zpos p * Zpos q) with (Zpos (p * q)) in * by lia. lia.
Qed.

Lemma Zdigits2_shiftl (a n : Z) :
  0 < a -> 0 <= n -> Zdigits2 (Z.shiftl a n) = Zdigits2 a + n.
Proof.
  intros Ha Hn.
  assert (Hs : 0 < Z.shiftl a n).
  { rewrite Z.shiftl_mul_pow2 by assumption.
    apply Z.mul_pos_pos; [assumption | now apply Z.pow_pos_nonneg]. }
  destruct a as [|p|p]; try lia.
  destruct (Z.shiftl (Zpos p) n) as [|q|q] eqn:E; try lia.
  rewrite !Zdigits2_log2, <- E.
  rewrite Z.log2_shiftl by lia. lia.
Qed.

Lemma shr_1_nonneg (mrs : shr_record) : 0 <= shr_m mrs -> 0 <= shr_m (shr_1 mrs).
Proof.
  destruct mrs as [m r s]. cbn [shr_m]. intros Hm.
  destruct m as [|[p|p|]|p]; cbn [shr_1 shr_m]; lia.
Qed.

Lemma shr_1_digits (mrs : shr_record) :
  Zdigits2 (shr_m (shr_1 mrs)) = Z.max 0 (Zdigits2 (shr_m mrs) - 1).
Proof.
  destruct mrs as [m r s].
  destruct m as [|[p|p|]|[p|p|]];
    cbn [shr_1 shr_m Zdigits2 digits2_pos]; lia.
Qed.

Lemma iter_shr_1 (p : positive) :
  forall mrs,
    0 <= shr_m mrs ->
    0 <= shr_m (iter_pos shr_1 p mrs)
    /\ Zdigits2 (shr_m (iter_pos shr_1 p mrs))
       = Z.max 0 (Zdigits2 (shr_m mrs) - Zpos p).
Proof.
  induction p as [p IH|p IH|]; intros mrs Hm; cbn [iter_pos].
  - pose proof (shr_1_nonneg mrs Hm) as H1.
    pose proof (shr_1_digits mrs) as D1.
    destruct (IH (shr_1 mrs) H1) as [H2 D2].
    destruct (IH _ H2) as [H3 D3].
    split; [exact H3|]. rewrite D3, D2, D1. lia.
  - destruct (IH mrs Hm) as [H2 D2].
    destruct (IH _ H2) as [H3 D3].
    split; [exact H3|]. rewrite D3, D2. lia.
  - split; [now apply shr_1_nonneg|]. now rewrite shr_1_digits.
Qed.

Lemma shr_m_of_loc (m : Z) (l : location) : shr_m (shr_record_of_loc m l) = m.
Proof. destruct l as [|[| |]]; reflexivity. Qed.

(** What [shr_fexp] does to the size of a non-negative mantissa. *)
Lemma shr_fexp_bound (m e : Z) (l : location) (B E : Z) :
  0 <= m -> Zdigits2 m + e <= B -> e <= E -> -1021 <= B -> B - 53 <= E ->
  -1074 <= E ->
  0 <= shr_m (fst (shr_fexp 53 1024 m e l))
  /\ Zdigits2 (shr_m (fst (shr_fexp 53 1024 m e l)))
     + snd (shr_fexp 53 1024 m e l) <= B
  /\ snd (shr_fexp 53 1024 m e l) <= E.
Proof.
  intros Hm HB HE HB0 HBE HE0. unfold shr_fexp, shr, fexp, emin.
  set (n := Z.max (Zdigits2 m + e - 53) (3 - 1024 - 53) - e).
  destruct n as [|p|p] eqn:En; cbn [fst snd]; rewrite ?shr_m_of_loc;
    try (repeat split; lia).
  destruct (iter_shr_1 p (shr_record_of_loc m l)) as [H1 D1];
    [now rewrite shr_m_of_loc|].
  rewrite shr_m_of_loc in D1. rewrite D1.
  repeat split; lia.
Qed.

Lemma round_nearest_even_bound (m : Z) (l : location) :
  0 <= m ->
  0 <= round_nearest_even m l
  /\ Zdigits2 (round_nearest_even m l) <= Zdigits2 m + 1.
Proof.
  intros Hm. pose proof (Zdigits2_succ m Hm).
  destruct l as [|[| |]]; cbn [round_nearest_even];
    try destruct (Z.even m); split; lia.
Qed.

(** Rounding a non-negative mantissa of bounded magnitude gives zero or a
    finite double of bounded magnitude: no overflow. *)
Lemma binary_round_aux_bounded (mx ex : Z) (lx : location) (B E : Z) :
  0 <= mx -> Zdigits2 mx + ex <= B -> ex <= E ->
  -1021 <= B -> B <= 1022 -> B - 52 <= E -> E <= 971 ->
  B64.bounded_by (B + 1) E (binary_round_aux 53 1024 false mx ex lx).
Proof.
  intros Hm HB HE HB0 HB1 HBE HE1. unfold binary_round_aux.
  pose proof (shr_fexp_bound mx ex lx B E Hm HB HE HB0 ltac:(lia) ltac:(lia))
    as (H1 & D1 & E1).
  destruct (shr_fexp 53 1024 mx ex lx) as [mrs' e'] eqn:S1.
  cbn [fst snd] in H1, D1, E1.
  destruct (round_nearest_even_bound (shr_m mrs') (loc_of_shr_record mrs') H1)
    as [H2 D2].
  set (m2 := round_nearest_even (shr_m mrs') (loc_of_shr_record mrs')) in *.
  pose proof (shr_fexp_bound m2 e' loc_Exact (B + 1) E H2 ltac:(lia) E1
                ltac:(lia) ltac:(lia) ltac:(lia)) as (H3 & D3 & E3).
  destruct (shr_fexp 53 1024 m2 e' loc_Exact) as [mrs'' e''] eqn:S2.
  cbn [fst snd] in H3, D3, E3.
  destruct (shr_m mrs'') as [|m|m] eqn:M; [exact I | | lia].
  destruct (Z.leb_spec e'' (1024 - 53)) as [_|Hbig]; [|lia].
  cbn [B64.bounded_by]. split; lia.
Qed.

Lemma bounded_by_weaken (B E B' E' : Z) (x : B64.float) :
  B64.bounded_by B E x -> B <= B' -> E <= E' -> B64.bounded_by B' E' x.
Proof.
  destruct x as [[|]|s| |[|] m e]; cbn [B64.bounded_by]; try tauto. lia.
Qed.

Lemma finite_or_overflow_bounded (B E : Z) (x : B64.float) :
  B64.bounded_by B E x -> B64.finite_or_overflow x = Ret x.
Proof. destruct x as [[|]|s| |[|] m e]; cbn; tauto. Qed.

Lemma mul_bounded (x y : B64.float) (B1 E1 B2 E2 E : Z) :
  B64.bounded_by B1 E1 x -> B64.bounded_by B2 E2 y ->
  -1021 <= B1 + B2 -> B1 + B2 <= 1022 ->
  E1 + E2 <= E -> B1 + B2 - 52 <= E -> E <= 971 ->
  B64.bounded_by (B1 + B2 + 1) E (B64.mul x y).
Proof.
  intros Hx Hy HB0 HB1 HE HBE HE1. unfold B64.mul.
  destruct x as [[|]|sx| |[|] mx ex]; cbn [B64.bounded_by] in Hx; try tauto;
  destruct y as [[|]|sy| |[|] my ey]; cbn [B64.bounded_by] in Hy; try tauto;
    cbn [SFmul xorb]; try exact I.
  destruct Hx as [Hx Hex]. destruct Hy as [Hy Hey].
  apply binary_round_aux_bounded; try lia.
  pose proof (Zdigits2_mul mx my). lia.
Qed.

Lemma div_core_bounded (pa pb : positive) :
  let '(q, e', l) := SFdiv_core_binary 53 1024 (Zpos pa) 0 (Zpos pb) 0 in
  0 <= q /\ Zdigits2 q + e' <= Zdigits2 (Zpos pa) /\ e' <= 0.
Proof.
  unfold SFdiv_core_binary.
  set (e' := Z.min (fexp 53 1024 (Zdigits2 (Zpos pa) + 0 - (Zdigits2 (Zpos pb) + 0)))
               (0 - 0)).
  assert (He : e' <= 0) by (subst e'; lia).
  set (m' := match 0 - 0 - e' with
             | Z0 => Zpos pa
             | Zpos _ => Z.shiftl (Zpos pa) (0 - 0 - e')
             | Zneg _ => 0
             end).
  assert (Hm : 0 <= m' /\ Zdigits2 m' + e' <= Zdigits2 (Zpos pa)).
  { subst m'. destruct (0 - 0 - e') as [|s|s] eqn:Es.
    - split; lia.
    - rewrite <- Es. split.
      + apply Z.shiftl_nonneg. lia.
      + rewrite Zdigits2_shiftl by lia. lia.
    - lia. }
  destruct Hm as [Hm0 Hmd].
  pose proof (Z.div_eucl_eq m' (Zpos pb) ltac:(lia)) as Heq.
  pose proof (Z.mod_pos_bound m' (Zpos pb) ltac:(lia)) as Hmod.
  unfold Z.modulo in Hmod.
  destruct (Z.div_eucl m' (Zpos pb)) as [q r].
  assert (Hq : 0 <= q <= m') by nia.
  pose proof (Zdigits2_le q m' Hq). repeat split; lia.
Qed.

Lemma truediv_bounded (a b B : Z) :
  0 < a -> 0 < b -> Zdigits2 a <= B -> 0 <= B <= 1022 ->
  exists x, B64.truediv a b = Ret x
            /\ B64.bounded_by (B + 1) (Z.max 0 (B - 52)) x.
Proof.
  intros Ha Hb HB HB1. unfold B64.truediv.
  destruct (Z.eqb_spec b 0) as [Hb0|_]; [lia|].
  destruct a as [|pa|pa]; try lia. destruct b as [|pb|pb]; try lia.
  cbn [B64.exact SFdiv xorb]. unfold B64.prec, B64.emax.
  pose proof (div_core_bounded pa pb) as Hcore.
  destruct (SFdiv_core_binary 53 1024 (Zpos pa) 0 (Zpos pb) 0) as [[q e'] l].
  destruct Hcore as (Hq & Hd & He).
  assert (Hbnd : B64.bounded_by (B + 1) (Z.max 0 (B - 52))
                   (binary_round_aux 53 1024 false q e' l)).
  { apply binary_round_aux_bounded; lia. }
  eexists. split; [|exact Hbnd].
  now apply (finite_or_overflow_bounded _ _ _ Hbnd).
Qed.

Lemma digits2_iter_xO (m d : positive) :
  Zpos (digits2_pos (Pos.iter xO m d)) = Zpos (digits2_pos m) + Zpos d.
Proof.
  induction d as [|d IH] using Pos.peano_ind.
  - cbn. lia.
  - rewrite Pos.iter_succ. cbn [digits2_pos]. lia.
Qed.

Lemma of_int_bounded (z B : Z) :
  0 <= z -> Zdigits2 z <= B -> 0 <= B <= 1022 ->
  exists x, B64.of_int z = Ret x
            /\ B64.bounded_by (B + 1) (Z.max 0 (B - 52)) x.
Proof.
  intros Hz HB HB1. unfold B64.of_int.
  destruct z as [|p|p]; try lia.
  - exists (S754_zero false). split; [reflexivity | exact I].
  - cbn [binary_normalize]. unfold binary_round.
    assert (Hal : let '(mz, ez) :=
                    shl_align p 0 (fexp B64.prec B64.emax
                                     (Zpos (digits2_pos p) + 0)) in
                  Zdigits2 (Zpos mz) + ez = Zdigits2 (Zpos p) /\ ez <= 0).
    { unfold shl_align.
      destruct (fexp B64.prec B64.emax (Zpos (digits2_pos p) + 0) - 0)
        as [|d|d] eqn:Ed; cbn [Zdigits2]; try lia.
      rewrite digits2_iter_xO. lia. }
    destruct (shl_align p 0 (fexp B64.prec B64.emax (Zpos (digits2_pos p) + 0)))
      as [mz ez].
    destruct Hal as [Hd He].
    assert (Hbnd : B64.bounded_by (B + 1) (Z.max 0 (B - 52))
                     (binary_round_aux 53 1024 false (Zpos mz) ez loc_Exact)).
    { apply binary_round_aux_bounded; lia. }
    eexists. split; [|exact Hbnd].
    unfold B64.prec, B64.emax. now apply (finite_or_overflow_bounded _ _ _ Hbnd).
Qed.

(** [int()] of a non-negative finite double: the integer just below it. *)
Lemma to_int_bounded (B E : Z) (x : B64.float) :
  B64.bounded_by B E x ->
  exists n num den,
    B64.to_int x = Ret n /\ B64.scaled x = Some (num, den)
    /\ 0 < den /\ 0 <= n /\ n * den <= num < (n + 1) * den.
Proof.
  destruct x as [[|]|s| |[|] m e]; cbn [B64.bounded_by]; try tauto; intros _.
  - exists 0, 0, 1. cbn. repeat split; lia.
  - cbn [B64.to_int B64.scaled cond_Zopp].
    destruct (Z.leb_spec 0 e) as [He|He].
    + exists (Zpos m * 2 ^ e), (Zpos m * 2 ^ e), 1.
      rewrite Z.shiftl_mul_pow2 by assumption.
      pose proof (Z.pow_pos_nonneg 2 e ltac:(lia) He).
      repeat split; nia.
    + exists (Zpos m / 2 ^ (- e)), (Zpos m), (2 ^ (- e)).
      assert (Hp : 0 < 2 ^ (- e)) by (apply Z.pow_pos_nonneg; lia).
      replace (Z.shiftl (Zpos m) e) with (Z.shiftr (Zpos m) (- e))
        by (rewrite <- Z.shiftl_opp_r; f_equal; lia).
      rewrite Z.shiftr_div_pow2 by lia.
      pose proof (Z.mul_div_le (Zpos m) (2 ^ (- e)) Hp).
      pose proof (Z.mul_succ_div_gt (Zpos m) (2 ^ (- e)) Hp).
      assert (0 <= Zpos m / 2 ^ (- e)) by (apply Z.div_pos; lia).
      repeat split; nia.
Qed.

Lemma Zdigits2_below_2_31 (z : Z) : 0 <= z < 2 ^ 31 -> Zdigits2 z <= 31.
Proof.
  intros Hz. pose proof (Zdigits2_le z (2 ^ 31 - 1) ltac:(lia)) as H.
  exact H.
Qed.

(** The row computation shared by the three converters, for any aspect
    correction in (0, 1): it returns the product truncated toward zero. *)
Lemma rows_truncate (c : B64.float) (height original_width width : Z) :
  B64.bounded_by 0 (-53) c ->
  1 <= height < 2 ^ 31 -> 1 <= original_width -> 0 <= width < 2 ^ 31 ->
  exists aspect_ratio w n num den,
    B64.truediv height original_width = Ret aspect_ratio
    /\ B64.of_int width = Ret w
    /\ bind (B64.truediv height original_width) (fun aspect_ratio =>
       bind (B64.of_int width) (fun w =>
       B64.to_int (B64.mul (B64.mul w aspect_ratio) c))) = Ret n
    /\ B64.scaled (B64.mul (B64.mul w aspect_ratio) c) = Some (num, den)
    /\ 0 < den /\ 0 <= n /\ n * den <= num < (n + 1) * den.
Proof.
  intros Hc Hh Hw Hwidth.
  destruct (truediv_bounded height original_width 31) as (a & Ea & Ba);
    try lia; [apply Zdigits2_below_2_31; lia|].
  destruct (of_int_bounded width 31) as (w & Ew & Bw);
    try lia; [apply Zdigits2_below_2_31; lia|].
  cbn in Ba, Bw.
  pose proof (mul_bounded w a 32 0 32 0 12 Bw Ba ltac:(lia) ltac:(lia)
                ltac:(lia) ltac:(lia) ltac:(lia)) as B1.
  pose proof (mul_bounded _ c 65 12 0 (-53) 13 B1 Hc ltac:(lia) ltac:(lia)
                ltac:(lia) ltac:(lia) ltac:(lia)) as B2.
  destruct (to_int_bounded _ _ _ B2) as (n & num & den & En & Es & Hden & Hn & Ht).
  exists a, w, n, num, den. rewrite Ea, Ew. cbn [bind].
  repeat split; try assumption; lia.
Qed.

(** ** Binary64: [int(a / 255)] is integer division *)

Lemma shr_1_value (mrs : shr_record) :
  0 <= shr_m mrs -> shr_m (shr_1 mrs) = shr_m mrs / 2.
Proof.
  destruct mrs as [m r s]. cbn [shr_m]. intros Hm.
  destruct m as [|[p|p|]|p]; cbn [shr_1 shr_m].
  - reflexivity.
  - rewrite Pos2Z.inj_xI. apply Z.div_unique with (r := 1); lia.
  - rewrite Pos2Z.inj_xO. apply Z.div_unique with (r := 0); lia.
  - reflexivity.
  - lia.
Qed.

Lemma iter_shr_1_value (p : positive) :
  forall mrs,
    0 <= shr_m mrs ->
    shr_m (iter_pos shr_1 p mrs) = shr_m mrs / 2 ^ Zpos p.
Proof.
  induction p as [p IH|p IH|]; intros mrs Hm; cbn [iter_pos].
  - pose proof (shr_1_nonneg mrs Hm) as H1.
    destruct (iter_shr_1 p (shr_1 mrs) H1) as [H2 _].
    rewrite (IH _ H2), (IH _ H1), shr_1_value by assumption.
    assert (Hp : 0 < 2 ^ Zpos p) by (apply Z.pow_pos_nonneg; lia).
    assert (E : 2 ^ Zpos p~1 = 2 * 2 ^ Zpos p * 2 ^ Zpos p).
    { replace (Zpos p~1) with (1 + Zpos p + Zpos p) by lia.
      rewrite !Z.pow_add_r by lia. reflexivity. }
    rewrite E, !Z.div_div by lia. f_equal. ring.
  - destruct (iter_shr_1 p mrs Hm) as [H2 _].
    rewrite (IH _ H2), (IH _ Hm).
    assert (Hp : 0 < 2 ^ Zpos p) by (apply Z.pow_pos_nonneg; lia).
    assert (E : 2 ^ Zpos p~0 = 2 ^ Zpos p * 2 ^ Zpos p).
    { replace (Zpos p~0) with (Zpos p + Zpos p) by lia.
      rewrite Z.pow_add_r by lia. reflexivity. }
    rewrite E, Z.div_div by lia. f_equal.
  - rewrite shr_1_value by assumption. reflexivity.
Qed.

(** In the normal range [shr_fexp] shifts a mantissa down to 53 digits. *)
Lemma shr_fexp_value (m e : Z) (l : location) :
  0 <= m -> -1021 <= Zdigits2 m + e ->
  shr_m (fst (shr_fexp 53 1024 m e l)) = m / 2 ^ Z.max 0 (Zdigits2 m - 53)
  /\ snd (shr_fexp 53 1024 m e l) = e + Z.max 0 (Zdigits2 m - 53).
Proof.
  intros Hm Hn. unfold shr_fexp, shr, fexp, emin.
  replace (Z.max (Zdigits2 m + e - 53) (3 - 1024 - 53) - e)
    with (Zdigits2 m - 53) by lia.
  destruct (Zdigits2 m - 53) as [|p|p] eqn:En; cbn [fst snd];
    rewrite ?shr_m_of_loc.
  - cbn. rewrite Z.div_1_r. lia.
  - rewrite iter_shr_1_value by (rewrite shr_m_of_loc; assumption).
    rewrite shr_m_of_loc. replace (Z.max 0 (Zpos p)) with (Zpos p) by lia.
    split; reflexivity.
  - replace (Z.max 0 (Zneg p)) with 0 by lia. cbn. rewrite Z.div_1_r. lia.
Qed.

Lemma round_nearest_even_value (m : Z) (l : location) :
  round_nearest_even m l = m \/ round_nearest_even m l = m + 1.
Proof.
  destruct l as [|[| |]]; cbn [round_nearest_even];
    try destruct (Z.even m); auto.
Qed.

(** [int()] of a rounded non-negative quantity [mx * 2^ex] with [ex]
    negative enough: the mantissa brought to 53 digits, possibly one more,
    divided by what is left of the exponent. *)
Lemma to_int_binary_round_aux (mx ex : Z) (lx : location) :
  0 <= mx -> -1000 <= ex ->
  let n1 := Z.max 0 (Zdigits2 mx - 53) in
  ex + n1 <= -1 ->
  exists m2,
    (m2 = mx / 2 ^ n1 \/ m2 = mx / 2 ^ n1 + 1)
    /\ B64.to_int (binary_round_aux 53 1024 false mx ex lx)
       = Ret (m2 / 2 ^ (- ex - n1)).
Proof.
  intros Hm Hex n1 Hneg.
  pose proof (Zdigits2_nonneg mx) as Hd0.
  unfold binary_round_aux.
  destruct (shr_fexp_value mx ex lx Hm ltac:(lia)) as [V1 X1].
  pose proof (shr_fexp_bound mx ex lx (Zdigits2 mx + ex)
                (Z.max ex (Zdigits2 mx + ex - 53)) Hm ltac:(lia) ltac:(lia)
                ltac:(lia) ltac:(lia) ltac:(lia)) as (P1 & D1 & _).
  destruct (shr_fexp 53 1024 mx ex lx) as [mrs' e1].
  cbn [fst snd] in V1, X1, P1, D1. fold n1 in V1, X1.
  set (m1 := shr_m mrs') in *.
  set (m2 := round_nearest_even m1 (loc_of_shr_record mrs')).
  destruct (round_nearest_even_bound m1 (loc_of_shr_record mrs') P1)
    as [P2 D2]. fold m2 in P2, D2.
  pose proof (Zdigits2_nonneg m2) as Hd2.
  destruct (shr_fexp_value m2 e1 loc_Exact P2 ltac:(lia)) as [V3 X3].
  destruct (shr_fexp 53 1024 m2 e1 loc_Exact) as [mrs'' e''].
  cbn [fst snd] in V3, X3.
  set (n2 := Z.max 0 (Zdigits2 m2 - 53)) in *.
  assert (Hn2 : 0 <= n2 <= 1) by lia.
  exists m2. split.
  { subst m2. rewrite <- V1. apply round_nearest_even_value. }
  assert (Hp2 : 0 < 2 ^ n2) by (apply Z.pow_pos_nonneg; lia).
  assert (Hp : 0 < 2 ^ (- e1 - n2)) by (apply Z.pow_pos_nonneg; lia).
  assert (Hsplit : m2 / 2 ^ (- ex - n1) = shr_m mrs'' / 2 ^ (- e1 - n2)).
  { rewrite V3, Z.div_div by lia. f_equal.
    rewrite <- Z.pow_add_r by lia. f_equal. lia. }
  rewrite Hsplit.
  destruct (shr_m mrs'') as [|m|m] eqn:M.
  - cbn [B64.to_int]. now rewrite Z.div_0_l by lia.
  - destruct (Z.leb_spec e'' (1024 - 53)) as [_|Hbig]; [|lia].
    cbn [B64.to_int cond_Zopp]. f_equal.
    replace (Z.shiftl (Zpos m) e'') with (Z.shiftr (Zpos m) (- e''))
      by (rewrite <- Z.shiftl_opp_r; f_equal; lia).
    rewrite Z.shiftr_div_pow2 by lia. f_equal. f_equal. lia.
  - pose proof (Z.div_pos m2 (2 ^ n2) P2 Hp2). lia.
Qed.

Lemma Zdigits2_mul_pow2 (q k : Z) :
  0 < q -> 0 <= k -> Zdigits2 (q * 2 ^ k) = Zdigits2 q + k.
Proof.
  intros Hq Hk. rewrite <- Z.shiftl_mul_pow2 by assumption.
  now apply Zdigits2_shiftl.
Qed.

(** Rounding the quotient to a double and truncating it gives the integer
    quotient: a part of 1/255 is far more than the last place of a double
    below 2^43. *)
Lemma b64_int_truediv_255 (a : Z) :
  0 <= a < 2 ^ 50 -> B64.int_truediv a 255 = Ret (a / 255).
Proof.
  intros Ha. destruct a as [|pa|pa]; [reflexivity | | lia].
  unfold B64.int_truediv, B64.truediv.
  change (255 =? 0) with false. cbn [B64.exact SFdiv xorb].
  unfold B64.prec, B64.emax, SFdiv_core_binary.
  set (D := Zdigits2 (Zpos pa)).
  assert (HD : 1 <= D <= 50).
  { subst D. split; [cbn; lia|].
    pose proof (Zdigits2_le (Zpos pa) (2 ^ 50 - 1) ltac:(lia)) as H.
    exact H. }
  change (Zdigits2 255) with 8.
  replace (Z.min (fexp 53 1024 (D + 0 - (8 + 0))) (0 - 0)) with (D - 61)
    by (unfold fexp, emin; lia).
  replace (0 - 0 - (D - 61)) with (61 - D) by lia.
  set (s := 61 - D).
  assert (Hs : 11 <= s <= 60) by lia.
  destruct s as [|ps|ps] eqn:Es; try lia. rewrite <- Es in *. clear Es ps.
  rewrite Z.shiftl_mul_pow2 by lia.
  set (K := 2 ^ s).
  assert (HK : 0 < K) by (subst K; apply Z.pow_pos_nonneg; lia).
  pose proof (Z.div_eucl_eq (Zpos pa * K) 255 ltac:(lia)) as Heq.
  pose proof (Z.mod_pos_bound (Zpos pa * K) 255 ltac:(lia)) as Hmod.
  assert (Hdiv : fst (Z.div_eucl (Zpos pa * K) 255) = Zpos pa * K / 255)
    by reflexivity.
  unfold Z.modulo in Hmod.
  destruct (Z.div_eucl (Zpos pa * K) 255) as [q r]. cbn [fst] in Hdiv.
  assert (Hq0 : 0 <= q) by lia.
  (* q has at most 54 digits *)
  assert (Hdq : Zdigits2 q <= 54).
  { destruct (Z.eq_dec q 0) as [->|Hq]; [cbn; lia|].
    pose proof (Zdigits2_mul_pow2 q 7 ltac:(lia) ltac:(lia)) as H7.
    pose proof (Zdigits2_mul_pow2 (Zpos pa) s ltac:(lia) ltac:(lia)) as HsD.
    fold K D in HsD.
    pose proof (Zdigits2_le (q * 2 ^ 7) (Zpos pa * K)) as Hle.
    change (2 ^ 7) with 128 in *. lia. }
  pose proof (Zdigits2_nonneg q) as Hdq0.
  set (n1 := Z.max 0 (Zdigits2 q - 53)).
  assert (Hn1 : 0 <= n1 <= 1) by lia.
  destruct (to_int_binary_round_aux q (D - 61) (new_location 255 r)
              Hq0 ltac:(lia) ltac:(fold n1; lia)) as (m2 & Hm2 & Hto).
  fold n1 in Hm2, Hto.
  assert (Hfin : B64.finite_or_overflow
                   (binary_round_aux 53 1024 false q (D - 61) (new_location 255 r))
                 = Ret (binary_round_aux 53 1024 false q (D - 61)
                          (new_location 255 r))).
  { apply (finite_or_overflow_bounded (Zdigits2 q + (D - 61) + 1) 0).
    apply binary_round_aux_bounded; lia. }
  rewrite Hfin. cbn [bind]. rewrite Hto. f_equal.
  (* arithmetic: T = 2^(s - n1) is at least 1024 *)
  replace (- (D - 61) - n1) with (s - n1) by lia.
  set (P := 2 ^ n1). set (T := 2 ^ (s - n1)).
  assert (HP : 0 < P) by (subst P; apply Z.pow_pos_nonneg; lia).
  assert (HT : 1024 <= T).
  { subst T. change 1024 with (2 ^ 10). apply Z.pow_le_mono_r; lia. }
  assert (HKPT : K = P * T).
  { subst K P T. rewrite <- Z.pow_add_r by lia. f_equal. lia. }
  set (Q := Zpos pa / 255).
  assert (HQ : 255 * Q <= Zpos pa < 255 * Q + 255).
  { subst Q. pose proof (Z.mul_div_le (Zpos pa) 255 ltac:(lia)).
    pose proof (Z.mul_succ_div_gt (Zpos pa) 255 ltac:(lia)). lia. }
  set (m1 := q / P) in *.
  assert (Hm1 : P * m1 <= q < P * m1 + P).
  { subst m1. pose proof (Z.mul_div_le q P HP).
    pose proof (Z.mul_succ_div_gt q P HP). lia. }
  assert (HaK1 : 255 * Q * K <= Zpos pa * K)
    by (apply Z.mul_le_mono_nonneg_r; lia).
  assert (HaK2 : Zpos pa * K <= (255 * Q + 254) * K)
    by (apply Z.mul_le_mono_nonneg_r; lia).
  assert (Hlow : Q * T <= m1).
  { assert (Hq1 : Q * K <= q) by lia.
    assert (Hq2 : P * (Q * T) < P * (m1 + 1)).
    { replace (P * (Q * T)) with (Q * K) by (rewrite HKPT; ring). lia. }
    apply Z.mul_lt_mono_pos_l in Hq2; lia. }
  assert (Hhigh : m1 + 1 < (Q + 1) * T).
  { assert (Hq1 : P * (255 * m1) <= P * ((255 * Q + 254) * T)).
    { replace (P * ((255 * Q + 254) * T)) with ((255 * Q + 254) * K)
        by (rewrite HKPT; ring). lia. }
    apply Z.mul_le_mono_pos_l in Hq1; [|exact HP].
    replace ((255 * Q + 254) * T) with (255 * (Q * T) + 254 * T) in Hq1 by ring.
    replace ((Q + 1) * T) with (Q * T + T) by ring.
    clear - Hq1 HT. clearbody m1 T Q. lia. }
  change (q / 2 ^ n1) with m1 in Hm2.
  symmetry. clear - Hm2 Hlow Hhigh HT. clearbody m1 T Q.
  apply Z.div_unique with (r := m2 - Q * T); lia.
Qed.

(** The same for the grey ramp's division by 23. *)
Lemma b64_int_truediv_23 (a : Z) :
  0 <= a <= 23 * 255 -> B64.int_truediv a 23 = Ret (int_truediv a 23).
Proof.
  intros Ha. apply res_eqb_Z.
  apply (all_between_spec (Checks.truediv_agrees 23) 0 5865); [|lia].
  vm_compute. reflexivity.
Qed.

(** ** Glyph quantizer *)

Lemma clamp_255_range (b : Z) : 0 <= Z.max 0 (Z.min 255 b) <= 255.
Proof. lia. Qed.

Lemma int_truediv_nonneg (a b : Z) :
  0 <= a -> 0 < b -> int_truediv a b = a / b.
Proof. intros Ha Hb. unfold int_truediv. now apply Z.quot_div_nonneg. Qed.

(** Without the clamps: the index of a sample already in 0..255. *)
Lemma char_index_in_range (n b : Z) :
  1 <= n -> 0 <= b <= 255 ->
  Glyph.char_index n b = b * (n - 1) / 255.
Proof.
  intros Hn Hb. unfold Glyph.char_index.
  replace (Z.max 0 (Z.min 255 b)) with b by lia.
  rewrite int_truediv_nonneg by nia.
  assert (0 <= b * (n - 1) / 255) by (apply Z.div_pos; nia).
  assert (b * (n - 1) / 255 <= n - 1).
  { apply Z.div_le_upper_bound; nia. }
  lia.
Qed.

Lemma char_index_spec (n b : Z) :
  0 <= n -> Glyph.char_index n b = Spec.quantize b n.
Proof.
  intros Hn. unfold Glyph.char_index, Spec.quantize.
  set (c := Z.max 0 (Z.min 255 b)).
  assert (Hc : 0 <= c <= 255) by (subst c; lia).
  destruct (Z.eq_dec n 0) as [->|Hn0].
  - (* the empty alphabet: both sides clamp to 0 *)
    assert (int_truediv (c * (0 - 1)) 255 <= 0).
    { unfold int_truediv. apply Z.quot_le_upper_bound; lia. }
    assert (c * (0 - 1) / 255 <= 0).
    { apply Z.div_le_upper_bound; lia. }
    lia.
  - rewrite int_truediv_nonneg by nia. reflexivity.
Qed.

(** The quantizer computed through doubles, as the source writes it, is the
    quantizer computed with integer division, for every alphabet of up to
    2^42 glyphs. *)
Lemma char_index_b64_agrees (n b : Z) :
  1 <= n <= 2 ^ 42 ->
  Glyph.char_index_b64 n b = Ret (Glyph.char_index n b).
Proof.
  intros Hn. unfold Glyph.char_index_b64, Glyph.char_index.
  set (c := Z.max 0 (Z.min 255 b)).
  assert (Hc : 0 <= c <= 255) by (subst c; lia).
  assert (Hprod : 0 <= c * (n - 1) < 2 ^ 50) by nia.
  rewrite b64_int_truediv_255 by exact Hprod.
  rewrite int_truediv_nonneg by lia. reflexivity.
Qed.

Lemma configured_alphabet_sizes (quality : str) :
  let n := len (dict_get VideoToASCII.ascii_sets quality (lit "@%#*+=-:. ")) in
  n = 9 \/ n = 10.
Proof.
  unfold VideoToASCII.ascii_sets. cbn [dict_get].
  destruct (str_eqb (lit "low") quality); [left; reflexivity|].
  destruct (str_eqb (lit "medium") quality); [right; reflexivity|].
  destruct (str_eqb (lit "high") quality); [left; reflexivity|].
  destruct (str_eqb (lit "ultra") quality); [left; reflexivity|].
  right; reflexivity.
Qed.

(** C1.  For every brightness sample and every configured alphabet (the four
    quality sets of video_to_ascii.py, the default taken for an unknown
    quality; the other two converters use the medium set), the glyph
    quantizer clamps the sample to 0..255 and returns
    floor(b * (N-1) / 255) clamped to 0..N-1, both as an integer division
    and when the division is carried out in binary64 as the source writes
    it; the clamp on the index never bites; sample 0 gives index 0 and
    sample 255 gives index N-1, which in the ten-character alphabet are the
    glyphs '@' and ' '; that alphabet is also the one of the other two
    converters.  The formula holds for every alphabet size, and in binary64
    for every size up to 2^42. *)
Theorem glyph_quantizer_formula :
  forall (colorama : bool) (width : Z) (use_color : bool) (quality : str)
         (brightness : Z),
    let self := VideoToASCII.init colorama width use_color quality in
    let n := len (VideoToASCII.ascii_chars self) in
    let b := Z.max 0 (Z.min 255 brightness) in
    Glyph.char_index n brightness = Z.max 0 (Z.min (n - 1) (b * (n - 1) / 255))
    /\ Glyph.char_index n brightness = b * (n - 1) / 255
    /\ Glyph.char_index_b64 n brightness = Ret (b * (n - 1) / 255)
    /\ Glyph.char_index n 0 = 0
    /\ Glyph.char_index n 255 = n - 1
    /\ Glyph.glyph (lit "@%#*+=-:. ") 0 = Ret 64%N
    /\ Glyph.glyph (lit "@%#*+=-:. ") 255 = Ret 32%N
    /\ SimpleVideoToASCII.ascii_chars (SimpleVideoToASCII.init width)
       = lit "@%#*+=-:. "
    /\ ReliableVideoToASCII.ascii_chars
         (ReliableVideoToASCII.init width use_color) = lit "@%#*+=-:. "
    /\ (forall N x : Z, 0 <= N -> Glyph.char_index N x = Spec.quantize x N)
    /\ (forall N x : Z, 1 <= N <= 2 ^ 42 ->
          Glyph.char_index_b64 N x = Ret (Spec.quantize x N))
    /\ (forall N : Z, 1 <= N ->
          Glyph.char_index N 0 = 0 /\ Glyph.char_index N 255 = N - 1).
Proof.
  intros colorama width use_color quality brightness self n b.
  assert (Hn : n = 9 \/ n = 10).
  { subst n self. unfold VideoToASCII.init. cbn [VideoToASCII.ascii_chars].
    apply configured_alphabet_sizes. }
  assert (Hb : 0 <= b <= 255) by (subst b; lia).
  assert (Hidx : Glyph.char_index n brightness = b * (n - 1) / 255).
  { unfold Glyph.char_index. fold b. rewrite int_truediv_nonneg by lia.
    assert (0 <= b * (n - 1) / 255) by (apply Z.div_pos; nia).
    assert (b * (n - 1) / 255 <= n - 1) by (apply Z.div_le_upper_bound; nia).
    lia. }
  repeat split.
  - rewrite char_index_spec by lia. reflexivity.
  - exact Hidx.
  - rewrite char_index_b64_agrees by lia. now rewrite Hidx.
  - rewrite char_index_in_range by lia. reflexivity.
  - rewrite char_index_in_range by lia.
    replace (255 * (n - 1)) with ((n - 1) * 255) by lia.
    now rewrite Z.div_mul.
  - intros N x HN. now apply char_index_spec.
  - intros N x HN. rewrite char_index_b64_agrees by assumption.
    now rewrite char_index_spec by lia.
  - rewrite char_index_in_range by lia. reflexivity.
  - rewrite char_index_in_range by lia.
    replace (255 * (N - 1)) with ((N - 1) * 255) by lia.
    now rewrite Z.div_mul.
Qed.

(** The formula at the medium alphabet and a mid-grey sample. *)
Lemma glyph_quantizer_formula_witness :
  Glyph.char_index 10 128 = 4 /\ Glyph.char_index_b64 10 128 = Ret 4.
Proof.
  pose proof (glyph_quantizer_formula true 80 false (lit "medium") 128) as H.
  cbv zeta in H. destruct H as (_ & H1 & H2 & _).
  split; [exact H1 | exact H2].
Defined.

(** C2.  For samples 0 <= b1 <= b2 <= 255 and an alphabet of N >= 2 glyphs
    the quantizer is monotone, index(b1) <= index(b2), and both indices lie
    in 0..N-1; up to 2^42 glyphs the division carried out in binary64 gives
    these same indices. *)
Theorem glyph_quantizer_monotone_bounded (n b1 b2 : Z) :
  2 <= n -> 0 <= b1 -> b1 <= b2 -> b2 <= 255 ->
  Glyph.char_index n b1 <= Glyph.char_index n b2
  /\ 0 <= Glyph.char_index n b1 <= n - 1
  /\ 0 <= Glyph.char_index n b2 <= n - 1
  /\ (n <= 2 ^ 42 ->
      Glyph.char_index_b64 n b1 = Ret (Glyph.char_index n b1)
      /\ Glyph.char_index_b64 n b2 = Ret (Glyph.char_index n b2)).
Proof.
  intros Hn H0 H12 H255.
  assert (Hmono : b1 * (n - 1) / 255 <= b2 * (n - 1) / 255).
  { apply Z.div_le_mono; nia. }
  assert (0 <= b1 * (n - 1) / 255) by (apply Z.div_pos; nia).
  assert (b2 * (n - 1) / 255 <= n - 1) by (apply Z.div_le_upper_bound; nia).
  split; [|split; [|split]].
  - rewrite !char_index_in_range by lia. lia.
  - rewrite !char_index_in_range by lia. lia.
  - rewrite !char_index_in_range by lia. lia.
  - intros Hmax. split; apply char_index_b64_agrees; lia.
Qed.

Lemma glyph_quantizer_monotone_bounded_witness :
  Glyph.char_index 10 100 <= Glyph.char_index 10 200
  /\ 0 <= Glyph.char_index 10 100 <= 10 - 1
  /\ 0 <= Glyph.char_index 10 200 <= 10 - 1.
Proof.
  destruct (glyph_quantizer_monotone_bounded 10 100 200
              ltac:(lia) ltac:(lia) ltac:(lia) ltac:(lia))
    as (Hmono & Hlo & Hhi & _).
  repeat split; lia.
Defined.

(** ** Colour quantizer, 256 colours *)

Lemma level_5 (c : Z) :
  0 <= c <= 255 -> VideoToASCII.level c 5 = Ret (Spec.cube_level c).
Proof.
  intros Hc. apply res_eqb_Z.
  apply (all_between_spec (Checks.level_agrees 5) 0 255); [|lia].
  vm_compute. reflexivity.
Qed.

Lemma level_23 (c : Z) :
  0 <= c <= 255 -> VideoToASCII.level c 23 = Ret (c * 23 / 255).
Proof.
  intros Hc. apply res_eqb_Z.
  apply (all_between_spec (Checks.level_agrees 23) 0 255); [|lia].
  vm_compute. reflexivity.
Qed.

Lemma cube_level_range (c : Z) : 0 <= c <= 255 -> 0 <= Spec.cube_level c <= 5.
Proof.
  intros Hc. unfold Spec.cube_level. split.
  - apply Z.div_pos; lia.
  - apply Z.div_le_upper_bound; lia.
Qed.

(** The escape of a cube code reads back as the cube's colour. *)
Lemma cube_code_reads_back (c : Z) :
  16 <= c <= 231 ->
  VideoToASCII.get_rgb_from_ansi (VideoToASCII.sgr256 c) = Ret (Spec.cube_rgb c).
Proof.
  intros Hc. apply res_eqb_rgb.
  apply (all_between_spec (Checks.reads_back Spec.cube_rgb) 16 231); [|lia].
  vm_compute. reflexivity.
Qed.

(** The escape of a grey-band code reads back as its grey. *)
Lemma gray_code_reads_back (c : Z) :
  232 <= c <= 255 ->
  VideoToASCII.get_rgb_from_ansi (VideoToASCII.sgr256 c)
  = Ret (Spec.gray_value c, Spec.gray_value c, Spec.gray_value c).
Proof.
  intros Hc. apply res_eqb_rgb.
  apply (all_between_spec
           (Checks.reads_back
              (fun n => (Spec.gray_value n, Spec.gray_value n, Spec.gray_value n)))
           232 255); [|lia].
  vm_compute. reflexivity.
Qed.

Lemma get_color_code_gray (self : VideoToASCII.t) (v : Z) :
  VideoToASCII.use_color self = true -> 0 <= v <= 255 ->
  VideoToASCII.get_color_code self v v v
  = Ret (VideoToASCII.sgr256 (Spec.gray_code v)).
Proof.
  intros Hcol Hv. unfold VideoToASCII.get_color_code, Spec.gray_code.
  rewrite Hcol, !Z.eqb_refl. cbn [negb andb].
  destruct (v <? 8); [reflexivity|].
  destruct (248 <? v); [reflexivity|].
  rewrite level_23 by lia. reflexivity.
Qed.

Lemma get_color_code_cube (self : VideoToASCII.t) (r g b : Z) :
  VideoToASCII.use_color self = true ->
  0 <= r <= 255 -> 0 <= g <= 255 -> 0 <= b <= 255 ->
  ~ (r = g /\ g = b) ->
  VideoToASCII.get_color_code self r g b
  = Ret (VideoToASCII.sgr256 (Spec.cube_code r g b)).
Proof.
  intros Hcol Hr Hg Hb Hne. unfold VideoToASCII.get_color_code.
  rewrite Hcol. cbn [negb].
  destruct ((r =? g) && (g =? b)) eqn:E.
  - apply andb_prop in E. destruct E as [E1 E2].
    apply Z.eqb_eq in E1, E2. tauto.
  - rewrite !level_5 by lia. reflexivity.
Qed.

Lemma gray_code_cases (v : Z) :
  0 <= v <= 255 ->
  (v < 8 /\ Spec.gray_code v = 16)
  \/ (248 < v /\ Spec.gray_code v = 231)
  \/ (8 <= v <= 248 /\ Spec.gray_code v = 232 + v * 23 / 255
      /\ 232 <= Spec.gray_code v <= 254).
Proof.
  intros Hv. unfold Spec.gray_code.
  destruct (Z.ltb_spec v 8); [left; lia|].
  destruct (Z.ltb_spec 248 v); [right; left; lia|].
  right; right.
  assert (0 <= v * 23 / 255) by (apply Z.div_pos; lia).
  assert (v * 23 / 255 < 23) by (apply Z.div_lt_upper_bound; lia).
  lia.
Qed.

(** The grey a ramp code reads back as is below the intensity it came from,
    by at most 12. *)
Lemma gray_ramp_error (v : Z) :
  8 <= v <= 248 ->
  let g := Spec.gray_value (232 + v * 23 / 255) in
  g <= v <= g + 12.
Proof.
  intros Hv g. subst g. unfold Spec.gray_value.
  replace (232 + v * 23 / 255 - 232) with (v * 23 / 255) by lia.
  set (k := v * 23 / 255).
  assert (Hk : 255 * k <= v * 23 < 255 * k + 255).
  { subst k. pose proof (Z.mul_div_le (v * 23) 255).
    pose proof (Z.mul_succ_div_gt (v * 23) 255). lia. }
  assert (Hk0 : 0 <= k) by (subst k; apply Z.div_pos; lia).
  set (g := k * 255 / 23).
  assert (Hg : 23 * g <= k * 255 < 23 * g + 23).
  { subst g. pose proof (Z.mul_div_le (k * 255) 23).
    pose proof (Z.mul_succ_div_gt (k * 255) 23). lia. }
  lia.
Qed.


(** C3, counterexample.  At intensity 133 the forward code is 243, in the
    grayscale band, and its inverse is (121, 121, 121): 12 away from the
    input, more than the bucket width 255/24 (10.6, "about 11") the
    specification allows. *)
Lemma gray_round_trip_exceeds_bucket_width :
  ~ Spec.gray_round_trip_within
      (VideoToASCII.init true 80 true (lit "medium")) 11 133.
Proof.
  intros (code & r & g & b & Hcode & _ & Hrgb & Hr & _).
  vm_compute in Hcode. injection Hcode as <-.
  vm_compute in Hrgb. injection Hrgb as <- <- <-.
  vm_compute in Hr. now apply Hr.
Qed.

(** C3, amended.  For a grey input r = g = b = v in 0..255 the 256-colour
    forward mapping gives the cube's black 16 below 8, the cube's white 231
    above 248, and otherwise the grayscale-band code 232 + floor(23 v / 255),
    which lies in 232..254; the inverse of that code is a grey triple whose
    components are all equal and differ from v by at most 12 (the inverse of
    a band code is never above v). *)
Theorem gray_round_trip (self : VideoToASCII.t) (v : Z) :
  VideoToASCII.use_color self = true ->
  0 <= v <= 255 ->
  exists n g,
    VideoToASCII.get_color_code self v v v = Ret (VideoToASCII.sgr256 n)
    /\ VideoToASCII.get_rgb_from_ansi (VideoToASCII.sgr256 n) = Ret (g, g, g)
    /\ Z.abs (g - v) <= 12
    /\ ((v < 8 /\ n = 16 /\ g = 0)
        \/ (248 < v /\ n = 231 /\ g = 255)
        \/ (8 <= v <= 248 /\ n = 232 + v * 23 / 255 /\ 232 <= n <= 254
            /\ g = Spec.gray_value n /\ g <= v)).
Proof.
  intros Hcol Hv.
  destruct (gray_code_cases v Hv) as [[Hlt E] | [[Hgt E] | (Hmid & E & Hband)]].
  - exists 16, 0. rewrite get_color_code_gray, E by assumption.
    split; [reflexivity|]. split; [|split; [lia | left; lia]].
    now rewrite cube_code_reads_back by lia.
  - exists 231, 255. rewrite get_color_code_gray, E by assumption.
    split; [reflexivity|]. split; [|split; [lia | right; left; lia]].
    now rewrite cube_code_reads_back by lia.
  - exists (Spec.gray_code v), (Spec.gray_value (Spec.gray_code v)).
    rewrite get_color_code_gray by assumption.
    pose proof (gray_ramp_error v Hmid) as Herr. cbv zeta in Herr.
    rewrite <- E in Herr.
    split; [reflexivity|].
    split; [|split; [lia | right; right; repeat split; lia]].
    now rewrite gray_code_reads_back by lia.
Qed.

Lemma gray_round_trip_witness :
  exists n g,
    VideoToASCII.get_color_code (VideoToASCII.init true 80 true (lit "medium"))
      133 133 133 = Ret (VideoToASCII.sgr256 n)
    /\ VideoToASCII.get_rgb_from_ansi (VideoToASCII.sgr256 n) = Ret (g, g, g)
    /\ Z.abs (g - 133) <= 12
    /\ ((133 < 8 /\ n = 16 /\ g = 0)
        \/ (248 < 133 /\ n = 231 /\ g = 255)
        \/ (8 <= 133 <= 248 /\ n = 232 + 133 * 23 / 255 /\ 232 <= n <= 254
            /\ g = Spec.gray_value n /\ g <= 133)).
Proof.
  apply (gray_round_trip (VideoToASCII.init true 80 true (lit "medium")) 133).
  - reflexivity.
  - lia.
Defined.

(** C4.  In colour mode, for an RGB triple in 0..255 whose channels are not
    all equal, each channel is quantized on its own into the level
    floor(channel / 255 * 5) in 0..5 and the escape carries the cube code
    16 + 36 r_level + 6 g_level + b_level; for every cube code c in 16..231
    the inverse is ((c-16)/36 * 51, ((c-16) mod 36)/6 * 51, ((c-16) mod 6) * 51),
    whose channels quantize back to the levels of c; so the inverse of the
    forward code is 51 times each level: in the channel's bucket, at or
    below the channel and less than 51 under it, not the original colour. *)
Theorem color_cube_forward_inverse (self : VideoToASCII.t) (r g b c : Z) :
  VideoToASCII.use_color self = true ->
  0 <= r <= 255 -> 0 <= g <= 255 -> 0 <= b <= 255 ->
  ~ (r = g /\ g = b) ->
  16 <= c <= 231 ->
  (VideoToASCII.level r 5 = Ret (r * 5 / 255)
   /\ VideoToASCII.level g 5 = Ret (g * 5 / 255)
   /\ VideoToASCII.level b 5 = Ret (b * 5 / 255))
  /\ VideoToASCII.get_color_code self r g b
     = Ret (VideoToASCII.sgr256
              (16 + 36 * (r * 5 / 255) + 6 * (g * 5 / 255) + b * 5 / 255))
  /\ 16 <= Spec.cube_code r g b <= 231
  /\ VideoToASCII.get_rgb_from_ansi (VideoToASCII.sgr256 c)
     = Ret ((c - 16) / 36 * 51, (c - 16) mod 36 / 6 * 51, (c - 16) mod 6 * 51)
  /\ Spec.cube_code ((c - 16) / 36 * 51) ((c - 16) mod 36 / 6 * 51)
       ((c - 16) mod 6 * 51) = c
  /\ VideoToASCII.get_rgb_from_ansi (VideoToASCII.sgr256 (Spec.cube_code r g b))
     = Ret (51 * (r * 5 / 255), 51 * (g * 5 / 255), 51 * (b * 5 / 255))
  /\ (51 * (r * 5 / 255) <= r < 51 * (r * 5 / 255) + 51
      /\ 51 * (g * 5 / 255) <= g < 51 * (g * 5 / 255) + 51
      /\ 51 * (b * 5 / 255) <= b < 51 * (b * 5 / 255) + 51).
Proof.
  intros Hcol Hr Hg Hb Hne Hc.
  pose proof (cube_level_range r Hr) as Lr.
  pose proof (cube_level_range g Hg) as Lg.
  pose proof (cube_level_range b Hb) as Lb.
  unfold Spec.cube_level in Lr, Lg, Lb.
  assert (Hcode : 16 <= Spec.cube_code r g b <= 231).
  { unfold Spec.cube_code, Spec.cube_level. lia. }
  split; [|split; [|split; [|split; [|split; [|split]]]]].
  - rewrite !level_5 by assumption. now unfold Spec.cube_level.
  - now rewrite get_color_code_cube by assumption.
  - exact Hcode.
  - now rewrite cube_code_reads_back by assumption.
  - unfold Spec.cube_code, Spec.cube_level.
    assert (H36 : 0 <= (c - 16) / 36 < 6).
    { split; [apply Z.div_pos; lia | apply Z.div_lt_upper_bound; lia]. }
    pose proof (Z.mod_pos_bound (c - 16) 36 ltac:(lia)) as M36.
    assert (H6 : 0 <= (c - 16) mod 36 / 6 < 6).
    { split; [apply Z.div_pos; lia | apply Z.div_lt_upper_bound; lia]. }
    pose proof (Z.mod_pos_bound (c - 16) 6 ltac:(lia)) as M6.
    assert (Hlev : forall k, 0 <= k <= 5 -> k * 51 * 5 / 255 = k).
    { intros k Hk. replace (k * 51 * 5) with (k * 255) by lia.
      now rewrite Z.div_mul. }
    rewrite !Hlev by lia.
    pose proof (Z.div_mod (c - 16) 36 ltac:(lia)) as D36.
    pose proof (Z.div_mod ((c - 16) mod 36) 6 ltac:(lia)) as D6.
    replace ((c - 16) mod 6) with (((c - 16) mod 36) mod 6).
    + lia.
    + apply Z.mod_mod_divide. exists 6. reflexivity.
  - rewrite cube_code_reads_back by assumption.
    unfold Spec.cube_rgb, Spec.cube_code, Spec.cube_level.
    set (x := r * 5 / 255) in *. set (y := g * 5 / 255) in *.
    set (z := b * 5 / 255) in *.
    replace (16 + 36 * x + 6 * y + z - 16) with (x * 36 + (y * 6 + z)) by lia.
    assert (E1 : (x * 36 + (y * 6 + z)) / 36 = x).
    { rewrite Z.div_add_l by lia. rewrite (Z.div_small (y * 6 + z)) by lia. lia. }
    assert (E2 : (x * 36 + (y * 6 + z)) mod 36 = y * 6 + z).
    { rewrite Z.add_comm, Z.mod_add by lia. apply Z.mod_small. lia. }
    assert (E3 : (x * 36 + (y * 6 + z)) mod 6 = z).
    { replace (x * 36 + (y * 6 + z)) with (z + (x * 6 + y) * 6) by lia.
      rewrite Z.mod_add by lia. apply Z.mod_small. lia. }
    rewrite E1, E2, E3.
    rewrite Z.div_add_l by lia. rewrite (Z.div_small z) by lia.
    rewrite Z.add_0_r, !(Z.mul_comm _ 51). reflexivity.
  - pose proof (Z.mul_div_le (r * 5) 255 ltac:(lia)).
    pose proof (Z.mul_succ_div_gt (r * 5) 255 ltac:(lia)).
    pose proof (Z.mul_div_le (g * 5) 255 ltac:(lia)).
    pose proof (Z.mul_succ_div_gt (g * 5) 255 ltac:(lia)).
    pose proof (Z.mul_div_le (b * 5) 255 ltac:(lia)).
    pose proof (Z.mul_succ_div_gt (b * 5) 255 ltac:(lia)).
    lia.
Qed.

Lemma color_cube_forward_inverse_witness :
  VideoToASCII.get_color_code (VideoToASCII.init true 80 true (lit "medium"))
    200 50 50 = Ret (VideoToASCII.sgr256 124)
  /\ VideoToASCII.get_rgb_from_ansi (VideoToASCII.sgr256 124) = Ret (153, 0, 0).
Proof.
  pose proof (color_cube_forward_inverse
                (VideoToASCII.init true 80 true (lit "medium")) 200 50 50 124
                eq_refl ltac:(lia) ltac:(lia) ltac:(lia) ltac:(lia) ltac:(lia))
    as (_ & Hfwd & _ & Hinv & _).
  split; [exact Hfwd | exact Hinv].
Defined.

(** ** Colour quantizer, sixteen colours *)

Lemma str_eqb_eq (a b : str) : str_eqb a b = true <-> a = b.
Proof.
  revert b. induction a as [|x a IH]; intros [|y b]; simpl; split;
    try reflexivity; try discriminate.
  - intros H. apply andb_prop in H. destruct H as [Hx Hab].
    apply N.eqb_eq in Hx. apply IH in Hab. now subst.
  - intros H. injection H as -> ->. rewrite N.eqb_refl. now apply IH.
Qed.

Lemma dict_get_absent {V : Type} (d : list (str * V)) (key : str) (default : V) :
  ~ In key (List.map fst d) -> dict_get d key default = default.
Proof.
  induction d as [|[k v] d IH]; simpl; intros Hnot; [reflexivity|].
  destruct (str_eqb k key) eqn:E.
  - apply str_eqb_eq in E. tauto.
  - apply IH. tauto.
Qed.

Lemma get_color_code_classify16 (r g b : Z) :
  ReliableVideoToASCII.get_color_code r g b
  = Spec.escape16 (Spec.classify16 r g b).
Proof.
  unfold ReliableVideoToASCII.get_color_code, Spec.classify16, Spec.rules16.
  rewrite !Z.gtb_ltb. cbn [Spec.first_match].
  repeat match goal with
         | |- context [if ?c && _ then _ else _] => destruct c; cbn [andb]
         | |- context [if ?c then _ else _] => destruct c
         end; reflexivity.
Qed.

Lemma ansi_to_rgb_escape16 (c : Spec.color16) :
  ReliableVideoToASCII.ansi_to_rgb (Spec.escape16 c) = Spec.rgb16 c.
Proof. destruct c; vm_compute; reflexivity. Qed.

(** The classes by the shape of the triple: all equal, one channel strictly
    on top, or two channels tied on top.  The pair checks run in the order
    red-green, red-blue, green-blue, so a tie of blue with red or green over
    a third channel that is itself above 128 is yellow. *)
Lemma classify16_cases (r g b : Z) :
  (r = g -> g = b ->
   Spec.classify16 r g b
   = if r <? 64 then Spec.Black else if r <? 128 then Spec.DarkGray
     else if r <? 192 then Spec.LightGray else Spec.White)
  /\ (g < r -> b < r -> Spec.classify16 r g b = Spec.Red)
  /\ (r < g -> b < g -> Spec.classify16 r g b = Spec.Green)
  /\ (r < b -> g < b -> Spec.classify16 r g b = Spec.Blue)
  /\ (r = g -> b < r ->
      Spec.classify16 r g b = if 128 <? r then Spec.Yellow else Spec.LightGray)
  /\ (r = b -> g < r ->
      Spec.classify16 r g b
      = if 128 <? r then (if 128 <? g then Spec.Yellow else Spec.Magenta)
        else Spec.LightGray)
  /\ (g = b -> r < g ->
      Spec.classify16 r g b
      = if 128 <? g then (if 128 <? r then Spec.Yellow else Spec.Cyan)
        else Spec.LightGray).
Proof.
  unfold Spec.classify16, Spec.rules16. rewrite !Z.gtb_ltb.
  cbn [Spec.first_match].
  repeat split; intros;
    repeat match goal with
           | |- context [?x =? ?y] => destruct (Z.eqb_spec x y); try lia
           | |- context [?x <? ?y] => destruct (Z.ltb_spec x y); try lia
           end; cbn [andb]; try reflexivity; lia.
Qed.

(** C5.  The sixteen-colour classification is the ordered rule list of the
    specification: grayscale first (by intensity band), then a strictly
    dominant single channel (r > g and r > b, and so on), then a pair of
    channels above 128, and light gray when no rule fires; the inverse maps
    each class to its table colour.  A grey triple gets one of the four
    greys, a strictly dominant channel gets its colour whatever the
    thresholds.  RGB (200, 50, 50) is classified red and its escape maps
    back to (255, 0, 0). *)
Theorem color16_classification (r g b : Z) :
  ReliableVideoToASCII.get_color_code r g b
  = Spec.escape16 (Spec.classify16 r g b)
  /\ ReliableVideoToASCII.ansi_to_rgb (ReliableVideoToASCII.get_color_code r g b)
     = Spec.rgb16 (Spec.classify16 r g b)
  /\ (r = g -> g = b ->
      In (Spec.classify16 r g b)
        [Spec.Black; Spec.DarkGray; Spec.LightGray; Spec.White])
  /\ (g < r -> b < r -> Spec.classify16 r g b = Spec.Red)
  /\ (r < g -> b < g -> Spec.classify16 r g b = Spec.Green)
  /\ (r < b -> g < b -> Spec.classify16 r g b = Spec.Blue)
  /\ Spec.classify16 200 50 50 = Spec.Red
  /\ ReliableVideoToASCII.get_color_code 200 50 50
     = ReliableVideoToASCII.sgr "91"
  /\ ReliableVideoToASCII.ansi_to_rgb
       (ReliableVideoToASCII.get_color_code 200 50 50) = (255, 0, 0).
Proof.
  destruct (classify16_cases r g b) as (Hgray & Hred & Hgreen & Hblue & _).
  split; [apply get_color_code_classify16|].
  split; [rewrite get_color_code_classify16; apply ansi_to_rgb_escape16|].
  split.
  { intros E1 E2. rewrite (Hgray E1 E2).
    destruct (r <? 64); [simpl; tauto|].
    destruct (r <? 128); [simpl; tauto|].
    destruct (r <? 192); simpl; tauto. }
  split; [exact Hred|]. split; [exact Hgreen|]. split; [exact Hblue|].
  repeat split; vm_compute; reflexivity.
Qed.

(** The example triple: red by the dominant-channel rule. *)
Lemma color16_classification_witness :
  Spec.classify16 200 50 50 = Spec.Red
  /\ ReliableVideoToASCII.ansi_to_rgb
       (ReliableVideoToASCII.get_color_code 200 50 50) = (255, 0, 0).
Proof.
  destruct (color16_classification 200 50 50)
    as (_ & _ & _ & Hred & _ & _ & _ & _ & Hinv).
  split; [apply Hred; lia | exact Hinv].
Defined.

(** ** The inverse mappings never raise *)

Lemma index_raises {A : Type} (l : list A) (i : Z) (e : exn) :
  index l i = Raise e -> e = IndexError.
Proof.
  unfold index.
  destruct (_ || _); [intros H; now injection H|].
  destruct (nth_error _ _); [discriminate | intros H; now injection H].
Qed.

Lemma index_nonneg {A : Type} (l : list A) (i : Z) (a : A) :
  0 <= i -> index l i = Ret a -> nth_error l (Z.to_nat i) = Some a.
Proof.
  intros Hi. unfold index.
  destruct (Z.ltb_spec i 0) as [Hneg|_]; [lia|].
  destruct (_ || _); [discriminate|].
  destruct (nth_error _ _) as [a'|]; [|discriminate].
  intros E. now injection E as ->.
Qed.

Lemma int_of_str_raises (s : str) (e : exn) :
  int_of_str s = Raise e -> e = ValueError.
Proof.
  unfold int_of_str.
  match goal with |- context [match ?x with Some _ => _ | None => _ end] =>
    destruct x end; [discriminate | intros H; now injection H].
Qed.

Lemma index_in_range {A : Type} (l : list A) (i : Z) :
  0 <= i < Z.of_nat (List.length l) -> exists a, index l i = Ret a.
Proof.
  intros Hi. unfold index.
  destruct (Z.ltb_spec i 0) as [Hneg|_]; [lia|].
  destruct (Z.ltb_spec i 0) as [Hneg|_]; [lia|].
  destruct (Z.leb_spec (Z.of_nat (List.length l)) i) as [Hbig|_]; [lia|].
  cbn [orb].
  destruct (nth_error l (Z.to_nat i)) as [a|] eqn:E; [now exists a|].
  apply nth_error_None in E. lia.
Qed.

Lemma rgb_of_color_num_returns (n : Z) :
  exists c, VideoToASCII.rgb_of_color_num n = Ret c
            /\ (~ 0 <= n <= 255 -> c = None).
Proof.
  unfold VideoToASCII.rgb_of_color_num.
  destruct ((232 <=? n) && (n <=? 255)) eqn:E1.
  { apply andb_prop in E1. destruct E1 as [Ea Eb].
    apply Z.leb_le in Ea, Eb. eexists; split; [reflexivity | lia]. }
  destruct ((16 <=? n) && (n <=? 231)) eqn:E2.
  { apply andb_prop in E2. destruct E2 as [Ea Eb].
    apply Z.leb_le in Ea, Eb. eexists; split; [reflexivity | lia]. }
  destruct ((0 <=? n) && (n <? Z.of_nat (List.length VideoToASCII.basic_colors)))
    eqn:E3.
  { apply andb_prop in E3. destruct E3 as [Ea Eb].
    apply Z.leb_le in Ea. apply Z.ltb_lt in Eb.
    destruct (index_in_range VideoToASCII.basic_colors n (conj Ea Eb)) as [c ->].
    cbn [bind]. eexists; split; [reflexivity|]. cbn in Eb. lia. }
  eexists; split; [reflexivity | reflexivity].
Qed.

Lemma rgb_try_raises (s : str) (e : exn) :
  VideoToASCII.rgb_try s = Raise e -> e = ValueError \/ e = IndexError.
Proof.
  unfold VideoToASCII.rgb_try.
  destruct (index (split SEMI s) 2) as [field|e1] eqn:E1; cbn [bind].
  - destruct (int_of_str (rstrip_char LOWER_M field)) as [n|e2] eqn:E2; cbn [bind].
    + destruct (rgb_of_color_num_returns n) as (c & -> & _). discriminate.
    + intros H. injection H as <-. left. now apply (int_of_str_raises _ _ E2).
  - intros H. injection H as <-. right. now apply (index_raises _ _ _ E1).
Qed.

(** ** File system *)

Lemma str_eqb_refl (a : str) : str_eqb a a = true.
Proof. now apply str_eqb_eq. Qed.

Lemma str_eqb_neq (a b : str) : a <> b -> str_eqb a b = false.
Proof.
  intros H. destruct (str_eqb a b) eqn:E; [|reflexivity].
  apply str_eqb_eq in E. contradiction.
Qed.

Lemma lookup_remove_same (d : Files.fs) (p : str) :
  Files.lookup (Files.remove d p) p = None.
Proof.
  induction d as [|[q c] d IH]; simpl; [reflexivity|].
  destruct (str_eqb q p) eqn:E; [exact IH|].
  simpl. now rewrite E.
Qed.

Lemma lookup_remove_other (d : Files.fs) (p q : str) :
  p <> q -> Files.lookup (Files.remove d p) q = Files.lookup d q.
Proof.
  intros Hpq. induction d as [|[k c] d IH]; simpl; [reflexivity|].
  destruct (str_eqb k p) eqn:E.
  - apply str_eqb_eq in E. subst k. now rewrite str_eqb_neq.
  - simpl. now rewrite IH.
Qed.

Lemma lookup_put_same (d : Files.fs) (p : str) (c : Files.content) :
  Files.lookup (Files.put d p c) p = Some c.
Proof. unfold Files.put. simpl. now rewrite str_eqb_refl. Qed.

Lemma lookup_put_other (d : Files.fs) (p q : str) (c : Files.content) :
  p <> q -> Files.lookup (Files.put d p c) q = Files.lookup d q.
Proof.
  intros Hpq. unfold Files.put. simpl. rewrite str_eqb_neq by assumption.
  now apply lookup_remove_other.
Qed.

Lemma exists_remove_same (d : Files.fs) (p : str) :
  Files.exists_ (Files.remove d p) p = false.
Proof. unfold Files.exists_. now rewrite lookup_remove_same. Qed.

(** ** The rendering loop of save_ascii_video *)

Lemma write_frames_count (pil : bool) (ok : nat -> bool) (self : VideoToASCII.t)
  (w h : Z) (frames : list str) :
  forall i out k,
    k <= snd (VideoToASCII.write_frames pil ok self w h frames i out k).
Proof.
  induction frames as [|f frames IH]; intros i out k; simpl; [lia|].
  destruct (VideoToASCII.ascii_to_image pil self f) as [img|].
  - destruct (ok i).
    + specialize (IH (S i)
        (Encoder.write out
           (if negb (img_height img =? h) || negb (img_width img =? w)
            then Encoder.resize img w h else img)) (k + 1)). lia.
    + apply IH.
  - apply IH.
Qed.

Lemma same_size_refl (a : image) : same_size a a = true.
Proof. unfold same_size. now rewrite !Z.eqb_refl. Qed.

Lemma uniform_write (out : Encoder.writer) (img : image) :
  Encoder.uniform out = true ->
  same_size img (Encoder.frame_size out) = true ->
  Encoder.uniform (Encoder.write out img) = true.
Proof.
  unfold Encoder.uniform, Encoder.write. cbn [Encoder.frames Encoder.frame_size].
  intros Hu Hs. rewrite forallb_app, Hu. simpl. now rewrite Hs.
Qed.

(** Every frame the loop of [save_ascii_video] hands to the writer has the
    size the writer was opened with. *)
Lemma write_frames_uniform (pil : bool) (ok : nat -> bool) (self : VideoToASCII.t)
  (w h : Z) (frames : list str) :
  forall i out k,
    Encoder.frame_size out = {| img_width := w; img_height := h |} ->
    Encoder.uniform out = true ->
    let out' := fst (VideoToASCII.write_frames pil ok self w h frames i out k) in
    Encoder.frame_size out' = {| img_width := w; img_height := h |}
    /\ Encoder.uniform out' = true.
Proof.
  induction frames as [|f frames IH]; intros i out k Hsize Hu; simpl;
    [now split|].
  destruct (VideoToASCII.ascii_to_image pil self f) as [img|]; [|now apply IH].
  apply IH; [exact Hsize|].
  apply uniform_write; [exact Hu|]. rewrite Hsize.
  unfold same_size. cbn [img_width img_height].
  destruct (img_height img =? h) eqn:Eh, (img_width img =? w) eqn:Ew;
    cbn [negb orb Encoder.resize img_width img_height];
    rewrite ?Z.eqb_refl, ?Eh, ?Ew; reflexivity.
Qed.

Lemma temp_paths_differ :
  Files.temp_audio_path <> VideoToASCII.temp_video_path
  /\ Files.temp_audio_path <> ReliableVideoToASCII.temp_video.
Proof. split; discriminate. Qed.

(** What is on disk once a track was extracted, the combine failed without
    leaving a file, and both temporaries were cleaned up. *)
Lemma cleanup_after_failed_combine (d : Files.fs) (tv out : str) :
  Files.temp_audio_path <> tv -> out <> tv -> out <> Files.temp_audio_path ->
  let d1 := Files.put (Files.put d tv Files.SilentVideo)
              Files.temp_audio_path Files.AudioTrack in
  Files.exists_ d1 tv = true
  /\ Files.exists_ (Files.remove d1 tv) Files.temp_audio_path = true
  /\ Files.exists_ (Files.remove (Files.remove d1 tv) Files.temp_audio_path) tv
     = false
  /\ Files.lookup (Files.remove (Files.remove d1 tv) Files.temp_audio_path) out
     = Files.lookup d out.
Proof.
  intros Hat Hot Hoa d1. subst d1. unfold Files.exists_.
  repeat split.
  - rewrite lookup_put_other, lookup_put_same by assumption. reflexivity.
  - rewrite lookup_remove_other by congruence.
    rewrite lookup_put_same. reflexivity.
  - rewrite lookup_remove_other by assumption.
    rewrite lookup_remove_same. reflexivity.
  - rewrite !lookup_remove_other, !lookup_put_other by congruence. reflexivity.
Qed.


(** C8.  A save-video run in which the sound track is extracted and the
    remux then fails (leaving no file of its own): both converters with an
    audio path remove the rendered video together with the extracted track
    before they look for it, so the run returns False, nothing is delivered
    at the output path (it holds what it held before the run), and no
    "saved (no audio)" line is printed; video_to_ascii.py has just announced
    "saving video without audio". *)
Theorem save_video_combine_failure
  (write_ok : nat -> bool) (self : VideoToASCII.t)
  (self' : ReliableVideoToASCII.t) (first : str) (rest : list str)
  (img img' : image) (output_path : str) (c : char) (source : str)
  (d : Files.fs) :
  VideoToASCII.ascii_to_image true self first = Some img ->
  ReliableVideoToASCII.ascii_to_image true self' first = Some img' ->
  write_ok 0%nat = true ->
  output_path <> VideoToASCII.temp_video_path ->
  output_path <> ReliableVideoToASCII.temp_video ->
  output_path <> Files.temp_audio_path ->
  let mp := {| Files.available := true;
               Files.on_extract := Files.Extracted;
               Files.on_combine := Files.CombineFails false |} in
  let run := VideoToASCII.save_ascii_video true true write_ok mp self
               (first :: rest) output_path (Some (c :: source)) true d in
  let run' := ReliableVideoToASCII.create_video true true mp self'
                (first :: rest) output_path true d in
  (VideoToASCII.returned run = false
   /\ Files.lookup (VideoToASCII.disk run) output_path
      = Files.lookup d output_path
   /\ Files.exists_ (VideoToASCII.disk run) VideoToASCII.temp_video_path = false
   /\ VideoToASCII.printed run = [Files.CombineError; Files.CombineFailedNotice])
  /\ (ReliableVideoToASCII.returned run' = false
      /\ Files.lookup (ReliableVideoToASCII.disk run') output_path
         = Files.lookup d output_path
      /\ Files.exists_ (ReliableVideoToASCII.disk run')
           ReliableVideoToASCII.temp_video = false
      /\ ReliableVideoToASCII.printed run' = [Files.CombineError]).
Proof.
  intros Himg Himg' Hok Hov Hov' Hoa mp run run'.
  destruct temp_paths_differ as [Hav Hav'].
  split.
  - subst run. unfold VideoToASCII.save_ascii_video.
    cbn [negb]. rewrite Himg.
    destruct (VideoToASCII.write_frames true write_ok self (img_width img)
                (img_height img) (first :: rest) 0 (Encoder.opened img) 0)
      as [out k] eqn:Eloop.
    assert (Hk : 1 <= k).
    { pose proof (f_equal snd Eloop) as Hs. cbn [snd] in Hs. rewrite <- Hs.
      cbn [VideoToASCII.write_frames]. rewrite Himg, Hok.
      apply write_frames_count. }
    destruct (Z.eqb_spec k 0) as [Hk0|_]; [lia|].
    subst mp. cbn [Files.available andb Files.extract_audio negb
                   Files.on_extract Files.combine_video_audio Files.on_combine].
    destruct (cleanup_after_failed_combine d VideoToASCII.temp_video_path
                output_path Hav Hov Hoa) as (E1 & E2 & E3 & E4).
    cbv zeta in E1, E2, E3, E4. rewrite E1, E2, E3.
    cbn [VideoToASCII.returned VideoToASCII.disk VideoToASCII.printed app].
    rewrite E3. repeat split. exact E4.
  - subst run'. unfold ReliableVideoToASCII.create_video.
    rewrite Himg'. subst mp.
    cbn [negb Files.available andb Files.extract_audio
         Files.on_extract Files.combine_video_audio Files.on_combine].
    destruct (cleanup_after_failed_combine d ReliableVideoToASCII.temp_video
                output_path Hav' Hov' Hoa) as (E1 & E2 & E3 & E4).
    cbv zeta in E1, E2, E3, E4. rewrite E1, E2, E3.
    cbn [ReliableVideoToASCII.returned ReliableVideoToASCII.disk
         ReliableVideoToASCII.printed app].
    rewrite E3. repeat split. exact E4.
Qed.

(** One three-by-one frame, an empty disk, extraction succeeds and the
    remux fails: both runs return False and leave nothing at "out.mp4". *)
Lemma save_video_combine_failure_witness :
  let mp := {| Files.available := true;
               Files.on_extract := Files.Extracted;
               Files.on_combine := Files.CombineFails false |} in
  let frame := lit "@@@" ++ [NL] in
  let run := VideoToASCII.save_ascii_video true true (fun _ => true) mp
               (VideoToASCII.init true 3 false (lit "medium"))
               [frame] (lit "out.mp4") (Some (lit "in.mp4")) true [] in
  let run' := ReliableVideoToASCII.create_video true true mp
                (ReliableVideoToASCII.init 3 false)
                [frame] (lit "out.mp4") true [] in
  (VideoToASCII.returned run = false
   /\ Files.lookup (VideoToASCII.disk run) (lit "out.mp4") = None)
  /\ (ReliableVideoToASCII.returned run' = false
      /\ Files.lookup (ReliableVideoToASCII.disk run') (lit "out.mp4") = None).
Proof.
  intros mp frame run run'.
  pose proof (save_video_combine_failure (fun _ => true)
                (VideoToASCII.init true 3 false (lit "medium"))
                (ReliableVideoToASCII.init 3 false)
                frame [] {| img_width := 24; img_height := 14 |}
                {| img_width := 24; img_height := 16 |}
                (lit "out.mp4") 105%N (lit "n.mp4") []
                eq_refl eq_refl eq_refl
                ltac:(discriminate) ltac:(discriminate) ltac:(discriminate))
    as [(R & L & _) (R' & L' & _)].
  split; split; assumption.
Defined.

(** ** The monochrome renderer: shape of the text frame *)

Lemma char_index_bounds (n b : Z) :
  1 <= n -> 0 <= Glyph.char_index n b < n.
Proof. intros Hn. unfold Glyph.char_index. lia. Qed.

Lemma index_In {A : Type} (l : list A) (i : Z) (a : A) :
  0 <= i -> index l i = Ret a -> In a l.
Proof.
  intros Hi E. apply (index_nonneg l i a Hi) in E. now apply nth_error_In in E.
Qed.

Lemma glyph_returns (ascii_chars : str) (brightness : Z) :
  ascii_chars <> [] ->
  exists ch, Glyph.glyph ascii_chars brightness = Ret ch /\ In ch ascii_chars.
Proof.
  intros Hne. unfold Glyph.glyph.
  assert (Hlen : 1 <= len ascii_chars).
  { unfold len. destruct ascii_chars; [contradiction | simpl; lia]. }
  pose proof (char_index_bounds (len ascii_chars) brightness Hlen) as Hb.
  destruct (index_in_range ascii_chars _ Hb) as [ch Hch].
  exists ch. split; [exact Hch|]. apply (index_In _ _ _ (proj1 Hb) Hch).
Qed.

Lemma glyph_row_returns (ascii_chars : str) (row : list Z) :
  ascii_chars <> [] ->
  exists line,
    Glyph.glyph_row ascii_chars row = Ret line
    /\ List.length line = List.length row
    /\ Forall (fun ch => In ch ascii_chars) line.
Proof.
  intros Hne. induction row as [|pixel row IH]; simpl.
  - exists []. repeat split. constructor.
  - destruct (glyph_returns ascii_chars pixel Hne) as (ch & -> & Hin).
    destruct IH as (line & -> & Hlen & Hall). cbn [bind].
    exists (ch :: line). split; [reflexivity|]. split; [simpl; lia|].
    now constructor.
Qed.

(** [frame_to_ascii] of simple_ascii_video.py writes one line per row of the
    resized frame and one glyph of the alphabet per sample. *)
Lemma simple_frame_to_ascii_shape (self : SimpleVideoToASCII.t)
  (resized : gray_image) :
  SimpleVideoToASCII.ascii_chars self <> [] ->
  exists lines,
    SimpleVideoToASCII.frame_to_ascii self resized
    = Ret (TextFrame.unlines lines)
    /\ Forall2 (fun line row =>
                  List.length line = List.length row
                  /\ Forall (fun ch => In ch (SimpleVideoToASCII.ascii_chars self))
                       line)
         lines resized.
Proof.
  intros Hne. induction resized as [|row rows IH]; simpl.
  - exists []. split; [reflexivity | constructor].
  - destruct (glyph_row_returns _ row Hne) as (line & -> & Hlen & Hall).
    destruct IH as (lines & -> & Hshape). cbn [bind].
    exists (line :: lines). split.
    + unfold TextFrame.unlines. simpl. now rewrite <- app_assoc.
    + constructor; [now split | exact Hshape].
Qed.

(** The same for the monochrome path of video_to_ascii.py. *)
Lemma ascii_line_mono_is_glyph_row (self : VideoToASCII.t) (grays : list Z) :
  VideoToASCII.ascii_line self grays None
  = Glyph.glyph_row (VideoToASCII.ascii_chars self) grays.
Proof.
  induction grays as [|b grays IH]; simpl; [reflexivity|].
  now rewrite IH.
Qed.

Lemma mono_ascii_lines_shape (self : VideoToASCII.t) (gray_resized : gray_image) :
  VideoToASCII.ascii_chars self <> [] ->
  exists lines,
    VideoToASCII.ascii_lines self gray_resized (@None (list (list (Z * Z * Z))))
    = Ret (TextFrame.unlines lines)
    /\ Forall2 (fun line row =>
                  List.length line = List.length row
                  /\ Forall (fun ch => In ch (VideoToASCII.ascii_chars self)) line)
         lines gray_resized.
Proof.
  intros Hne. induction gray_resized as [|row rows IH];
    cbn [VideoToASCII.ascii_lines option_map].
  - exists []. split; [reflexivity | constructor].
  - rewrite ascii_line_mono_is_glyph_row.
    destruct (glyph_row_returns _ row Hne) as (line & -> & Hlen & Hall).
    cbn [bind].
    destruct IH as (lines & -> & Hshape). cbn [bind].
    exists (line :: lines). split.
    + unfold TextFrame.unlines. simpl. now rewrite <- app_assoc.
    + constructor; [now split | exact Hshape].
Qed.

Lemma mono_frame_to_ascii_shape (self : VideoToASCII.t)
  (gray_resized : gray_image) (resized_color : color_image) :
  VideoToASCII.use_color self = false ->
  VideoToASCII.ascii_chars self <> [] ->
  exists lines,
    VideoToASCII.frame_to_ascii self gray_resized resized_color
    = Ret (TextFrame.unlines lines)
    /\ Forall2 (fun line row =>
                  List.length line = List.length row
                  /\ Forall (fun ch => In ch (VideoToASCII.ascii_chars self)) line)
         lines gray_resized.
Proof.
  intros Hmono Hne. unfold VideoToASCII.frame_to_ascii. rewrite Hmono.
  destruct (mono_ascii_lines_shape self gray_resized Hne) as (lines & E & Hshape).
  exists lines. split; [|exact Hshape].
  change (@None color_image) with (@None (list (list (Z * Z * Z)))).
  now rewrite E.
Qed.

(** C9.  simple_ascii_video.py hands every composited frame to the encoder
    as it is.  Two frames of one video at width 3, the second with a
    full-white top-left sample: the writer is opened at 24 x 32 from the
    first frame, the second frame is composited at 16 x 32 and written
    unresized, so the frames in the output stream do not share one size.
    (The loop of video_to_ascii.py resizes such a frame.) *)
Theorem create_video_mixed_frame_sizes :
  let self := SimpleVideoToASCII.init 3 in
  exists f1 f2 out,
    SimpleVideoToASCII.frame_to_ascii self [[0; 0; 0]; [0; 0; 0]] = Ret f1
    /\ SimpleVideoToASCII.frame_to_ascii self [[255; 0; 0]; [0; 0; 0]] = Ret f2
    /\ SimpleVideoToASCII.create_video true true self [f1; f2] = Some out
    /\ Encoder.frame_size out = {| img_width := 24; img_height := 32 |}
    /\ Encoder.frames out = [ {| img_width := 24; img_height := 32 |};
                              {| img_width := 16; img_height := 32 |} ]
    /\ Encoder.uniform out = false.
Proof.
  intros self.
  exists (lit "@@@" ++ NL :: lit "@@@" ++ [NL]).
  exists (lit " @@" ++ NL :: lit "@@@" ++ [NL]).
  eexists. repeat split; vm_compute; reflexivity.
Qed.

(** C10.  The monochrome renderer of simple_ascii_video.py gives the resized
    frame [[255, 0, 0], [0, 0, 0]] the text frame " @@\n@@@\n": two lines of
    three glyphs.  The compositor strips the text before splitting it, which
    takes the leading space glyph with it: the first line it reads has two
    characters, the image is 16 pixels wide, and the longest line needs
    24. *)
Theorem simple_image_width_short_of_longest_line :
  let self := SimpleVideoToASCII.init 3 in
  let text := lit " @@" ++ NL :: lit "@@@" ++ [NL] in
  SimpleVideoToASCII.frame_to_ascii self [[255; 0; 0]; [0; 0; 0]] = Ret text
  /\ text = TextFrame.unlines [lit " @@"; lit "@@@"]
  /\ TextFrame.lines_of text = [lit "@@"; lit "@@@"]
  /\ SimpleVideoToASCII.ascii_to_simple_image true self text
     = Some {| img_width := 16; img_height := 32 |}
  /\ TextFrame.max_len (TextFrame.lines_of text)
     * SimpleVideoToASCII.char_width self = 24.
Proof.
  intros self text. repeat split; vm_compute; reflexivity.
Qed.

(** ** Row count *)

(** The three aspect corrections as doubles: 0.45 and 0.55 are the doubles
    nearest to the decimals (within half a unit in the last place, 2^-55
    and 2^-54), 0.5 is exact. *)
Lemma aspect_correction_values :
  (B64.f0_45 = S754_finite false 8106479329266893 (-54)
   /\ Z.abs (100 * 8106479329266893 - 45 * 2 ^ 54) <= 50)
  /\ (B64.f0_55 = S754_finite false 4953959590107546 (-53)
      /\ Z.abs (100 * 4953959590107546 - 55 * 2 ^ 53) <= 50)
  /\ (B64.f0_5 = S754_finite false 4503599627370496 (-53)
      /\ 2 * 4503599627370496 = 2 ^ 53).
Proof. repeat split; vm_compute; congruence. Qed.

Lemma aspect_corrections_bounded :
  B64.bounded_by 0 (-53) B64.f0_45
  /\ B64.bounded_by 0 (-53) B64.f0_55
  /\ B64.bounded_by 0 (-53) B64.f0_5.
Proof. repeat split; vm_compute; congruence. Qed.

(** C7, counterexample.  A 1920 x 1080 frame at width 80 and medium
    quality: 80 * (1080/1920) * 0.55 is 24.75; the renderer asks for 24
    rows, rounding would give 25. *)
Lemma row_count_is_not_rounded :
  VideoToASCII.new_height (VideoToASCII.init true 80 false (lit "medium"))
    1080 1920 80 = Ret 24
  /\ Spec.rounded_rows 80 1080 1920 55 100 = 25
  /\ VideoToASCII.new_height (VideoToASCII.init true 80 false (lit "medium"))
       1080 1920 80 <> Ret (Spec.rounded_rows 80 1080 1920 55 100).
Proof. repeat split; vm_compute; congruence. Qed.

(** C7, amended.  For every source frame of height h and width w and every
    requested width (h and w at least 1, everything below 2^31) the renderer
    resizes to that many columns and to int(width * (h / w) * c) rows: the
    double-precision product truncated toward zero, never rounded up.  The
    call returns, and its result n is the non-negative integer with
    n <= product < n + 1, the product taken exactly as the fraction
    num / den.  In video_to_ascii.py the aspect correction c is 0.45 for
    quality 'high' and 0.55 for every other quality; the other two
    converters use 0.5. *)
Theorem row_count_truncates (self : VideoToASCII.t)
  (height original_width width : Z) :
  1 <= height < 2 ^ 31 -> 1 <= original_width < 2 ^ 31 ->
  0 <= width < 2 ^ 31 ->
  let truncated (c : B64.float) (rows : res Z) :=
    exists aspect_ratio w n num den,
      B64.truediv height original_width = Ret aspect_ratio
      /\ B64.of_int width = Ret w
      /\ rows = Ret n
      /\ B64.scaled (B64.mul (B64.mul w aspect_ratio) c) = Some (num, den)
      /\ 0 < den /\ 0 <= n /\ n * den <= num < (n + 1) * den in
  (str_eqb (VideoToASCII.quality self) (lit "high") = true ->
   VideoToASCII.char_aspect_ratio self = B64.literal 45 100)
  /\ (str_eqb (VideoToASCII.quality self) (lit "high") = false ->
      VideoToASCII.char_aspect_ratio self = B64.literal 55 100)
  /\ truncated (VideoToASCII.char_aspect_ratio self)
       (VideoToASCII.new_height self height original_width width)
  /\ truncated (B64.literal 5 10)
       (SimpleVideoToASCII.new_height (SimpleVideoToASCII.init width)
          height original_width)
  /\ (forall use_color,
        truncated (B64.literal 5 10)
          (ReliableVideoToASCII.new_height
             (ReliableVideoToASCII.init width use_color) height original_width)).
Proof.
  intros Hh Hw Hwidth truncated.
  destruct aspect_corrections_bounded as (B45 & B55 & B5).
  assert (Hc : B64.bounded_by 0 (-53) (VideoToASCII.char_aspect_ratio self)).
  { unfold VideoToASCII.char_aspect_ratio. now destruct (str_eqb _ _). }
  split; [|split; [|split; [|split]]].
  - intros E. unfold VideoToASCII.char_aspect_ratio. now rewrite E.
  - intros E. unfold VideoToASCII.char_aspect_ratio. now rewrite E.
  - destruct (rows_truncate _ height original_width width Hc Hh ltac:(lia) Hwidth)
      as (a & w & n & num & den & Ea & Ew & En & Es & Hd & Hn & Ht).
    exists a, w, n, num, den. repeat split; try assumption; lia.
  - destruct (rows_truncate _ height original_width width B5 Hh ltac:(lia) Hwidth)
      as (a & w & n & num & den & Ea & Ew & En & Es & Hd & Hn & Ht).
    exists a, w, n, num, den. repeat split; try assumption; lia.
  - intros use_color.
    destruct (rows_truncate _ height original_width width B5 Hh ltac:(lia) Hwidth)
      as (a & w & n & num & den & Ea & Ew & En & Es & Hd & Hn & Ht).
    exists a, w, n, num, den. repeat split; try assumption; lia.
Qed.

(** The counterexample's frame: the call returns a non-negative row count. *)
Lemma row_count_truncates_witness :
  exists n,
    VideoToASCII.new_height (VideoToASCII.init true 80 false (lit "medium"))
      1080 1920 80 = Ret n
    /\ 0 <= n.
Proof.
  destruct (row_count_truncates
              (VideoToASCII.init true 80 false (lit "medium")) 1080 1920 80
              ltac:(lia) ltac:(lia) ltac:(lia))
    as (_ & _ & (a & w & n & num & den & _ & _ & En & _ & _ & Hn & _) & _).
  exists n. split; assumption.
Defined.

(** ** Save paths: what a run leaves behind *)

Lemma split_nonempty (sep : char) (s : str) : split sep s <> [].
Proof.
  destruct s as [|c s]; cbn [split]; [discriminate|].
  destruct (N.eqb c sep); [discriminate|].
  destruct (split sep s); discriminate.
Qed.

(** With Pillow there, the compositors give every text an image. *)
Lemma image_of_text_some (char_width char_height default_width : Z)
  (ascii_text : str) :
  exists img,
    TextFrame.image_of_text char_width char_height default_width ascii_text
    = Some img.
Proof.
  unfold TextFrame.image_of_text, TextFrame.lines_of.
  pose proof (split_nonempty NL (strip ascii_text)) as Hne.
  destruct (split NL (strip ascii_text)); [contradiction|]. now eexists.
Qed.

(** The loop of [save_ascii_video] hands every frame that has an image to
    the writer. *)
Lemma write_frames_length (ok : nat -> bool) (self : VideoToASCII.t)
  (w h : Z) (frames : list str) :
  forall i out k,
    List.length
      (Encoder.frames
         (fst (VideoToASCII.write_frames true ok self w h frames i out k)))
    = (List.length (Encoder.frames out) + List.length frames)%nat.
Proof.
  induction frames as [|f frames IH]; intros i out k;
    cbn [VideoToASCII.write_frames fst List.length]; [lia|].
  destruct (image_of_text_some (VideoToASCII.char_width self)
              (VideoToASCII.char_height self) (VideoToASCII.width self) f)
    as (img & Himg).
  unfold VideoToASCII.ascii_to_image. cbn [negb]. rewrite Himg.
  rewrite IH. unfold Encoder.write. cbn [Encoder.frames].
  rewrite length_app. cbn [List.length]. lia.
Qed.

(** The writer a run of [save_ascii_video] leaves behind is the one its
    loop filled, opened at the size of the first image. *)
Lemma save_ascii_video_writer (pil opens : bool) (ok : nat -> bool)
  (mp : Files.moviepy) (self : VideoToASCII.t) (frames : list str)
  (output_path : str) (source : option str) (audio : bool) (d : Files.fs)
  (out : Encoder.writer) :
  VideoToASCII.video
    (VideoToASCII.save_ascii_video pil opens ok mp self frames output_path
       source audio d) = Some out ->
  exists first rest first_img,
    pil = true
    /\ frames = first :: rest
    /\ VideoToASCII.ascii_to_image true self first = Some first_img
    /\ out = fst (VideoToASCII.write_frames true ok self (img_width first_img)
                    (img_height first_img) frames 0 (Encoder.opened first_img) 0).
Proof.
  unfold VideoToASCII.save_ascii_video.
  destruct pil; cbn [negb]; [|discriminate].
  destruct frames as [|first rest]; [discriminate|].
  destruct (VideoToASCII.ascii_to_image true self first) as [img|] eqn:Himg;
    [|discriminate].
  destruct opens; cbn [negb]; [|discriminate].
  intros H. exists first, rest, img.
  split; [reflexivity|]. split; [reflexivity|]. split; [exact Himg|].
  revert H.
  destruct (VideoToASCII.write_frames true ok self (img_width img)
              (img_height img) (first :: rest) 0 (Encoder.opened img) 0)
    as [w k].
  cbn [fst].
  destruct (k =? 0); cbn [VideoToASCII.video];
    [intros E; now injection E as <-|].
  destruct (audio && _ && _).
  - destruct (Files.extract_audio mp _) as [[[ap|] d1] lg].
    + destruct (Files.combine_video_audio mp d1 _ _) as [[[|] d2] lg2].
      * cbn [VideoToASCII.video]. intros E; now injection E as <-.
      * destruct (Files.exists_ _ VideoToASCII.temp_video_path);
          cbn [VideoToASCII.video]; intros E; now injection E as <-.
    + destruct (Files.exists_ _ VideoToASCII.temp_video_path);
        cbn [VideoToASCII.video]; intros E; now injection E as <-.
  - destruct (Files.exists_ _ VideoToASCII.temp_video_path);
      cbn [VideoToASCII.video]; intros E; now injection E as <-.
Qed.

(** X1.  A run of [save_ascii_video] on text frames none of which
    composites to an empty image (cv2 rejects those, and the loop skips
    them): whatever the run does afterwards, the writer was opened at the
    size of the first frame's image, which is not empty, every text frame
    was handed to it, and every frame handed to it has that size, a frame
    of another size being resized first. *)
Theorem save_ascii_video_uniform (pil opens : bool) (ok : nat -> bool)
  (mp : Files.moviepy) (self : VideoToASCII.t) (frames : list str)
  (output_path : str) (source : option str) (audio : bool) (d : Files.fs)
  (out : Encoder.writer) :
  Forall (fun f => forall img,
            VideoToASCII.ascii_to_image true self f = Some img ->
            nonempty img = true) frames ->
  VideoToASCII.video
    (VideoToASCII.save_ascii_video pil opens ok mp self frames output_path
       source audio d) = Some out ->
  exists first rest first_img,
    frames = first :: rest
    /\ VideoToASCII.ascii_to_image true self first = Some first_img
    /\ nonempty first_img = true
    /\ Encoder.frame_size out = first_img
    /\ List.length (Encoder.frames out) = List.length frames
    /\ Forall (fun f => f = first_img) (Encoder.frames out)
    /\ Encoder.uniform out = true.
Proof.
  intros Hfull Hout.
  destruct (save_ascii_video_writer _ _ _ _ _ _ _ _ _ _ _ Hout)
    as (first & rest & img & -> & -> & Himg & ->).
  exists first, rest, img. split; [reflexivity|]. split; [exact Himg|].
  split; [inversion Hfull as [|? ? Hfirst _]; now apply Hfirst|].
  pose proof (write_frames_uniform true ok self (img_width img) (img_height img)
                (first :: rest) 0 (Encoder.opened img) 0) as Hu.
  cbv zeta in Hu.
  destruct Hu as [Hsize Hunif]; [now destruct img | reflexivity|].
  assert (Hfs : Encoder.frame_size
                  (fst (VideoToASCII.write_frames true ok self (img_width img)
                          (img_height img) (first :: rest) 0
                          (Encoder.opened img) 0)) = img)
    by (rewrite Hsize; now destruct img).
  split; [exact Hfs|].
  split; [now rewrite write_frames_length|].
  split; [|exact Hunif].
  unfold Encoder.uniform in Hunif. rewrite forallb_forall in Hunif.
  apply Forall_forall. intros f Hf. specialize (Hunif f Hf).
  rewrite Hfs in Hunif. unfold same_size in Hunif.
  apply andb_prop in Hunif. destruct Hunif as [Hw Hh].
  apply Z.eqb_eq in Hw, Hh. destruct f, img. cbn in *. now subst.
Qed.

Lemma save_ascii_video_uniform_witness :
  let run := VideoToASCII.save_ascii_video true true (fun _ => true)
               {| Files.available := false; Files.on_extract := Files.NoAudioTrack;
                  Files.on_combine := Files.Combined |}
               (VideoToASCII.init true 3 false (lit "medium"))
               [lit "@@@" ++ [NL]; lit "@@" ++ [NL]] (lit "out.mp4") None false [] in
  exists out,
    VideoToASCII.video run = Some out
    /\ Encoder.frame_size out = {| img_width := 24; img_height := 14 |}
    /\ Encoder.frames out = [ {| img_width := 24; img_height := 14 |};
                              {| img_width := 24; img_height := 14 |} ].
Proof.
  intros run.
  set (out := {| Encoder.frame_size := {| img_width := 24; img_height := 14 |};
                 Encoder.frames := [ {| img_width := 24; img_height := 14 |};
                                     {| img_width := 24; img_height := 14 |} ] |}).
  exists out.
  destruct (save_ascii_video_uniform true true (fun _ => true)
              {| Files.available := false; Files.on_extract := Files.NoAudioTrack;
                 Files.on_combine := Files.Combined |}
              (VideoToASCII.init true 3 false (lit "medium"))
              [lit "@@@" ++ [NL]; lit "@@" ++ [NL]] (lit "out.mp4") None false []
              out)
    as (first & rest & img & _ & _ & _ & Hsize & _).
  - repeat constructor; intros img E; vm_compute in E; injection E as <-;
      reflexivity.
  - reflexivity.
  - split; [reflexivity|]. split; reflexivity.
Defined.









(** The counter of the rendering loop stays where it is when no write is
    acknowledged. *)
Lemma write_frames_none_acknowledged (pil : bool) (ok : nat -> bool)
  (self : VideoToASCII.t) (w h : Z) (frames : list str) :
  (forall i, ok i = false) ->
  forall i out k,
    snd (VideoToASCII.write_frames pil ok self w h frames i out k) = k.
Proof.
  intros Hok. induction frames as [|f frames IH]; intros i out k; simpl;
    [reflexivity|].
  destruct (VideoToASCII.ascii_to_image pil self f) as [img|]; [|apply IH].
  rewrite Hok. apply IH.
Qed.

(** X4.  [save_ascii_video] counts a frame as written only when [out.write]
    answers with a true value.  When no write is acknowledged, whatever the
    frames and the audio settings, the run returns False after the loop: the
    sound track is not looked at, nothing is put at the output path, and the
    temporary video the writer opened stays on disk. *)
Theorem save_ascii_video_no_write_acknowledged
  (write_ok : nat -> bool) (mp : Files.moviepy) (self : VideoToASCII.t)
  (first : str) (rest : list str) (img : image) (output_path : str)
  (source : option str) (preserve_audio : bool) (d : Files.fs) :
  VideoToASCII.ascii_to_image true self first = Some img ->
  (forall i, write_ok i = false) ->
  output_path <> VideoToASCII.temp_video_path ->
  let run := VideoToASCII.save_ascii_video true true write_ok mp self
               (first :: rest) output_path source preserve_audio d in
  VideoToASCII.returned run = false
  /\ VideoToASCII.printed run = []
  /\ Files.lookup (VideoToASCII.disk run) output_path = Files.lookup d output_path
  /\ Files.lookup (VideoToASCII.disk run) VideoToASCII.temp_video_path
     = Some Files.SilentVideo.
Proof.
  intros Himg Hok Hov run. subst run. unfold VideoToASCII.save_ascii_video.
  cbn [negb]. rewrite Himg.
  pose proof (write_frames_none_acknowledged true write_ok self (img_width img)
                (img_height img) (first :: rest) Hok 0%nat (Encoder.opened img) 0)
    as Hk.
  destruct (VideoToASCII.write_frames true write_ok self (img_width img)
              (img_height img) (first :: rest) 0 (Encoder.opened img) 0)
    as [out k].
  cbn [snd] in Hk. subst k. cbn [Z.eqb].
  cbn [VideoToASCII.returned VideoToASCII.disk VideoToASCII.printed].
  split; [reflexivity|]. split; [reflexivity|]. split.
  - apply lookup_put_other. congruence.
  - apply lookup_put_same.
Qed.

Lemma save_ascii_video_no_write_acknowledged_witness :
  let mp := {| Files.available := true;
               Files.on_extract := Files.Extracted;
               Files.on_combine := Files.Combined |} in
  let run := VideoToASCII.save_ascii_video true true (fun _ => false) mp
               (VideoToASCII.init true 3 false (lit "medium"))
               [lit "@@@" ++ [NL]] (lit "out.mp4") (Some (lit "in.mp4")) true [] in
  VideoToASCII.returned run = false
  /\ VideoToASCII.disk run = [(VideoToASCII.temp_video_path, Files.SilentVideo)].
Proof.
  intros mp run.
  pose proof (save_ascii_video_no_write_acknowledged (fun _ => false) mp
                (VideoToASCII.init true 3 false (lit "medium"))
                (lit "@@@" ++ [NL]) [] {| img_width := 24; img_height := 14 |}
                (lit "out.mp4") (Some (lit "in.mp4")) true []
                eq_refl (fun _ => eq_refl) ltac:(discriminate))
    as (R & _).
  split; [exact R | reflexivity].
Defined.

(** ** Text frames: shape *)

(** X5.  The glyph loop of [frame_to_ascii] in simple_ascii_video.py, from
    the resized frame on (once [cv2.resize] has returned it): whatever the
    samples of the resized grey frame, the loop raises nothing and returns
    a text of one line per row, each line one glyph of the alphabet per
    sample and closed by a newline. *)
Theorem simple_text_frame_shape (width : Z) (resized : gray_image) :
  let self := SimpleVideoToASCII.init width in
  exists lines,
    SimpleVideoToASCII.frame_to_ascii self resized
    = Ret (TextFrame.unlines lines)
    /\ List.length lines = List.length resized
    /\ Forall2 (fun line row =>
                  List.length line = List.length row
                  /\ Forall (fun ch => In ch (lit "@%#*+=-:. ")) line)
         lines resized.
Proof.
  intros self.
  destruct (simple_frame_to_ascii_shape self resized) as (lines & E & Hs);
    [discriminate|].
  exists lines. split; [exact E|]. split; [|exact Hs].
  eapply Forall2_length; eassumption.
Qed.

(** No configured alphabet holds an escape character or a newline. *)
Lemma configured_alphabet_plain (quality : str) :
  Forall (fun ch => ch <> ESC /\ ch <> NL)
    (dict_get VideoToASCII.ascii_sets quality (lit "@%#*+=-:. ")).
Proof.
  unfold VideoToASCII.ascii_sets. cbn [dict_get].
  destruct (str_eqb (lit "low") quality);
    [repeat constructor; discriminate|].
  destruct (str_eqb (lit "medium") quality);
    [repeat constructor; discriminate|].
  destruct (str_eqb (lit "high") quality);
    [repeat constructor; discriminate|].
  destruct (str_eqb (lit "ultra") quality);
    repeat constructor; discriminate.
Qed.

(** X6.  The glyph loop of [frame_to_ascii] in video_to_ascii.py with colour
    off (or colorama missing), from the resized frame on (once
    [resize_frame] has returned it): whatever the quality name and the
    samples, the loop raises nothing and returns one line per row, one
    glyph of the quality's alphabet per sample, none of them an escape
    character or a newline. *)
Theorem mono_text_frame_shape (colorama_available : bool) (width : Z)
  (quality : str) (gray_resized : gray_image) (resized_color : color_image) :
  let self := VideoToASCII.init colorama_available width false quality in
  exists lines,
    VideoToASCII.frame_to_ascii self gray_resized resized_color
    = Ret (TextFrame.unlines lines)
    /\ List.length lines = List.length gray_resized
    /\ Forall2 (fun line row =>
                  List.length line = List.length row
                  /\ Forall (fun ch => In ch (VideoToASCII.ascii_chars self)
                                       /\ ch <> ESC /\ ch <> NL) line)
         lines gray_resized.
Proof.
  intros self.
  assert (Hne : VideoToASCII.ascii_chars self <> []).
  { destruct (configured_alphabet_sizes quality) as [E|E].
    all: subst self; cbn [VideoToASCII.init VideoToASCII.ascii_chars];
      intros H; rewrite H in E; discriminate. }
  destruct (mono_frame_to_ascii_shape self gray_resized resized_color eq_refl Hne)
    as (lines & E & Hs).
  exists lines. split; [exact E|]. split; [eapply Forall2_length; eassumption|].
  pose proof (configured_alphabet_plain quality) as Hplain.
  rewrite Forall_forall in Hplain.
  eapply Forall2_impl; [|exact Hs].
  intros line row [Hlen Hall]. split; [exact Hlen|].
  eapply Forall_impl; [|exact Hall].
  intros ch Hin. split; [exact Hin|]. apply Hplain. exact Hin.
Qed.


(** ** Which frames the reading loops convert *)

Lemma nth_error_every_nth {A : Type} (k : nat) (l : list A) :
  (1 <= k)%nat ->
  forall skip j,
    nth_error (Sampling.every_nth k skip l) j = nth_error l (skip + k * j).
Proof.
  intros Hk. induction l as [|a r IH]; intros skip j.
  - cbn [Sampling.every_nth]. now rewrite !nth_error_nil.
  - destruct skip as [|skip']; cbn [Sampling.every_nth].
    + destruct j as [|j'].
      * now rewrite Nat.mul_0_r.
      * cbn [nth_error]. rewrite IH.
        replace (0 + k * S j')%nat with (S (k - 1 + k * j')) by lia.
        reflexivity.
    + rewrite IH. reflexivity.
Qed.

Lemma length_every_nth {A : Type} (k : nat) (l : list A) :
  (1 <= k)%nat ->
  forall skip,
    List.length (Sampling.every_nth k skip l)
    = ((List.length l + (k - 1) - skip) / k)%nat.
Proof.
  intros Hk. induction l as [|a r IH]; intros skip.
  - simpl. symmetry. apply Nat.div_small. lia.
  - destruct skip as [|skip']; cbn [Sampling.every_nth List.length].
    + rewrite IH.
      replace (List.length r + (k - 1) - (k - 1))%nat with (List.length r) by lia.
      replace (S (List.length r) + (k - 1) - 0)%nat
        with (List.length r + 1 * k)%nat by lia.
      rewrite Nat.div_add by lia. lia.
    + rewrite IH. reflexivity.
Qed.

(** The loop of simple_ascii_video.py, as a function of what is still to be
    read. *)
Lemma simple_read_frames_every_nth {A B : Type} (render : A -> B)
  (max_frames : Z) (cap : list A) :
  forall frame_count skip ascii_frames,
    0 <= frame_count ->
    Z.of_nat skip = (- frame_count) mod 3 ->
    SimpleVideoToASCII.read_frames render max_frames cap frame_count ascii_frames
    = ascii_frames
      ++ List.firstn (Z.to_nat (max_frames - Z.of_nat (List.length ascii_frames)))
           (List.map render (Sampling.every_nth 3 skip cap)).
Proof.
  induction cap as [|frame cap IH]; intros fc skip acc Hfc Hskip.
  - cbn [SimpleVideoToASCII.read_frames Sampling.every_nth List.map].
    rewrite firstn_nil, app_nil_r. now destruct (_ <? _).
  - cbn [SimpleVideoToASCII.read_frames].
    destruct (Z.ltb_spec (Z.of_nat (List.length acc)) max_frames) as [Hlt|Hge].
    + destruct (Z.eqb_spec (fc mod 3) 0) as [E|E].
      * assert (skip = 0%nat) by (Z.div_mod_to_equations; lia). subst skip.
        rewrite (IH (fc + 1) 2%nat) by (Z.div_mod_to_equations; lia).
        cbn [Sampling.every_nth Nat.sub List.map].
        rewrite length_app. cbn [List.length].
        replace (Z.to_nat (max_frames - Z.of_nat (List.length acc)))
          with (S (Z.to_nat (max_frames
                             - Z.of_nat (List.length acc + 1)))) by lia.
        cbn [List.firstn]. now rewrite <- app_assoc.
      * destruct skip as [|skip']; [Z.div_mod_to_equations; lia|].
        rewrite (IH (fc + 1) skip') by (Z.div_mod_to_equations; lia).
        reflexivity.
    + replace (Z.to_nat (max_frames - Z.of_nat (List.length acc))) with 0%nat
        by lia.
      now rewrite app_nil_r.
Qed.

(** X7.  The reading loop of [create_video] in simple_ascii_video.py
    converts every third frame of the capture, starting with the first,
    in order, and stops at [max_frames]: the j-th text frame comes from
    source frame 3j, and their number is the smaller of [max_frames] and
    ceil(n / 3) for a capture of n frames. *)
Theorem simple_reads_every_third_frame {A B : Type} (render : A -> B)
  (max_frames : Z) (cap : list A) :
  let ascii_frames := SimpleVideoToASCII.read_frames render max_frames cap 0 [] in
  Z.of_nat (List.length ascii_frames)
  = Z.max 0 (Z.min max_frames ((Z.of_nat (List.length cap) + 2) / 3))
  /\ forall j, (j < List.length ascii_frames)%nat ->
       nth_error ascii_frames j = option_map render (nth_error cap (3 * j)).
Proof.
  intros ascii_frames. subst ascii_frames.
  rewrite (simple_read_frames_every_nth render max_frames cap 0 0%nat [])
    by (cbn; lia).
  cbn [app List.length]. rewrite Z.sub_0_r.
  assert (Hlen : List.length (Sampling.every_nth 3 0 cap)
                 = ((List.length cap + 2) / 3)%nat).
  { rewrite length_every_nth by lia. f_equal. lia. }
  split.
  - rewrite length_firstn, length_map, Hlen.
    rewrite Nat2Z.inj_min, Nat2Z.inj_div, Nat2Z.inj_add.
    change (Z.of_nat 2) with 2. change (Z.of_nat 3) with 3.
    assert (0 <= (Z.of_nat (List.length cap) + 2) / 3)
      by (apply Z.div_pos; lia).
    lia.
  - intros j Hj. rewrite length_firstn in Hj.
    rewrite nth_error_firstn.
    destruct (Nat.ltb_spec j (Z.to_nat max_frames)) as [_|Hge]; [|lia].
    rewrite nth_error_map, nth_error_every_nth by lia. reflexivity.
Qed.

Lemma reliable_read_frames_every_nth {A B : Type} (render : A -> B)
  (max_frames : Z) (cap : list A) :
  forall frame_count skip ascii_frames,
    0 <= frame_count ->
    Z.of_nat skip = (- frame_count) mod 2 ->
    ReliableVideoToASCII.read_frames render max_frames cap frame_count
      ascii_frames
    = ascii_frames
      ++ List.firstn (Z.to_nat (max_frames - Z.of_nat (List.length ascii_frames)))
           (List.map render (Sampling.every_nth 2 skip cap)).
Proof.
  induction cap as [|frame cap IH]; intros fc skip acc Hfc Hskip.
  - cbn [ReliableVideoToASCII.read_frames Sampling.every_nth List.map].
    rewrite firstn_nil, app_nil_r. now destruct (_ <? _).
  - cbn [ReliableVideoToASCII.read_frames].
    destruct (Z.ltb_spec (Z.of_nat (List.length acc)) max_frames) as [Hlt|Hge].
    + destruct (Z.eqb_spec (fc mod 2) 0) as [E|E].
      * assert (skip = 0%nat) by (Z.div_mod_to_equations; lia). subst skip.
        rewrite (IH (fc + 1) 1%nat) by (Z.div_mod_to_equations; lia).
        cbn [Sampling.every_nth Nat.sub List.map].
        rewrite length_app. cbn [List.length].
        replace (Z.to_nat (max_frames - Z.of_nat (List.length acc)))
          with (S (Z.to_nat (max_frames
                             - Z.of_nat (List.length acc + 1)))) by lia.
        cbn [List.firstn]. now rewrite <- app_assoc.
      * destruct skip as [|skip']; [Z.div_mod_to_equations; lia|].
        rewrite (IH (fc + 1) skip') by (Z.div_mod_to_equations; lia).
        reflexivity.
    + replace (Z.to_nat (max_frames - Z.of_nat (List.length acc))) with 0%nat
        by lia.
      now rewrite app_nil_r.
Qed.

(** X8.  The reading loop of [create_video] in ascii_video_with_audio.py
    converts every second frame, starting with the first, and stops at
    [max_frames]: the j-th text frame comes from source frame 2j, and their
    number is the smaller of [max_frames] and ceil(n / 2). *)
Theorem reliable_reads_every_second_frame {A B : Type} (render : A -> B)
  (max_frames : Z) (cap : list A) :
  let ascii_frames :=
    ReliableVideoToASCII.read_frames render max_frames cap 0 [] in
  Z.of_nat (List.length ascii_frames)
  = Z.max 0 (Z.min max_frames ((Z.of_nat (List.length cap) + 1) / 2))
  /\ forall j, (j < List.length ascii_frames)%nat ->
       nth_error ascii_frames j = option_map render (nth_error cap (2 * j)).
Proof.
  intros ascii_frames. subst ascii_frames.
  rewrite (reliable_read_frames_every_nth render max_frames cap 0 0%nat [])
    by (cbn; lia).
  cbn [app List.length]. rewrite Z.sub_0_r.
  assert (Hlen : List.length (Sampling.every_nth 2 0 cap)
                 = ((List.length cap + 1) / 2)%nat).
  { rewrite length_every_nth by lia. f_equal. lia. }
  split.
  - rewrite length_firstn, length_map, Hlen.
    rewrite Nat2Z.inj_min, Nat2Z.inj_div, Nat2Z.inj_add.
    change (Z.of_nat 1) with 1. change (Z.of_nat 2) with 2.
    assert (0 <= (Z.of_nat (List.length cap) + 1) / 2)
      by (apply Z.div_pos; lia).
    lia.
  - intros j Hj. rewrite length_firstn in Hj.
    rewrite nth_error_firstn.
    destruct (Nat.ltb_spec j (Z.to_nat max_frames)) as [_|Hge]; [|lia].
    rewrite nth_error_map, nth_error_every_nth by lia. reflexivity.
Qed.






(** ** The rectangles of the compositors *)

Lemma glyph_of_clamped (ascii_chars : str) (b : Z) :
  Glyph.glyph ascii_chars b = Glyph.glyph ascii_chars (Z.max 0 (Z.min 255 b)).
Proof.
  unfold Glyph.glyph, Glyph.char_index.
  replace (Z.max 0 (Z.min 255 (Z.max 0 (Z.min 255 b))))
    with (Z.max 0 (Z.min 255 b)) by lia.
  reflexivity.
Qed.

Lemma glyph_grey (b : Z) :
  exists ch g,
    Glyph.glyph (lit "@%#*+=-:. ") b = Ret ch
    /\ contains (lit "@%#*+=-:. ") ch = true
    /\ ch <> NL
    /\ Glyph.glyph_brightness (lit "@%#*+=-:. ") ch = Ret g
    /\ g <= Z.max 0 (Z.min 255 b) <= g + 28.
Proof.
  rewrite glyph_of_clamped.
  set (c := Z.max 0 (Z.min 255 b)).
  assert (Hc : 0 <= c <= 255) by (subst c; lia).
  assert (H : Checks.grey_within c = true).
  { apply (all_between_spec Checks.grey_within 0 255); [|exact Hc].
    vm_compute. reflexivity. }
  clearbody c. unfold Checks.grey_within in H.
  destruct (Glyph.glyph (lit "@%#*+=-:. ") c) as [ch|] eqn:Ech; [|discriminate].
  destruct (Glyph.glyph_brightness (lit "@%#*+=-:. ") ch) as [g|] eqn:Eg;
    [|now rewrite andb_false_r in H].
  apply andb_prop in H. destruct H as [H Hg].
  apply andb_prop in H. destruct H as [Hin Hnl].
  apply andb_prop in Hg. destruct Hg as [Hg1 Hg2].
  exists ch, g. split; [reflexivity|]. split; [exact Hin|].
  split; [|split; [exact Eg | lia]].
  intros ->. discriminate.
Qed.

Lemma simple_draw_rendered_row (width : Z) (y : Z) (row : list Z) :
  forall x,
  exists line rects,
    Glyph.glyph_row (lit "@%#*+=-:. ") row = Ret line
    /\ SimpleVideoToASCII.draw_line (SimpleVideoToASCII.init width) line x y
       = Ret rects
    /\ List.length rects = List.length row
    /\ forall k b, nth_error row k = Some b ->
         exists g,
           nth_error rects k
           = Some {| x1 := (x + Z.of_nat k) * 8; y1 := y * 16;
                     x2 := (x + Z.of_nat k) * 8 + 8 - 1;
                     y2 := y * 16 + 16 - 1;
                     fill := (g, g, g) |}
           /\ g <= Z.max 0 (Z.min 255 b) <= g + 28.
Proof.
  induction row as [|b row IH]; intros x.
  - exists [], []. repeat split. intros [|k] b0; discriminate.
  - destruct (glyph_grey b) as (ch & g & Hch & Hin & _ & Hg & Hb).
    destruct (IH (x + 1)) as (line & rects & Hline & Hdraw & Hlen & Hnth).
    exists (ch :: line).
    exists ({| x1 := x * 8; y1 := y * 16; x2 := x * 8 + 8 - 1;
               y2 := y * 16 + 16 - 1; fill := (g, g, g) |} :: rects).
    split; [|split; [|split]].
    + cbn [Glyph.glyph_row]. rewrite Hch, Hline. reflexivity.
    + cbn [SimpleVideoToASCII.draw_line SimpleVideoToASCII.init
           SimpleVideoToASCII.ascii_chars SimpleVideoToASCII.char_width
           SimpleVideoToASCII.char_height].
      rewrite Hin, Hg. cbn [bind].
      change (SimpleVideoToASCII.draw_line _ line (x + 1) y)
        with (SimpleVideoToASCII.draw_line (SimpleVideoToASCII.init width)
                line (x + 1) y).
      rewrite Hdraw. reflexivity.
    + cbn [List.length]. now rewrite Hlen.
    + intros [|k] b0 Hk.
      * injection Hk as <-. exists g. cbn [nth_error Z.of_nat].
        rewrite Z.add_0_r. split; [reflexivity | exact Hb].
      * cbn [nth_error] in Hk |- *.
        destruct (Hnth k b0 Hk) as (g0 & Hr & Hb0).
        exists g0. split; [|exact Hb0]. rewrite Hr.
        replace (x + 1 + Z.of_nat k) with (x + Z.of_nat (S k)) by lia.
        reflexivity.
Qed.

(** The escape test of ascii_video_with_audio.py compares a slice of up to
    four characters with a string of two: it holds only for the last two
    characters of a line, where no 'm' follows. *)
Lemma reliable_escape_branch_dead (s : str) :
  str_eqb (List.firstn 4 s) (ESC :: lit "[") = true ->
  find LOWER_M s = None.
Proof.
  intros H. apply str_eqb_eq in H.
  destruct s as [|a [|b [|c [|d r]]]]; try discriminate.
  injection H as -> ->. reflexivity.
Qed.

Lemma reliable_draw_chars_plain (width : Z) (use_color : bool) (y : Z) :
  forall (s : str) (fuel : nat) (x : Z) (color : rgb),
    (List.length s <= fuel)%nat ->
    ~ In NL s ->
    ReliableVideoToASCII.draw_chars (ReliableVideoToASCII.init width use_color)
      fuel s (x * 8) y color
    = bind (SimpleVideoToASCII.draw_line (SimpleVideoToASCII.init width) s x y)
        (fun rects =>
           Ret (List.map
                  (fun r => if use_color
                            then {| x1 := x1 r; y1 := y1 r; x2 := x2 r;
                                    y2 := y2 r; fill := color |}
                            else r) rects)).
Proof.
  induction s as [|ch s IH]; intros fuel x color Hfuel Hnl.
  - destruct fuel; reflexivity.
  - destruct fuel as [|fuel]; [cbn [List.length] in Hfuel; lia|].
    cbn [List.length] in Hfuel.
    assert (Hch : ch <> NL) by (intros ->; apply Hnl; now left).
    assert (Hs : ~ In NL s) by (intros Hin; apply Hnl; now right).
    cbn [ReliableVideoToASCII.draw_chars].
    assert (Hdead :
      (if str_eqb (List.firstn 4 (ch :: s)) (ESC :: lit "[") then
         find LOWER_M (ch :: s) else None) = None).
    { destruct (str_eqb (List.firstn 4 (ch :: s)) (ESC :: lit "[")) eqn:E;
        [|reflexivity].
      now apply reliable_escape_branch_dead. }
    destruct (str_eqb (List.firstn 4 (ch :: s)) (ESC :: lit "[")).
    all: try rewrite Hdead.
    all: destruct (N.eqb_spec ch NL) as [?|_]; [contradiction|]; cbn [negb].
    all: cbn [SimpleVideoToASCII.draw_line ReliableVideoToASCII.init
              ReliableVideoToASCII.ascii_chars ReliableVideoToASCII.char_width
              ReliableVideoToASCII.char_height ReliableVideoToASCII.use_color
              SimpleVideoToASCII.init SimpleVideoToASCII.ascii_chars
              SimpleVideoToASCII.char_width SimpleVideoToASCII.char_height].
    all: replace (x * 8 + 8) with ((x + 1) * 8) by lia.
    all: change (ReliableVideoToASCII.draw_chars _ fuel s ((x + 1) * 8) y color)
           with (ReliableVideoToASCII.draw_chars
                   (ReliableVideoToASCII.init width use_color) fuel s
                   ((x + 1) * 8) y color).
    all: rewrite (IH fuel (x + 1) color) by (assumption || lia).
    all: change (SimpleVideoToASCII.draw_line _ s (x + 1) y)
           with (SimpleVideoToASCII.draw_line (SimpleVideoToASCII.init width)
                   s (x + 1) y).
    all: destruct (contains (lit "@%#*+=-:. ") ch); [|reflexivity].
    all: destruct (Glyph.glyph_brightness (lit "@%#*+=-:. ") ch) as [g|e];
           [|reflexivity]; cbn [bind].
    all: destruct (SimpleVideoToASCII.draw_line (SimpleVideoToASCII.init width)
                     s (x + 1) y) as [rects|e]; [|reflexivity]; cbn [bind List.map].
    all: destruct use_color; reflexivity.
Qed.

(** ** Strings: split and strip *)

Lemma split_app_sep (sep : char) (l s : str) :
  ~ In sep l -> split sep (l ++ sep :: s) = l :: split sep s.
Proof.
  induction l as [|c l IH]; intros Hl.
  - cbn [app split]. now rewrite N.eqb_refl.
  - cbn [app split].
    destruct (N.eqb_spec c sep) as [->|_]; [exfalso; apply Hl; now left|].
    rewrite IH; [reflexivity|]. intros Hin. apply Hl. now right.
Qed.

Lemma split_no_sep (sep : char) (l : str) :
  ~ In sep l -> split sep l = [l].
Proof.
  induction l as [|c l IH]; intros Hl; [reflexivity|].
  cbn [split].
  destruct (N.eqb_spec c sep) as [->|_]; [exfalso; apply Hl; now left|].
  rewrite IH; [reflexivity|]. intros Hin. apply Hl. now right.
Qed.

Lemma split_fields_no_sep (sep : char) (s : str) :
  Forall (fun l => ~ In sep l) (split sep s).
Proof.
  induction s as [|c s IH]; cbn [split].
  - constructor; [intros [] | constructor].
  - destruct (N.eqb_spec c sep) as [->|Hne].
    + constructor; [intros [] | exact IH].
    + destruct (split sep s) as [|w ws]; [repeat constructor; intros [H|[]]; congruence|].
      inversion IH as [|? ? Hw Hws]; subst.
      constructor; [|exact Hws].
      intros [H|H]; [congruence | contradiction].
Qed.

Lemma split_unlines (lines : list str) (tail : str) :
  Forall (fun l => ~ In NL l) lines ->
  split NL (TextFrame.unlines lines ++ tail) = lines ++ split NL tail.
Proof.
  induction lines as [|l lines IH]; intros Hl; [reflexivity|].
  inversion Hl as [|? ? Hl1 Hl2]; subst.
  unfold TextFrame.unlines in *. cbn [List.map List.concat].
  rewrite <- !app_assoc. cbn [app].
  rewrite split_app_sep by assumption.
  now rewrite IH.
Qed.

Lemma rstrip_by_kept (p : char -> bool) (s : str) (z : char) :
  p z = false -> rstrip_by p (s ++ [z]) = s ++ [z].
Proof.
  intros Hz. unfold rstrip_by. rewrite rev_app_distr. cbn [rev app dropwhile].
  rewrite Hz. cbn [rev]. now rewrite rev_involutive.
Qed.

Lemma rstrip_by_one (p : char -> bool) (s : str) (z w : char) :
  p z = false -> p w = true -> rstrip_by p (s ++ [z; w]) = s ++ [z].
Proof.
  intros Hz Hw. unfold rstrip_by. rewrite rev_app_distr. cbn [rev app dropwhile].
  rewrite Hw, Hz. cbn [rev]. now rewrite rev_involutive.
Qed.

Lemma unlines_app (a b : list str) :
  TextFrame.unlines (a ++ b) = TextFrame.unlines a ++ TextFrame.unlines b.
Proof. unfold TextFrame.unlines. now rewrite map_app, concat_app. Qed.

(** A text frame whose first character is not white space and whose last
    line ends in a character that is not white space is read back line by
    line. *)
Lemma lines_of_unlines (c : char) (rest : str) (lines : list str)
  (last_line : str) (z : char) :
  Forall (fun l => ~ In NL l) (lines ++ [last_line ++ [z]]) ->
  TextFrame.unlines (lines ++ [last_line ++ [z]]) = c :: rest ->
  isspace c = false -> isspace z = false ->
  TextFrame.lines_of (TextFrame.unlines (lines ++ [last_line ++ [z]]))
  = lines ++ [last_line ++ [z]].
Proof.
  intros Hnl Hhead Hc Hz. unfold TextFrame.lines_of, strip, lstrip_by.
  rewrite Hhead. cbn [dropwhile]. rewrite Hc. rewrite <- Hhead.
  rewrite unlines_app.
  unfold TextFrame.unlines at 2. cbn [List.map List.concat].
  rewrite app_nil_r, <- app_assoc. cbn [app].
  replace (TextFrame.unlines lines ++ last_line ++ [z; NL])
    with ((TextFrame.unlines lines ++ last_line) ++ [z; NL])
    by now rewrite <- app_assoc.
  rewrite rstrip_by_one by (assumption || reflexivity).
  rewrite <- !app_assoc.
  apply Forall_app in Hnl. destruct Hnl as [Hl Hz'].
  rewrite split_unlines by assumption.
  f_equal. apply split_no_sep. now inversion Hz'.
Qed.

(** ** The monochrome bitmap *)

Lemma glyph_visible_below_255 (ascii_chars : str) (b : Z) (ch : char) :
  Range.all_between (Checks.glyph_visible ascii_chars) 0 254 = true ->
  b < 255 -> Glyph.glyph ascii_chars b = Ret ch -> isspace ch = false.
Proof.
  intros Hall Hb. rewrite glyph_of_clamped.
  set (c := Z.max 0 (Z.min 255 b)).
  assert (Hc : 0 <= c <= 254) by (subst c; lia).
  pose proof (all_between_spec (Checks.glyph_visible ascii_chars) 0 254
                Hall c Hc) as H.
  clearbody c. unfold Checks.glyph_visible in H. intros E. rewrite E in H.
  now destruct (isspace ch).
Qed.

(** In every configured alphabet only the sample 255 can give a blank. *)
Lemma configured_glyph_not_space (quality : str) (b : Z) (ch : char) :
  b < 255 ->
  Glyph.glyph (dict_get VideoToASCII.ascii_sets quality (lit "@%#*+=-:. ")) b
  = Ret ch ->
  isspace ch = false.
Proof.
  unfold VideoToASCII.ascii_sets. cbn [dict_get].
  destruct (str_eqb (lit "low") quality);
    [apply glyph_visible_below_255; vm_compute; reflexivity|].
  destruct (str_eqb (lit "medium") quality);
    [apply glyph_visible_below_255; vm_compute; reflexivity|].
  destruct (str_eqb (lit "high") quality);
    [apply glyph_visible_below_255; vm_compute; reflexivity|].
  destruct (str_eqb (lit "ultra") quality);
    apply glyph_visible_below_255; vm_compute; reflexivity.
Qed.

Lemma glyph_not_space (b : Z) (ch : char) :
  b < 255 -> Glyph.glyph (lit "@%#*+=-:. ") b = Ret ch -> isspace ch = false.
Proof. apply glyph_visible_below_255. vm_compute. reflexivity. Qed.

Lemma glyph_row_snoc (ascii_chars : str) (row : list Z) (b : Z) (line : str) :
  Glyph.glyph_row ascii_chars (row ++ [b]) = Ret line ->
  exists l ch, line = l ++ [ch] /\ Glyph.glyph ascii_chars b = Ret ch.
Proof.
  revert line. induction row as [|a row IH]; intros line; cbn [app Glyph.glyph_row].
  - destruct (Glyph.glyph ascii_chars b) as [ch|]; [|discriminate].
    cbn [bind]. intros E. injection E as <-. now exists [], ch.
  - destruct (Glyph.glyph ascii_chars a) as [ch0|]; [|discriminate].
    cbn [bind].
    destruct (Glyph.glyph_row ascii_chars (row ++ [b])) as [tail|] eqn:Et;
      [|discriminate].
    cbn [bind]. intros E. injection E as <-.
    destruct (IH tail eq_refl) as (l & ch & -> & Hch).
    now exists (ch0 :: l), ch.
Qed.

Lemma simple_frame_lines (self : SimpleVideoToASCII.t) (resized : gray_image) :
  SimpleVideoToASCII.ascii_chars self <> [] ->
  exists lines,
    SimpleVideoToASCII.frame_to_ascii self resized
    = Ret (TextFrame.unlines lines)
    /\ Forall2 (fun line row =>
                  Glyph.glyph_row (SimpleVideoToASCII.ascii_chars self) row
                  = Ret line
                  /\ List.length line = List.length row
                  /\ Forall (fun ch => In ch (SimpleVideoToASCII.ascii_chars self))
                       line)
         lines resized.
Proof.
  intros Hne. induction resized as [|row rows IH]; simpl.
  - exists []. split; [reflexivity | constructor].
  - destruct (glyph_row_returns _ row Hne) as (line & E & Hlen & Hall).
    rewrite E.
    destruct IH as (lines & -> & Hshape). cbn [bind].
    exists (line :: lines). split.
    + unfold TextFrame.unlines. simpl. now rewrite <- app_assoc.
    + constructor; [now repeat split | exact Hshape].
Qed.

(** The two ends of a rendered text frame, from the two samples they come
    from. *)
Lemma rendered_text_ends (ascii_chars : str) (lines : list str)
  (resized : gray_image) :
  (forall b ch, b < 255 -> Glyph.glyph ascii_chars b = Ret ch ->
                isspace ch = false) ->
  Forall2 (fun line row => Glyph.glyph_row ascii_chars row = Ret line)
    lines resized ->
  resized <> [] ->
  Forall (fun row => row <> []) resized ->
  List.hd 255 (List.hd [] resized) < 255 ->
  List.last (List.last resized []) 255 < 255 ->
  (exists c rest, TextFrame.unlines lines = c :: rest /\ isspace c = false)
  /\ (exists init_lines last_line z,
        lines = init_lines ++ [last_line ++ [z]] /\ isspace z = false).
Proof.
  intros Hvis Hshape Hne Hrows Hfirst Hlast. split.
  - destruct Hshape as [|line1 row1 lines' rows' Hrow1 _]; [contradiction|].
    destruct row1 as [|b1 row1]; [now inversion Hrows|].
    cbn [List.hd] in Hfirst. cbn [Glyph.glyph_row] in Hrow1.
    destruct (Glyph.glyph _ b1) as [c1|] eqn:Ec1; [|discriminate].
    cbn [bind] in Hrow1.
    destruct (Glyph.glyph_row _ row1) as [tail1|]; [|discriminate].
    cbn [bind] in Hrow1. injection Hrow1 as <-.
    exists c1. eexists. split; [reflexivity|].
    exact (Hvis b1 c1 Hfirst Ec1).
  - destruct (exists_last Hne) as (rows & rowz & ->).
    rewrite last_last in Hlast.
    apply Forall_app in Hrows. destruct Hrows as [_ Hrowz].
    assert (Hz : rowz <> []) by now inversion Hrowz.
    destruct (exists_last Hz) as (rz & bz & ->).
    rewrite last_last in Hlast.
    apply Forall2_app_inv_r in Hshape.
    destruct Hshape as (ls & lz & _ & Hlz & ->).
    inversion Hlz as [|lz1 ? lz2 ? Hrow Hnil]; subst.
    inversion Hnil; subst.
    destruct (glyph_row_snoc _ _ _ _ Hrow) as (l & ch & -> & Hch).
    exists ls, l, ch. split; [reflexivity|].
    exact (Hvis bz ch Hlast Hch).
Qed.

(** X11.  When the top-left and the bottom-right sample of the resized
    frame are below 255 (their glyphs are not the blank), the compositor of
    simple_ascii_video.py reads the text frame back line by line as it was
    rendered, and the bitmap is 8 pixels per column by 16 pixels per row of
    the resized frame. *)
Theorem simple_image_size (width : Z) (resized : gray_image) :
  1 <= width ->
  resized <> [] ->
  Forall (fun row => Z.of_nat (List.length row) = width) resized ->
  List.hd 255 (List.hd [] resized) < 255 ->
  List.last (List.last resized []) 255 < 255 ->
  let self := SimpleVideoToASCII.init width in
  exists lines,
    SimpleVideoToASCII.frame_to_ascii self resized
    = Ret (TextFrame.unlines lines)
    /\ TextFrame.lines_of (TextFrame.unlines lines) = lines
    /\ SimpleVideoToASCII.ascii_to_simple_image true self
         (TextFrame.unlines lines)
       = Some {| img_width := width * 8;
                 img_height := Z.of_nat (List.length resized) * 16 |}.
Proof.
  intros Hw Hne Hrows Hfirst Hlast self.
  destruct (simple_frame_lines self resized ltac:(discriminate))
    as (lines & Etext & Hshape).
  exists lines. split; [exact Etext|].
  assert (Hlen : List.length lines = List.length resized)
    by (eapply Forall2_length; eassumption).
  assert (Hnl : Forall (fun l => ~ In NL l) lines).
  { clear - Hshape.
    induction Hshape as [|line row lines rows (_ & _ & Hall) _ IH];
      constructor; [|exact IH].
    intros Hin. rewrite Forall_forall in Hall. apply Hall in Hin.
    cbn in Hin. repeat (destruct Hin as [Hin|Hin]; [discriminate|]).
    contradiction. }
  assert (Hrows' : Forall (fun row : list Z => row <> []) resized).
  { eapply Forall_impl; [|exact Hrows]. intros row Hrow ->. cbn in Hrow. lia. }
  assert (Hglyphs : Forall2
            (fun line row => Glyph.glyph_row (lit "@%#*+=-:. ") row = Ret line)
            lines resized).
  { eapply Forall2_impl; [|exact Hshape]. now intros ? ? (? & _). }
  destruct (rendered_text_ends (lit "@%#*+=-:. ") lines resized glyph_not_space
              Hglyphs Hne Hrows' Hfirst Hlast)
    as [(c & rest & Hhead & Hc) (init_lines & last_line & z & Elines & Hz)].
  assert (Hread : TextFrame.lines_of (TextFrame.unlines lines) = lines).
  { rewrite Elines in Hnl, Hhead |- *.
    exact (lines_of_unlines c rest init_lines last_line z Hnl Hhead Hc Hz). }
  split; [exact Hread|].
  unfold SimpleVideoToASCII.ascii_to_simple_image. cbn [negb].
  rewrite Hread.
  destruct Hshape as [|line1 row1 lines' rows' (_ & Hlen1 & _) _];
    [contradiction|].
  cbn [SimpleVideoToASCII.char_width SimpleVideoToASCII.char_height self
       SimpleVideoToASCII.init].
  inversion Hrows as [|? ? Hrow1 _]; subst.
  unfold len. rewrite Hlen1, Hlen. reflexivity.
Qed.

Lemma simple_image_size_witness :
  exists lines,
    SimpleVideoToASCII.frame_to_ascii (SimpleVideoToASCII.init 3)
      [[0; 255; 255]; [255; 255; 100]]
    = Ret (TextFrame.unlines lines)
    /\ TextFrame.lines_of (TextFrame.unlines lines) = lines
    /\ SimpleVideoToASCII.ascii_to_simple_image true (SimpleVideoToASCII.init 3)
         (TextFrame.unlines lines)
       = Some {| img_width := 24; img_height := 32 |}.
Proof.
  apply (simple_image_size 3 [[0; 255; 255]; [255; 255; 100]]).
  - lia.
  - discriminate.
  - repeat constructor.
  - cbn. lia.
  - cbn. lia.
Defined.

(** The frame as rendered and as the compositor reads it back. *)
Lemma simple_rendered_lines (width : Z) (resized : gray_image) :
  1 <= width ->
  resized <> [] ->
  Forall (fun row => Z.of_nat (List.length row) = width) resized ->
  List.hd 255 (List.hd [] resized) < 255 ->
  List.last (List.last resized []) 255 < 255 ->
  exists lines,
    SimpleVideoToASCII.frame_to_ascii (SimpleVideoToASCII.init width) resized
    = Ret (TextFrame.unlines lines)
    /\ TextFrame.lines_of (TextFrame.unlines lines) = lines
    /\ Forall2 (fun line row =>
                  Glyph.glyph_row (lit "@%#*+=-:. ") row = Ret line)
         lines resized.
Proof.
  intros Hw Hne Hrows Hfirst Hlast.
  destruct (simple_frame_lines (SimpleVideoToASCII.init width) resized
              ltac:(discriminate)) as (lines & Etext & Hshape).
  exists lines. split; [exact Etext|].
  assert (Hnl : Forall (fun l => ~ In NL l) lines).
  { clear - Hshape.
    induction Hshape as [|line row lines rows (_ & _ & Hall) _ IH];
      constructor; [|exact IH].
    intros Hin. rewrite Forall_forall in Hall. apply Hall in Hin.
    cbn in Hin. repeat (destruct Hin as [Hin|Hin]; [discriminate|]).
    contradiction. }
  assert (Hrows' : Forall (fun row : list Z => row <> []) resized).
  { eapply Forall_impl; [|exact Hrows]. intros row Hrow ->. cbn in Hrow. lia. }
  assert (Hglyphs : Forall2
            (fun line row => Glyph.glyph_row (lit "@%#*+=-:. ") row = Ret line)
            lines resized).
  { eapply Forall2_impl; [|exact Hshape]. now intros ? ? (? & _). }
  destruct (rendered_text_ends (lit "@%#*+=-:. ") lines resized glyph_not_space
              Hglyphs Hne Hrows' Hfirst Hlast)
    as [(c & rest & Hhead & Hc) (init_lines & last_line & z & Elines & Hz)].
  split; [|exact Hglyphs].
  rewrite Elines in Hnl, Hhead |- *.
  exact (lines_of_unlines c rest init_lines last_line z Hnl Hhead Hc Hz).
Qed.

(** The rectangles of the lines of a rendered frame, row after row. *)
Lemma simple_draw_rendered_rows (width : Z) (w : nat) (rows : gray_image) :
  forall (lines : list str) (y : Z),
    Forall2 (fun line row => Glyph.glyph_row (lit "@%#*+=-:. ") row = Ret line)
      lines rows ->
    Forall (fun row => List.length row = w) rows ->
    exists rects,
      SimpleVideoToASCII.draw_lines (SimpleVideoToASCII.init width) lines y
      = Ret rects
      /\ List.length rects = (List.length rows * w)%nat
      /\ forall i k row b,
           nth_error rows i = Some row -> nth_error row k = Some b ->
           exists g,
             nth_error rects (i * w + k)
             = Some {| x1 := Z.of_nat k * 8; y1 := (y + Z.of_nat i) * 16;
                       x2 := Z.of_nat k * 8 + 7;
                       y2 := (y + Z.of_nat i) * 16 + 15;
                       fill := (g, g, g) |}
             /\ g <= Z.max 0 (Z.min 255 b) <= g + 28.
Proof.
  induction rows as [|row rows IH]; intros lines y Hshape Hrows.
  - inversion Hshape; subst. exists []. split; [reflexivity|].
    split; [reflexivity|]. intros [|i] k row b H; discriminate.
  - destruct lines as [|line lines]; [inversion Hshape|].
    apply Forall2_cons_iff in Hshape. destruct Hshape as [Hline Hshape].
    apply Forall_cons_iff in Hrows. destruct Hrows as [Hw Hrows].
    destruct (simple_draw_rendered_row width y row 0)
      as (line' & rects & Hline' & Hdraw & Hlen & Hnth).
    rewrite Hline in Hline'. injection Hline' as <-.
    destruct (IH lines (y + 1) Hshape Hrows) as (more & Hmore & Hmlen & Hmnth).
    exists (rects ++ more).
    split; [|split].
    + cbn [SimpleVideoToASCII.draw_lines]. rewrite Hdraw. cbn [bind].
      rewrite Hmore. reflexivity.
    + rewrite length_app, Hlen, Hmlen, Hw. cbn [List.length]. lia.
    + intros [|i] k row0 b Hrow0 Hb.
      * cbn [nth_error] in Hrow0. injection Hrow0 as <-.
        destruct (Hnth k b Hb) as (g & Hr & Hbound).
        exists g. split; [|exact Hbound].
        cbn [Nat.mul Nat.add].
        rewrite nth_error_app1
          by (rewrite Hlen; apply nth_error_Some; congruence).
        rewrite Hr. cbn [Z.of_nat]. do 2 f_equal; lia.
      * cbn [nth_error] in Hrow0.
        destruct (Hmnth i k row0 b Hrow0 Hb) as (g & Hr & Hbound).
        exists g. split; [|exact Hbound].
        replace (S i * w + k)%nat with (List.length rects + (i * w + k))%nat
          by (rewrite Hlen, Hw; lia).
        rewrite nth_error_app2 by lia.
        replace (List.length rects + (i * w + k) - List.length rects)%nat
          with (i * w + k)%nat by lia.
        rewrite Hr. do 2 f_equal; lia.
Qed.

(** X10.  A frame rendered by simple_ascii_video.py and handed to its
    compositor, when the top-left and the bottom-right sample of the resized
    frame are below 255 (so that [strip()] takes no glyph away): one
    rectangle is drawn per sample, row after row; the sample in row i and
    column k gets the pixels (8k, 16i)..(8k+7, 16i+15), filled with a grey
    that is at or below the (clamped) sample and at most 28 under it, the
    ten-glyph alphabet keeping ten grey levels. *)
Theorem simple_rectangles_of_rendered_frame (width : Z) (resized : gray_image) :
  1 <= width ->
  resized <> [] ->
  Forall (fun row => Z.of_nat (List.length row) = width) resized ->
  List.hd 255 (List.hd [] resized) < 255 ->
  List.last (List.last resized []) 255 < 255 ->
  let self := SimpleVideoToASCII.init width in
  exists text rects,
    SimpleVideoToASCII.frame_to_ascii self resized = Ret text
    /\ SimpleVideoToASCII.draw_text self text = Ret rects
    /\ Z.of_nat (List.length rects) = Z.of_nat (List.length resized) * width
    /\ forall i k row b,
         nth_error resized i = Some row -> nth_error row k = Some b ->
         exists g,
           nth_error rects (i * Z.to_nat width + k)
           = Some {| x1 := Z.of_nat k * 8; y1 := Z.of_nat i * 16;
                     x2 := Z.of_nat k * 8 + 7; y2 := Z.of_nat i * 16 + 15;
                     fill := (g, g, g) |}
           /\ g <= Z.max 0 (Z.min 255 b) <= g + 28.
Proof.
  intros Hw Hne Hrows Hfirst Hlast self.
  destruct (simple_rendered_lines width resized Hw Hne Hrows Hfirst Hlast)
    as (lines & Etext & Hread & Hglyphs).
  assert (Hrows' : Forall (fun row : list Z =>
                             List.length row = Z.to_nat width) resized).
  { eapply Forall_impl; [|exact Hrows]. intros row Hrow. cbv beta in Hrow. lia. }
  destruct (simple_draw_rendered_rows width (Z.to_nat width) resized lines 0
              Hglyphs Hrows') as (rects & Hdraw & Hlen & Hnth).
  exists (TextFrame.unlines lines), rects.
  split; [exact Etext|]. split.
  { unfold SimpleVideoToASCII.draw_text. rewrite Hread. exact Hdraw. }
  split; [rewrite Hlen; lia|].
  intros i k row b Hrow Hb.
  destruct (Hnth i k row b Hrow Hb) as (g & Hr & Hbound).
  exists g. split; [|exact Hbound]. rewrite Hr. do 2 f_equal; lia.
Qed.

Lemma simple_rectangles_of_rendered_frame_witness :
  exists text rects,
    SimpleVideoToASCII.frame_to_ascii (SimpleVideoToASCII.init 2)
      [[0; 255]; [255; 100]] = Ret text
    /\ SimpleVideoToASCII.draw_text (SimpleVideoToASCII.init 2) text = Ret rects
    /\ rects
       = [ {| x1 := 0; y1 := 0; x2 := 7; y2 := 15; fill := (0, 0, 0) |};
           {| x1 := 8; y1 := 0; x2 := 15; y2 := 15;
              fill := (255, 255, 255) |};
           {| x1 := 0; y1 := 16; x2 := 7; y2 := 31;
              fill := (255, 255, 255) |};
           {| x1 := 8; y1 := 16; x2 := 15; y2 := 31; fill := (85, 85, 85) |} ].
Proof.
  destruct (simple_rectangles_of_rendered_frame 2 [[0; 255]; [255; 100]])
    as (text & rects & Htext & Hdraw & _).
  - lia.
  - discriminate.
  - repeat constructor.
  - cbn. lia.
  - cbn. lia.
  - exists text, rects. split; [exact Htext|]. split; [exact Hdraw|].
    vm_compute in Htext. injection Htext as <-.
    vm_compute in Hdraw. injection Hdraw as <-. reflexivity.
Defined.

(** ** ascii_video_with_audio.py: what the compositor draws *)

Lemma reliable_draw_lines_plain (width : Z) (use_color : bool)
  (lines : list str) :
  Forall (fun l => ~ In NL l) lines ->
  forall y,
    ReliableVideoToASCII.draw_lines (ReliableVideoToASCII.init width use_color)
      lines y
    = bind (SimpleVideoToASCII.draw_lines (SimpleVideoToASCII.init width) lines y)
        (fun rects =>
           Ret (List.map
                  (fun r => if use_color
                            then {| x1 := x1 r; y1 := y1 r; x2 := x2 r;
                                    y2 := y2 r; fill := (255, 255, 255) |}
                            else r) rects)).
Proof.
  induction 1 as [|line lines Hline _ IH]; intros y; [reflexivity|].
  cbn [ReliableVideoToASCII.draw_lines SimpleVideoToASCII.draw_lines].
  unfold ReliableVideoToASCII.draw_line.
  change 0 with (0 * 8) at 1.
  rewrite reliable_draw_chars_plain by (assumption || lia).
  rewrite IH.
  destruct (SimpleVideoToASCII.draw_line _ line 0 y) as [rects|e];
    [|reflexivity].
  cbn [bind].
  destruct (SimpleVideoToASCII.draw_lines _ lines (y + 1)) as [more|e];
    [|reflexivity].
  cbn [bind]. now rewrite map_app.
Qed.

(** X12.  The compositor of ascii_video_with_audio.py tests for an escape
    sequence by comparing a four-character slice of the line with a
    two-character string, which never succeeds where an 'm' follows: no
    escape sequence is ever skipped and the drawing colour never changes.
    For every text the rectangles drawn are those the escape-unaware
    compositor of simple_ascii_video.py draws, one text column per
    character of the line, escape characters included; with colour on all
    of them are filled white. *)
Theorem reliable_compositor_ignores_escapes (width : Z) (use_color : bool)
  (ascii_text : str) :
  ReliableVideoToASCII.draw_text (ReliableVideoToASCII.init width use_color)
    ascii_text
  = bind (SimpleVideoToASCII.draw_text (SimpleVideoToASCII.init width) ascii_text)
      (fun rects =>
         Ret (List.map
                (fun r => if use_color
                          then {| x1 := x1 r; y1 := y1 r; x2 := x2 r;
                                  y2 := y2 r; fill := (255, 255, 255) |}
                          else r) rects)).
Proof.
  unfold ReliableVideoToASCII.draw_text, SimpleVideoToASCII.draw_text.
  apply reliable_draw_lines_plain.
  apply split_fields_no_sep.
Qed.

(** ** ascii_video_with_audio.py: colour text frames *)

(** One escape of the sixteen-colour palette in front of a glyph: the
    cleaner removes it, the escape-unaware drawing loop passes five columns
    over it. *)
Lemma reliable_code_step (width : Z) (r g b : Z) (ch : char) (rest : str)
  (x y : Z) :
  ch <> ESC ->
  let code := ReliableVideoToASCII.get_color_code r g b in
  ~ In NL code
  /\ (exists tail, code = ESC :: tail)
  /\ TextFrame.sub_ansi (code ++ ch :: rest) [] = ch :: TextFrame.sub_ansi rest []
  /\ SimpleVideoToASCII.draw_line (SimpleVideoToASCII.init width)
       (code ++ ch :: rest) x y
     = SimpleVideoToASCII.draw_line (SimpleVideoToASCII.init width)
         (ch :: rest) (x + 1 + 1 + 1 + 1 + 1) y.
Proof.
  intros Hch code. subst code. rewrite get_color_code_classify16.
  assert (Hesc : N.eqb ch ESC = false) by now apply N.eqb_neq.
  destruct (Spec.classify16 r g b).
  all: split; [cbn; intros H; repeat (destruct H as [H|H]; [discriminate|]);
               exact H|].
  all: split; [eexists; reflexivity|].
  all: split; [cbn [Spec.escape16 ReliableVideoToASCII.sgr lit app
                    list_ascii_of_string List.map N_of_ascii N_of_digits
                    TextFrame.sub_ansi N.eqb Pos.eqb ESC TextFrame.LBRACKET
                    LOWER_M TextFrame.is_sgr_param N.leb N.compare Pos.compare
                    Pos.compare_cont andb orb N.add N.mul Pos.add Pos.mul
                    Pos.succ];
               rewrite Hesc; reflexivity|].
  all: reflexivity.
Qed.

Lemma index_head {A : Type} (a : A) (l : list A) : index (a :: l) 0 = Ret a.
Proof.
  unfold index. cbn [Z.ltb Z.compare List.length].
  destruct (Z.leb_spec (Z.of_nat (S (List.length l))) 0) as [H|_]; [lia|].
  reflexivity.
Qed.

Lemma in_alphabet_plain (ch : char) :
  contains (lit "@%#*+=-:. ") ch = true -> ch <> ESC /\ ch <> NL.
Proof.
  intros H. split; intros ->; discriminate.
Qed.

(** A row rendered with colour by ascii_video_with_audio.py and handed to
    the escape-unaware drawing loop: six columns per sample. *)
Lemma reliable_colour_line (width y : Z) (grays : list Z) :
  forall (cs : list (Z * Z * Z)) (x : Z),
    List.length cs = List.length grays ->
    exists line rects,
      ReliableVideoToASCII.ascii_line (ReliableVideoToASCII.init width true)
        grays (Some cs) = Ret line
      /\ ~ In NL line
      /\ List.length (TextFrame.sub_ansi line []) = List.length grays
      /\ (grays <> [] -> exists tail, line = ESC :: tail)
      /\ SimpleVideoToASCII.draw_line (SimpleVideoToASCII.init width) line x y
         = Ret rects
      /\ List.length rects = List.length grays
      /\ forall k, (k < List.length grays)%nat ->
           exists g,
             nth_error rects k
             = Some {| x1 := (x + 6 * Z.of_nat k + 5) * 8; y1 := y * 16;
                       x2 := (x + 6 * Z.of_nat k + 5) * 8 + 8 - 1;
                       y2 := y * 16 + 16 - 1;
                       fill := (g, g, g) |}.
Proof.
  induction grays as [|brightness grays IH]; intros cs x Hlen.
  - exists [], []. split; [reflexivity|]. split; [intros []|].
    split; [reflexivity|]. split; [intros H; now destruct H|].
    split; [reflexivity|]. split; [reflexivity|].
    cbn [List.length]. intros k Hk. lia.
  - destruct cs as [|[[b g] r] cs]; [discriminate|].
    cbn [List.length] in Hlen. injection Hlen as Hlen.
    destruct (glyph_grey brightness) as (ch & grey & Hch & Hin & Hnl & Hg & _).
    destruct (in_alphabet_plain ch Hin) as [Hesc _].
    destruct (IH cs (x + 6) Hlen)
      as (line & rects & Hline & Hlnl & Hclean & _ & Hdraw & Hrl & Hnth).
    destruct (reliable_code_step width r g b ch line x y Hesc)
      as (Hcnl & (tail & Hhead) & Hsub & Hstep).
    exists (ReliableVideoToASCII.get_color_code r g b ++ ch :: line).
    exists ({| x1 := (x + 5) * 8; y1 := y * 16; x2 := (x + 5) * 8 + 8 - 1;
               y2 := y * 16 + 16 - 1; fill := (grey, grey, grey) |} :: rects).
    split; [|split; [|split; [|split; [|split; [|split]]]]].
    + cbn [ReliableVideoToASCII.ascii_line ReliableVideoToASCII.init
           ReliableVideoToASCII.ascii_chars].
      rewrite Hch. cbn [bind]. rewrite index_head. cbn [bind List.tl].
      change (ReliableVideoToASCII.ascii_line _ grays (Some cs))
        with (ReliableVideoToASCII.ascii_line
                (ReliableVideoToASCII.init width true) grays (Some cs)).
      rewrite Hline. reflexivity.
    + intros H. apply in_app_or in H. destruct H as [H|[H|H]];
        [now apply Hcnl | now apply Hnl | now apply Hlnl].
    + rewrite Hsub. cbn [List.length]. now rewrite Hclean.
    + intros _. rewrite Hhead. eexists. reflexivity.
    + rewrite Hstep.
      cbn [SimpleVideoToASCII.draw_line SimpleVideoToASCII.init
           SimpleVideoToASCII.ascii_chars SimpleVideoToASCII.char_width
           SimpleVideoToASCII.char_height].
      rewrite Hin, Hg. cbn [bind].
      replace (x + 1 + 1 + 1 + 1 + 1 + 1) with (x + 6) by lia.
      replace (x + 1 + 1 + 1 + 1 + 1) with (x + 5) by lia.
      change (SimpleVideoToASCII.draw_line _ line (x + 6) y)
        with (SimpleVideoToASCII.draw_line (SimpleVideoToASCII.init width)
                line (x + 6) y).
      rewrite Hdraw. reflexivity.
    + cbn [List.length]. now rewrite Hrl.
    + intros [|k] Hk.
      * exists grey. cbn [nth_error Z.of_nat].
        replace (x + 6 * 0 + 5) with (x + 5) by lia. reflexivity.
      * cbn [List.length] in Hk.
        destruct (Hnth k ltac:(lia)) as (g0 & Hr).
        exists g0. cbn [nth_error]. rewrite Hr.
        replace (x + 6 + 6 * Z.of_nat k + 5)
          with (x + 6 * Z.of_nat (S k) + 5) by lia.
        reflexivity.
Qed.

(** X13.  A row rendered with colour by ascii_video_with_audio.py puts a
    five-character escape in front of every glyph.  Its own compositor does
    not skip them: the glyph of sample k is drawn white at text column
    6k + 5, pixel column (6k + 5) * 8, whatever the colour of the sample,
    while the bitmap is laid out for one column per sample. *)
Theorem reliable_colour_row_misplaced (width y : Z) (grays : list Z)
  (colors : list (Z * Z * Z)) :
  List.length colors = List.length grays ->
  let self := ReliableVideoToASCII.init width true in
  exists line rects,
    ReliableVideoToASCII.ascii_line self grays (Some colors) = Ret line
    /\ TextFrame.max_len [TextFrame.clean_line line]
       = Z.of_nat (List.length grays)
    /\ ReliableVideoToASCII.draw_line self line y = Ret rects
    /\ List.length rects = List.length grays
    /\ forall k, (k < List.length grays)%nat ->
         nth_error rects k
         = Some {| x1 := (6 * Z.of_nat k + 5) * 8; y1 := y * 16;
                   x2 := (6 * Z.of_nat k + 5) * 8 + 7; y2 := y * 16 + 15;
                   fill := (255, 255, 255) |}.
Proof.
  intros Hlen self.
  destruct (reliable_colour_line width y grays colors 0 Hlen)
    as (line & rects & Hline & Hnl & Hclean & _ & Hdraw & Hrl & Hnth).
  exists line.
  exists (List.map (fun r => {| x1 := x1 r; y1 := y1 r; x2 := x2 r;
                                y2 := y2 r; fill := (255, 255, 255) |}) rects).
  split; [exact Hline|]. split; [|split; [|split]].
  - unfold TextFrame.max_len, TextFrame.clean_line. cbn [fold_right].
    unfold len. rewrite Hclean. lia.
  - unfold ReliableVideoToASCII.draw_line. change 0 with (0 * 8) at 1.
    subst self. rewrite reliable_draw_chars_plain by (assumption || lia).
    rewrite Hdraw. reflexivity.
  - now rewrite length_map.
  - intros k Hk. destruct (Hnth k Hk) as (g & Hr).
    rewrite nth_error_map, Hr. cbn [option_map x1 y1 x2 y2].
    do 2 f_equal; lia.
Qed.

Lemma reliable_colour_row_misplaced_witness :
  let self := ReliableVideoToASCII.init 2 true in
  exists line rects,
    ReliableVideoToASCII.ascii_line self [0; 200] (Some [(0, 0, 200); (9, 9, 9)])
    = Ret line
    /\ TextFrame.max_len [TextFrame.clean_line line] = 2
    /\ ReliableVideoToASCII.draw_line self line 0 = Ret rects
    /\ List.length rects = 2%nat
    /\ forall k, (k < 2)%nat ->
         nth_error rects k
         = Some {| x1 := (6 * Z.of_nat k + 5) * 8; y1 := 0 * 16;
                   x2 := (6 * Z.of_nat k + 5) * 8 + 7; y2 := 0 * 16 + 15;
                   fill := (255, 255, 255) |}.
Proof.
  exact (reliable_colour_row_misplaced 2 0 [0; 200] [(0, 0, 200); (9, 9, 9)]
           eq_refl).
Defined.

Lemma max_len_uniform (w : Z) (lines : list str) (tail : list str) :
  0 <= w ->
  lines <> [] ->
  Forall (fun l => len l = w) lines ->
  Forall (fun l => len l <= w) tail ->
  TextFrame.max_len (lines ++ tail) = w.
Proof.
  intros Hw Hne Hall Htail.
  assert (Ht : 0 <= TextFrame.max_len tail <= w).
  { clear - Hw Htail. induction Htail as [|l tail Hl _ IH]; cbn; [lia|].
    unfold TextFrame.max_len in IH. lia. }
  destruct lines as [|l lines]; [contradiction|]. clear Hne.
  revert l Hall. induction lines as [|l' lines IH]; intros l Hall.
  - inversion Hall; subst. cbn [app TextFrame.max_len fold_right].
    unfold TextFrame.max_len in Ht. lia.
  - inversion Hall as [|? ? Hl Hrest]; subst.
    specialize (IH l' Hrest).
    cbn [app TextFrame.max_len fold_right] in IH |- *.
    unfold TextFrame.max_len in IH. lia.
Qed.

(** A text frame that begins with a character that is not white space, whose
    lines hold no newline, and that ends in a last line closed by a
    character that is not white space, is read back as its lines. *)
Lemma lines_of_closed_text (lines : list str) (c : char) (rest : str)
  (closing : str) (z : char) :
  Forall (fun l => ~ In NL l) lines ->
  ~ In NL (closing ++ [z]) ->
  TextFrame.unlines lines ++ closing ++ [z] = c :: rest ->
  isspace c = false -> isspace z = false ->
  TextFrame.lines_of (TextFrame.unlines lines ++ closing ++ [z])
  = lines ++ [closing ++ [z]].
Proof.
  intros Hnl Hcl Hhead Hc Hz. unfold TextFrame.lines_of, strip, lstrip_by.
  rewrite Hhead. cbn [dropwhile]. rewrite Hc. rewrite <- Hhead.
  rewrite app_assoc, rstrip_by_kept by assumption.
  rewrite <- app_assoc, split_unlines by assumption.
  now rewrite split_no_sep.
Qed.

Lemma image_of_text_lines (char_width char_height default_width : Z)
  (ascii_text : str) (lines : list str) :
  TextFrame.lines_of ascii_text = lines ->
  lines <> [] ->
  TextFrame.image_of_text char_width char_height default_width ascii_text
  = Some {| img_width :=
              TextFrame.max_len (List.map TextFrame.clean_line lines) * char_width;
            img_height := Z.of_nat (List.length lines) * char_height |}.
Proof.
  intros E Hne. unfold TextFrame.image_of_text. rewrite E.
  destruct lines as [|l ls]; [contradiction|].
  cbn [List.map List.length]. now rewrite length_map.
Qed.

Lemma reliable_colour_lines (width : Z) (gray_resized : gray_image) :
  forall resized : color_image,
    Forall2 (fun (grow : list Z) (crow : list (Z * Z * Z)) =>
               Z.of_nat (List.length grow) = width
               /\ List.length crow = List.length grow)
      gray_resized resized ->
    1 <= width ->
    exists lines,
      ReliableVideoToASCII.ascii_lines (ReliableVideoToASCII.init width true)
        gray_resized (Some resized)
      = Ret (TextFrame.unlines lines)
      /\ List.length lines = List.length gray_resized
      /\ Forall (fun line =>
                   ~ In NL line
                   /\ len (TextFrame.clean_line line) = width
                   /\ exists tail, line = ESC :: tail) lines.
Proof.
  induction gray_resized as [|grow rows IH]; intros resized Hshape Hw.
  - exists []. repeat split. constructor.
  - destruct resized as [|crow crows]; [inversion Hshape|].
    apply Forall2_cons_iff in Hshape. destruct Hshape as [[Hgw Hcl] Hrest].
    destruct (reliable_colour_line width 0 grow crow 0 Hcl)
      as (line & _ & Hline & Hnl & Hclean & Hhead & _).
    destruct (IH crows Hrest Hw) as (lines & Hlines & Hlen & Hall).
    exists (line :: lines).
    split; [|split].
    + cbn [ReliableVideoToASCII.ascii_lines option_map List.tl].
      rewrite Hline. cbn [bind].
      refine (eq_trans
                (f_equal (fun t => bind t (fun rest => Ret (line ++ NL :: rest)))
                   Hlines) _).
      cbn [bind]. unfold TextFrame.unlines. cbn [List.map List.concat].
      now rewrite <- app_assoc.
    + cbn [List.length]. now rewrite Hlen.
    + constructor; [|exact Hall].
      split; [exact Hnl|]. split.
      * unfold len, TextFrame.clean_line. now rewrite Hclean.
      * apply Hhead. intros ->. cbn in Hgw. lia.
Qed.

(** X14.  With colour on, [frame_to_ascii] of ascii_video_with_audio.py
    closes the text with the reset escape after the last newline.  The
    compositor reads that escape as a line of its own: a frame resized to
    [width] columns and R rows becomes a bitmap of [width] * 8 by
    (R + 1) * 16 pixels, one text row taller than the frame. *)
Theorem reliable_colour_frame_size (width : Z) (gray_resized : gray_image)
  (resized : color_image) :
  1 <= width ->
  gray_resized <> [] ->
  Forall2 (fun (grow : list Z) (crow : list (Z * Z * Z)) =>
             Z.of_nat (List.length grow) = width
             /\ List.length crow = List.length grow)
    gray_resized resized ->
  let self := ReliableVideoToASCII.init width true in
  exists text lines,
    ReliableVideoToASCII.frame_to_ascii self gray_resized resized = Ret text
    /\ List.length lines = List.length gray_resized
    /\ TextFrame.lines_of text = lines ++ [ReliableVideoToASCII.sgr "0"]
    /\ ReliableVideoToASCII.ascii_to_image true self text
       = Some {| img_width := width * 8;
                 img_height := (Z.of_nat (List.length gray_resized) + 1) * 16 |}.
Proof.
  intros Hw Hne Hshape self.
  destruct (reliable_colour_lines width gray_resized resized Hshape Hw)
    as (lines & Hlines & Hlen & Hall).
  exists (TextFrame.unlines lines ++ ReliableVideoToASCII.sgr "0"), lines.
  assert (Hread :
    TextFrame.lines_of (TextFrame.unlines lines ++ ReliableVideoToASCII.sgr "0")
    = lines ++ [ReliableVideoToASCII.sgr "0"]).
  { destruct lines as [|l1 lines'];
      [destruct gray_resized; [contradiction | discriminate]|].
    assert (Hl1 : exists tail, l1 = ESC :: tail)
      by (inversion Hall as [|? ? (_ & _ & H) _]; exact H).
    destruct Hl1 as (tail & ->).
    change (ReliableVideoToASCII.sgr "0")
      with ((ESC :: lit "[0") ++ [LOWER_M]).
    eapply lines_of_closed_text.
    - eapply Forall_impl; [|exact Hall]. now intros ? (? & _).
    - cbn. intros H. repeat (destruct H as [H|H]; [discriminate|]). exact H.
    - unfold TextFrame.unlines. cbn [List.map List.concat app]. reflexivity.
    - reflexivity.
    - reflexivity. }
  split; [|split; [exact Hlen | split; [exact Hread|]]].
  - unfold ReliableVideoToASCII.frame_to_ascii.
    cbn [self ReliableVideoToASCII.init ReliableVideoToASCII.use_color].
    change (ReliableVideoToASCII.ascii_lines _ gray_resized (Some resized))
      with (ReliableVideoToASCII.ascii_lines
              (ReliableVideoToASCII.init width true) gray_resized (Some resized)).
    rewrite Hlines. reflexivity.
  - unfold ReliableVideoToASCII.ascii_to_image. cbn [negb].
    rewrite (image_of_text_lines _ _ _ _ _ Hread) by now destruct lines.
    rewrite map_app. cbn [List.map].
    rewrite (max_len_uniform width).
    + rewrite length_app, Hlen. cbn [List.length].
      cbn [self ReliableVideoToASCII.init ReliableVideoToASCII.char_width
           ReliableVideoToASCII.char_height].
      do 2 f_equal. lia.
    + lia.
    + destruct lines; [|discriminate].
      destruct gray_resized; [contradiction | discriminate].
    + rewrite Forall_map. eapply Forall_impl; [|exact Hall].
      now intros ? (_ & ? & _).
    + repeat constructor. cbn. lia.
Qed.

Lemma reliable_colour_frame_size_witness :
  let self := ReliableVideoToASCII.init 2 true in
  exists text lines,
    ReliableVideoToASCII.frame_to_ascii self [[0; 200]; [90; 255]]
      [[(0, 0, 200); (9, 9, 9)]; [(1, 2, 3); (255, 255, 255)]] = Ret text
    /\ List.length lines = 2%nat
    /\ TextFrame.lines_of text = lines ++ [ReliableVideoToASCII.sgr "0"]
    /\ ReliableVideoToASCII.ascii_to_image true self text
       = Some {| img_width := 16; img_height := 48 |}.
Proof.
  apply (reliable_colour_frame_size 2 [[0; 200]; [90; 255]]
           [[(0, 0, 200); (9, 9, 9)]; [(1, 2, 3); (255, 255, 255)]]).
  - lia.
  - discriminate.
  - repeat constructor.
Defined.

(** ** video_to_ascii.py: colour text frames *)

Lemma sgr256_parts (n : Z) :
  VideoToASCII.sgr256 n
  = VideoToASCII.sgr256_prefix ++ str_of_int n ++ [LOWER_M].
Proof. reflexivity. Qed.

Lemma palette_code_digits (n : Z) :
  0 <= n <= 255 -> Forall (fun c => Checks.is_digit c = true) (str_of_int n).
Proof.
  intros Hn.
  assert (H : Checks.digits_only n = true).
  { apply (all_between_spec Checks.digits_only 0 255); [|exact Hn].
    vm_compute. reflexivity. }
  unfold Checks.digits_only in H. rewrite forallb_forall in H.
  now apply Forall_forall.
Qed.

(** In colour mode every colour of 0..255 per channel gets the escape of a
    palette number in 16..254, which reads back as a colour. *)
Lemma forward_code_reads_back (self : VideoToASCII.t) (r g b : Z) :
  VideoToASCII.use_color self = true ->
  0 <= r <= 255 -> 0 <= g <= 255 -> 0 <= b <= 255 ->
  exists n color,
    VideoToASCII.get_color_code self r g b = Ret (VideoToASCII.sgr256 n)
    /\ 16 <= n <= 254
    /\ VideoToASCII.get_rgb_from_ansi (VideoToASCII.sgr256 n) = Ret color.
Proof.
  intros Hcol Hr Hg Hb.
  destruct (Z.eq_dec r g) as [Erg|Nrg]; [destruct (Z.eq_dec g b) as [Egb|Ngb]|].
  - subst g b. exists (Spec.gray_code r).
    rewrite get_color_code_gray by assumption.
    destruct (gray_code_cases r Hr) as [[_ E] | [[_ E] | (_ & E & Hband)]].
    + rewrite E. eexists. split; [reflexivity|]. split; [lia|].
      now apply cube_code_reads_back.
    + rewrite E. eexists. split; [reflexivity|]. split; [lia|].
      now apply cube_code_reads_back.
    + eexists. split; [reflexivity|]. split; [lia|].
      apply gray_code_reads_back. lia.
  - assert (Hc : 16 <= Spec.cube_code r g b <= 231).
    { pose proof (cube_level_range r Hr). pose proof (cube_level_range g Hg).
      pose proof (cube_level_range b Hb). unfold Spec.cube_code. lia. }
    exists (Spec.cube_code r g b). eexists.
    rewrite get_color_code_cube by (assumption || tauto).
    split; [reflexivity|]. split; [lia|]. now apply cube_code_reads_back.
  - assert (Hc : 16 <= Spec.cube_code r g b <= 231).
    { pose proof (cube_level_range r Hr). pose proof (cube_level_range g Hg).
      pose proof (cube_level_range b Hb). unfold Spec.cube_code. lia. }
    exists (Spec.cube_code r g b). eexists.
    rewrite get_color_code_cube by (assumption || tauto).
    split; [reflexivity|]. split; [lia|]. now apply cube_code_reads_back.
Qed.

Lemma sub_ansi_params (ds : str) :
  Forall (fun c => Checks.is_digit c = true) ds ->
  forall (p1 p2 : char) (ps rest : str),
    TextFrame.sub_ansi (ds ++ LOWER_M :: rest) (p1 :: p2 :: ps)
    = TextFrame.sub_ansi rest [].
Proof.
  induction 1 as [|d ds Hd _ IH]; intros p1 p2 ps rest.
  - reflexivity.
  - cbn [app TextFrame.sub_ansi].
    assert (Hp : TextFrame.is_sgr_param d = true).
    { unfold TextFrame.is_sgr_param. unfold Checks.is_digit in Hd.
      now rewrite Hd. }
    rewrite Hp. apply IH.
Qed.

Lemma find_first (c : char) (l r : str) :
  ~ In c l -> find c (l ++ c :: r) = Some (List.length l).
Proof.
  induction l as [|x l IH]; intros Hl; cbn [app find List.length].
  - now rewrite N.eqb_refl.
  - destruct (N.eqb_spec x c) as [->|_]; [exfalso; apply Hl; now left|].
    rewrite IH; [reflexivity|]. intros Hin. apply Hl. now right.
Qed.

Lemma digit_plain (ds : str) (c : char) :
  Forall (fun c => Checks.is_digit c = true) ds ->
  (57 < c)%N \/ (c < 48)%N -> ~ In c ds.
Proof.
  intros Hds Hc Hin. rewrite Forall_forall in Hds. apply Hds in Hin.
  unfold Checks.is_digit in Hin. apply andb_prop in Hin.
  destruct Hin as [H1 H2]. apply N.leb_le in H1, H2. lia.
Qed.

(** One escape of the 256-colour palette in front of what follows: the
    cleaner removes it; the drawing loop finds its end at the closing 'm'. *)
Lemma sgr256_step (n : Z) (rest : str) :
  16 <= n <= 254 ->
  let code := VideoToASCII.sgr256 n in
  ~ In NL code
  /\ (exists tail, code = ESC :: tail)
  /\ TextFrame.sub_ansi (code ++ rest) [] = TextFrame.sub_ansi rest []
  /\ str_eqb (List.firstn 7 (code ++ rest)) VideoToASCII.sgr256_prefix = true
  /\ exists end_pos,
       find LOWER_M (code ++ rest) = Some end_pos
       /\ List.firstn (S end_pos) (code ++ rest) = code
       /\ List.skipn (S end_pos) (code ++ rest) = rest
       /\ (S end_pos <= List.length (code ++ rest))%nat.
Proof.
  intros Hn code. subst code. rewrite sgr256_parts.
  pose proof (palette_code_digits n ltac:(lia)) as Hds.
  set (ds := str_of_int n) in *. clearbody ds.
  split; [|split; [|split; [|split]]].
  - intros Hin. apply in_app_or in Hin. destruct Hin as [Hin|Hin].
    + cbn in Hin. repeat (destruct Hin as [Hin|Hin]; [discriminate|]).
      exact Hin.
    + apply in_app_or in Hin. destruct Hin as [Hin|[Hin|[]]]; [|discriminate].
      revert Hin. apply digit_plain; [exact Hds|]. right. reflexivity.
  - eexists. reflexivity.
  - rewrite <- !app_assoc. cbn [app].
    unfold VideoToASCII.sgr256_prefix.
    cbn [lit app list_ascii_of_string List.map N_of_ascii N_of_digits
         TextFrame.sub_ansi N.eqb Pos.eqb ESC TextFrame.LBRACKET
         LOWER_M TextFrame.is_sgr_param N.leb N.compare Pos.compare
         Pos.compare_cont andb orb N.add N.mul Pos.add Pos.mul Pos.succ].
    apply sub_ansi_params. exact Hds.
  - reflexivity.
  - exists (List.length (VideoToASCII.sgr256_prefix ++ ds)).
    assert (E : (VideoToASCII.sgr256_prefix ++ ds ++ [LOWER_M]) ++ rest
                = (VideoToASCII.sgr256_prefix ++ ds) ++ LOWER_M :: rest).
    { rewrite <- !app_assoc. reflexivity. }
    rewrite E.
    split; [|split; [|split]].
    + apply find_first. intros Hin. apply in_app_or in Hin.
      destruct Hin as [Hin|Hin].
      * cbn in Hin. repeat (destruct Hin as [Hin|Hin]; [discriminate|]).
        exact Hin.
      * revert Hin. apply digit_plain; [exact Hds|]. left. reflexivity.
    + replace ((VideoToASCII.sgr256_prefix ++ ds) ++ LOWER_M :: rest)
        with (((VideoToASCII.sgr256_prefix ++ ds) ++ [LOWER_M]) ++ rest)
        by (rewrite <- !app_assoc; reflexivity).
      replace (S (List.length (VideoToASCII.sgr256_prefix ++ ds)))
        with (List.length ((VideoToASCII.sgr256_prefix ++ ds) ++ [LOWER_M]))
        by (rewrite (length_app _ [LOWER_M]); cbn [List.length]; lia).
      rewrite firstn_app, Nat.sub_diag, firstn_all. cbn [List.firstn].
      rewrite app_nil_r, <- app_assoc. reflexivity.
    + replace ((VideoToASCII.sgr256_prefix ++ ds) ++ LOWER_M :: rest)
        with (((VideoToASCII.sgr256_prefix ++ ds) ++ [LOWER_M]) ++ rest)
        by (rewrite <- !app_assoc; reflexivity).
      replace (S (List.length (VideoToASCII.sgr256_prefix ++ ds)))
        with (List.length ((VideoToASCII.sgr256_prefix ++ ds) ++ [LOWER_M]))
        by (rewrite (length_app _ [LOWER_M]); cbn [List.length]; lia).
      rewrite skipn_app, Nat.sub_diag, skipn_all. reflexivity.
    + rewrite (length_app _ (LOWER_M :: rest)). cbn [List.length]. lia.
Qed.

Lemma draw_chars_escape (isprintable : char -> bool) (self : VideoToASCII.t)
  (fuel : nat) (s : str) (end_pos : nat) (x y : Z) (color : rgb) :
  s <> [] ->
  str_eqb (List.firstn 7 s) VideoToASCII.sgr256_prefix = true ->
  find LOWER_M s = Some end_pos ->
  VideoToASCII.draw_chars isprintable self (S fuel) s x y color
  = bind (VideoToASCII.get_rgb_from_ansi (List.firstn (S end_pos) s))
      (fun color' =>
         VideoToASCII.draw_chars isprintable self fuel
           (List.skipn (S end_pos) s) x y color').
Proof.
  intros Hs Hpre Hfind. destruct s as [|c s]; [contradiction|].
  cbn [VideoToASCII.draw_chars]. now rewrite Hpre, Hfind.
Qed.

Lemma draw_chars_glyph (isprintable : char -> bool) (self : VideoToASCII.t)
  (fuel : nat) (ch : char) (rest : str) (x y : Z) (color : rgb) :
  ch <> ESC -> ch <> NL -> isprintable ch = true ->
  VideoToASCII.draw_chars isprintable self (S fuel) (ch :: rest) x y color
  = bind (VideoToASCII.draw_chars isprintable self fuel rest
            (x + VideoToASCII.char_width self) y color)
      (fun cells =>
         Ret ({| cell_x := x; cell_y := y; cell_char := ch;
                 cell_fill := color |} :: cells)).
Proof.
  intros Hesc Hnl Hpr.
  apply N.eqb_neq in Hesc, Hnl.
  cbn [VideoToASCII.draw_chars List.firstn VideoToASCII.sgr256_prefix
       VideoToASCII.sgr_reset str_eqb].
  rewrite Hesc, Hnl, Hpr. reflexivity.
Qed.

Lemma configured_alphabet_nonempty (colorama_available : bool) (width : Z)
  (use_color : bool) (quality : str) :
  VideoToASCII.ascii_chars
    (VideoToASCII.init colorama_available width use_color quality) <> [].
Proof.
  destruct (configured_alphabet_sizes quality) as [E|E].
  all: cbn [VideoToASCII.init VideoToASCII.ascii_chars];
    intros H; rewrite H in E; discriminate.
Qed.

(** A row rendered with colour by video_to_ascii.py and drawn again. *)
Lemma video_colour_line (isprintable : char -> bool) (width : Z)
  (quality : str) (y : Z) :
  let self := VideoToASCII.init true width true quality in
  (forall ch, In ch (VideoToASCII.ascii_chars self) -> isprintable ch = true) ->
  forall (grays : list Z) (cs : list (Z * Z * Z)),
    List.length cs = List.length grays ->
    Forall (fun bgr : Z * Z * Z =>
              let '(b, g, r) := bgr in
              0 <= b <= 255 /\ 0 <= g <= 255 /\ 0 <= r <= 255) cs ->
    exists line,
      VideoToASCII.ascii_line self grays (Some cs) = Ret line
      /\ ~ In NL line
      /\ List.length (TextFrame.sub_ansi line []) = List.length grays
      /\ (grays <> [] -> exists tail, line = ESC :: tail)
      /\ forall (fuel : nat) (x : Z) (color0 : rgb),
           (List.length line <= fuel)%nat ->
           exists cells,
             VideoToASCII.draw_chars isprintable self fuel line x y color0
             = Ret cells
             /\ List.length cells = List.length grays
             /\ forall k gray b g r,
                  nth_error grays k = Some gray ->
                  nth_error cs k = Some (b, g, r) ->
                  exists ch code color,
                    Glyph.glyph (VideoToASCII.ascii_chars self) gray = Ret ch
                    /\ VideoToASCII.get_color_code self r g b = Ret code
                    /\ VideoToASCII.get_rgb_from_ansi code = Ret color
                    /\ nth_error cells k
                       = Some {| cell_x := x + Z.of_nat k
                                               * VideoToASCII.char_width self;
                                 cell_y := y; cell_char := ch;
                                 cell_fill := color |}.
Proof.
  intros self Hpr. subst self.
  set (self := VideoToASCII.init true width true quality) in *.
  pose proof (configured_alphabet_nonempty true width true quality) as Hne.
  fold self in Hne.
  pose proof (configured_alphabet_plain quality) as Hplain.
  rewrite Forall_forall in Hplain.
  induction grays as [|gray grays IH]; intros cs Hlen Hrange.
  - exists []. split; [reflexivity|]. split; [intros []|].
    split; [reflexivity|]. split; [intros H; now destruct H|].
    intros fuel x color0 _. exists [].
    split; [now destruct fuel|]. split; [reflexivity|].
    intros [|k] ? ? ? ? H; discriminate.
  - destruct cs as [|[[b g] r] cs]; [discriminate|].
    cbn [List.length] in Hlen. injection Hlen as Hlen.
    apply Forall_cons_iff in Hrange. destruct Hrange as [Hbgr Hrange'].
    cbv beta iota in Hbgr. destruct Hbgr as (Hb & Hg & Hr).
    destruct (glyph_returns _ gray Hne) as (ch & Hch & Hin).
    destruct (Hplain ch Hin) as [Hesc Hnl].
    destruct (forward_code_reads_back self r g b eq_refl Hr Hg Hb)
      as (n & color & Hcode & Hn & Hback).
    destruct (IH cs Hlen Hrange')
      as (line & Hline & Hlnl & Hclean & _ & Hdraw).
    destruct (sgr256_step n (ch :: line) Hn)
      as (Hcnl & (tail & Hhead) & Hsub & Hpre
          & end_pos & Hfind & Hfirst & Hskip & Hend).
    exists (VideoToASCII.sgr256 n ++ ch :: line).
    split; [|split; [|split; [|split]]].
    + cbn [VideoToASCII.ascii_line]. rewrite Hch. cbn [bind].
      rewrite index_head. cbn [bind List.tl]. rewrite Hcode. cbn [bind].
      rewrite Hline. reflexivity.
    + intros H. apply in_app_or in H. destruct H as [H|[H|H]];
        [now apply Hcnl | now apply Hnl | now apply Hlnl].
    + rewrite Hsub. cbn [TextFrame.sub_ansi].
      apply N.eqb_neq in Hesc. rewrite Hesc. cbn [app List.length].
      now rewrite Hclean.
    + intros _. rewrite Hhead. eexists. reflexivity.
    + intros fuel x color0 Hfuel.
      rewrite length_app in Hfuel. cbn [List.length] in Hfuel.
      assert (Hcl : (1 <= List.length (VideoToASCII.sgr256 n))%nat)
        by (rewrite Hhead; cbn [List.length]; lia).
      destruct fuel as [|fuel]; [lia|].
      destruct fuel as [|fuel]; [lia|].
      destruct (Hdraw fuel (x + VideoToASCII.char_width self) color
                  ltac:(lia)) as (cells & Hcells & Hclen & Hnth).
      exists ({| cell_x := x; cell_y := y; cell_char := ch;
                 cell_fill := color |} :: cells).
      split; [|split].
      * rewrite (draw_chars_escape isprintable self (S fuel) _ end_pos)
          by (try assumption; rewrite Hhead; discriminate).
        rewrite Hfirst, Hskip, Hback. cbn [bind].
        rewrite draw_chars_glyph by (try assumption; now apply Hpr).
        rewrite Hcells. reflexivity.
      * cbn [List.length]. now rewrite Hclen.
      * intros [|k] gray0 b0 g0 r0 Hk Hc.
        -- cbn [nth_error] in Hk, Hc. injection Hk as <-.
           injection Hc as <- <- <-.
           exists ch, (VideoToASCII.sgr256 n), color.
           split; [exact Hch|]. split; [exact Hcode|]. split; [exact Hback|].
           cbn [nth_error Z.of_nat]. do 2 f_equal. lia.
        -- cbn [nth_error] in Hk, Hc.
           destruct (Hnth k gray0 b0 g0 r0 Hk Hc)
             as (ch0 & code0 & color1 & H1 & H2 & H3 & H4).
           exists ch0, code0, color1.
           split; [exact H1|]. split; [exact H2|]. split; [exact H3|].
           cbn [nth_error]. rewrite H4. do 2 f_equal. lia.
Qed.

(** X15.  With colour on, a row rendered by video_to_ascii.py and handed to
    its compositor is drawn glyph by glyph: the glyph of sample k at pixel
    column k * char_width of the text row, in the palette colour that
    [get_rgb_from_ansi] reads back from the escape [get_color_code] wrote
    for the pixel.  The escapes themselves take no room. *)
Theorem video_colour_row_round_trip (isprintable : char -> bool) (width : Z)
  (quality : str) (y : Z) (grays : list Z) (colors : list (Z * Z * Z)) :
  let self := VideoToASCII.init true width true quality in
  (forall ch, In ch (VideoToASCII.ascii_chars self) -> isprintable ch = true) ->
  List.length colors = List.length grays ->
  Forall (fun bgr : Z * Z * Z =>
            let '(b, g, r) := bgr in
            0 <= b <= 255 /\ 0 <= g <= 255 /\ 0 <= r <= 255) colors ->
  exists line cells,
    VideoToASCII.ascii_line self grays (Some colors) = Ret line
    /\ VideoToASCII.draw_line isprintable self line y = Ret cells
    /\ List.length cells = List.length grays
    /\ forall k gray b g r,
         nth_error grays k = Some gray ->
         nth_error colors k = Some (b, g, r) ->
         exists ch code color,
           Glyph.glyph (VideoToASCII.ascii_chars self) gray = Ret ch
           /\ VideoToASCII.get_color_code self r g b = Ret code
           /\ VideoToASCII.get_rgb_from_ansi code = Ret color
           /\ nth_error cells k
              = Some {| cell_x := Z.of_nat k * VideoToASCII.char_width self;
                        cell_y := y; cell_char := ch; cell_fill := color |}.
Proof.
  intros self Hpr Hlen Hrange.
  destruct (video_colour_line isprintable width quality y Hpr grays colors
              Hlen Hrange) as (line & Hline & _ & _ & _ & Hdraw).
  destruct (Hdraw (List.length line) 0 white (Nat.le_refl _))
    as (cells & Hcells & Hclen & Hnth).
  exists line, cells. split; [exact Hline|]. split; [exact Hcells|].
  split; [exact Hclen|]. exact Hnth.
Qed.

Lemma video_colour_row_round_trip_witness :
  let self := VideoToASCII.init true 2 true (lit "medium") in
  exists line cells,
    VideoToASCII.ascii_line self [60; 200] (Some [(50, 50, 200); (9, 9, 9)])
    = Ret line
    /\ VideoToASCII.draw_line (fun c => (32 <=? c)%N) self line 14 = Ret cells
    /\ cells = [ {| cell_x := 0; cell_y := 14; cell_char := 35%N;
                    cell_fill := (153, 0, 0) |};
                 {| cell_x := 8; cell_y := 14; cell_char := 58%N;
                    cell_fill := (0, 0, 0) |} ].
Proof.
  intros self.
  destruct (video_colour_row_round_trip (fun c => (32 <=? c)%N) 2 (lit "medium")
              14 [60; 200] [(50, 50, 200); (9, 9, 9)])
    as (line & cells & Hline & Hcells & _).
  - intros ch Hin. cbn in Hin.
    repeat (destruct Hin as [<-|Hin]; [reflexivity|]). contradiction.
  - reflexivity.
  - repeat constructor; lia.
  - exists line, cells. split; [exact Hline|]. split; [exact Hcells|].
    vm_compute in Hline. injection Hline as <-.
    vm_compute in Hcells. injection Hcells as <-. reflexivity.
Defined.

Lemma video_colour_lines (width : Z) (quality : str)
  (gray_resized : gray_image) :
  let self := VideoToASCII.init true width true quality in
  forall resized : color_image,
    Forall2 (fun (grow : list Z) (crow : list (Z * Z * Z)) =>
               Z.of_nat (List.length grow) = width
               /\ List.length crow = List.length grow
               /\ Forall (fun bgr : Z * Z * Z =>
                            let '(b, g, r) := bgr in
                            0 <= b <= 255 /\ 0 <= g <= 255 /\ 0 <= r <= 255)
                    crow)
      gray_resized resized ->
    1 <= width ->
    exists lines,
      VideoToASCII.ascii_lines self gray_resized (Some resized)
      = Ret (TextFrame.unlines lines)
      /\ List.length lines = List.length gray_resized
      /\ Forall (fun line =>
                   ~ In NL line
                   /\ len (TextFrame.clean_line line) = width
                   /\ exists tail, line = ESC :: tail) lines.
Proof.
  intros self.
  induction gray_resized as [|grow rows IH]; intros resized Hshape Hw.
  - exists []. repeat split. constructor.
  - destruct resized as [|crow crows]; [inversion Hshape|].
    apply Forall2_cons_iff in Hshape.
    destruct Hshape as [(Hgw & Hcl & Hrange) Hrest].
    destruct (video_colour_line (fun _ => true) width quality 0
                (fun _ _ => eq_refl) grow crow Hcl Hrange)
      as (line & Hline & Hnl & Hclean & Hhead & _).
    destruct (IH crows Hrest Hw) as (lines & Hlines & Hlen & Hall).
    exists (line :: lines).
    split; [|split].
    + cbn [VideoToASCII.ascii_lines option_map List.tl].
      fold self in Hline. rewrite Hline. cbn [bind].
      refine (eq_trans
                (f_equal (fun t => bind t (fun rest => Ret (line ++ NL :: rest)))
                   Hlines) _).
      cbn [bind]. unfold TextFrame.unlines. cbn [List.map List.concat].
      now rewrite <- app_assoc.
    + cbn [List.length]. now rewrite Hlen.
    + constructor; [|exact Hall].
      split; [exact Hnl|]. split.
      * unfold len, TextFrame.clean_line. now rewrite Hclean.
      * apply Hhead. intros ->. cbn in Hgw. lia.
Qed.

(** X16.  With colour on, [frame_to_ascii] of video_to_ascii.py closes the
    text with the reset escape after the last newline, and the compositor
    reads that escape as one more line: a frame resized to [width] columns
    and R rows becomes a bitmap of [width] * char_width by
    (R + 1) * char_height pixels, one text row taller than the frame (and
    than the bitmap of the same frame without colour). *)
Theorem video_colour_frame_size (width : Z) (quality : str)
  (gray_resized : gray_image) (resized : color_image) :
  1 <= width ->
  gray_resized <> [] ->
  Forall2 (fun (grow : list Z) (crow : list (Z * Z * Z)) =>
             Z.of_nat (List.length grow) = width
             /\ List.length crow = List.length grow
             /\ Forall (fun bgr : Z * Z * Z =>
                          let '(b, g, r) := bgr in
                          0 <= b <= 255 /\ 0 <= g <= 255 /\ 0 <= r <= 255)
                  crow)
    gray_resized resized ->
  let self := VideoToASCII.init true width true quality in
  exists text lines,
    VideoToASCII.frame_to_ascii self gray_resized resized = Ret text
    /\ List.length lines = List.length gray_resized
    /\ TextFrame.lines_of text = lines ++ [VideoToASCII.sgr_reset]
    /\ VideoToASCII.ascii_to_image true self text
       = Some {| img_width := width * VideoToASCII.char_width self;
                 img_height := (Z.of_nat (List.length gray_resized) + 1)
                               * VideoToASCII.char_height self |}.
Proof.
  intros Hw Hne Hshape self.
  destruct (video_colour_lines width quality gray_resized resized Hshape Hw)
    as (lines & Hlines & Hlen & Hall).
  fold self in Hlines.
  exists (TextFrame.unlines lines ++ VideoToASCII.sgr_reset), lines.
  assert (Hread :
    TextFrame.lines_of (TextFrame.unlines lines ++ VideoToASCII.sgr_reset)
    = lines ++ [VideoToASCII.sgr_reset]).
  { destruct lines as [|l1 lines'];
      [destruct gray_resized; [contradiction | discriminate]|].
    assert (Hl1 : exists tail, l1 = ESC :: tail)
      by (inversion Hall as [|? ? (_ & _ & H) _]; exact H).
    destruct Hl1 as (tail & ->).
    change VideoToASCII.sgr_reset with ((ESC :: lit "[0") ++ [LOWER_M]).
    eapply lines_of_closed_text.
    - eapply Forall_impl; [|exact Hall]. now intros ? (? & _).
    - cbn. intros H. repeat (destruct H as [H|H]; [discriminate|]). exact H.
    - unfold TextFrame.unlines. cbn [List.map List.concat app]. reflexivity.
    - reflexivity.
    - reflexivity. }
  split; [|split; [exact Hlen | split; [exact Hread|]]].
  - unfold VideoToASCII.frame_to_ascii.
    change (VideoToASCII.use_color self) with true. cbv iota.
    refine (eq_trans
              (f_equal (fun t => bind t _) Hlines) _).
    reflexivity.
  - unfold VideoToASCII.ascii_to_image. cbn [negb].
    rewrite (image_of_text_lines _ _ _ _ _ Hread) by now destruct lines.
    rewrite map_app. cbn [List.map].
    rewrite (max_len_uniform width).
    + rewrite length_app, Hlen. cbn [List.length].
      do 2 f_equal. lia.
    + lia.
    + destruct lines; [|discriminate].
      destruct gray_resized; [contradiction | discriminate].
    + rewrite Forall_map. eapply Forall_impl; [|exact Hall].
      now intros ? (_ & ? & _).
    + repeat constructor. cbn. lia.
Qed.

Lemma video_colour_frame_size_witness :
  let self := VideoToASCII.init true 2 true (lit "medium") in
  exists text lines,
    VideoToASCII.frame_to_ascii self [[0; 200]; [90; 255]]
      [[(0, 0, 200); (9, 9, 9)]; [(1, 2, 3); (255, 255, 255)]] = Ret text
    /\ List.length lines = 2%nat
    /\ TextFrame.lines_of text = lines ++ [VideoToASCII.sgr_reset]
    /\ VideoToASCII.ascii_to_image true self text
       = Some {| img_width := 16; img_height := 42 |}.
Proof.
  apply (video_colour_frame_size 2 (lit "medium") [[0; 200]; [90; 255]]
           [[(0, 0, 200); (9, 9, 9)]; [(1, 2, 3); (255, 255, 255)]]).
  - lia.
  - discriminate.
  - repeat constructor; lia.
Defined.

(** ** video_to_ascii.py: the monochrome bitmap *)

Lemma sub_ansi_plain (s : str) : ~ In ESC s -> TextFrame.sub_ansi s [] = s.
Proof.
  induction s as [|c s IH]; intros Hs; [reflexivity|].
  cbn [TextFrame.sub_ansi app].
  destruct (N.eqb_spec c ESC) as [->|_]; [exfalso; apply Hs; now left|].
  rewrite IH; [reflexivity|]. intros Hin. apply Hs. now right.
Qed.

Lemma mono_frame_lines (self : VideoToASCII.t) (gray_resized : gray_image)
  (resized_color : color_image) :
  VideoToASCII.use_color self = false ->
  VideoToASCII.ascii_chars self <> [] ->
  exists lines,
    VideoToASCII.frame_to_ascii self gray_resized resized_color
    = Ret (TextFrame.unlines lines)
    /\ Forall2 (fun line row =>
                  Glyph.glyph_row (VideoToASCII.ascii_chars self) row = Ret line
                  /\ List.length line = List.length row
                  /\ Forall (fun ch => In ch (VideoToASCII.ascii_chars self)) line)
         lines gray_resized.
Proof.
  intros Hmono Hne. unfold VideoToASCII.frame_to_ascii. rewrite Hmono.
  assert (H : exists lines,
    VideoToASCII.ascii_lines self gray_resized (@None (list (list (Z * Z * Z))))
    = Ret (TextFrame.unlines lines)
    /\ Forall2 (fun line row =>
                  Glyph.glyph_row (VideoToASCII.ascii_chars self) row = Ret line
                  /\ List.length line = List.length row
                  /\ Forall (fun ch => In ch (VideoToASCII.ascii_chars self)) line)
         lines gray_resized).
  { induction gray_resized as [|row rows IH];
      cbn [VideoToASCII.ascii_lines option_map].
    - exists []. split; [reflexivity | constructor].
    - rewrite ascii_line_mono_is_glyph_row.
      destruct (glyph_row_returns _ row Hne) as (line & E & Hlen & Hall).
      rewrite E. cbn [bind].
      destruct IH as (lines & -> & Hshape). cbn [bind].
      exists (line :: lines). split.
      + unfold TextFrame.unlines. simpl. now rewrite <- app_assoc.
      + constructor; [now repeat split | exact Hshape]. }
  destruct H as (lines & E & Hshape).
  exists lines. split; [|exact Hshape].
  change (@None color_image) with (@None (list (list (Z * Z * Z)))).
  now rewrite E.
Qed.

(** X17.  Without colour, when the top-left and the bottom-right sample of
    the resized frame are below 255 (so their glyphs are not blanks), the
    compositor of video_to_ascii.py reads the text frame back line by line
    as it was rendered, and the bitmap is [width] * char_width by
    R * char_height pixels for a frame of R rows, for every quality. *)
Theorem video_mono_image_size (colorama_available : bool) (width : Z)
  (quality : str) (gray_resized : gray_image) (resized_color : color_image) :
  1 <= width ->
  gray_resized <> [] ->
  Forall (fun row => Z.of_nat (List.length row) = width) gray_resized ->
  List.hd 255 (List.hd [] gray_resized) < 255 ->
  List.last (List.last gray_resized []) 255 < 255 ->
  let self := VideoToASCII.init colorama_available width false quality in
  exists lines,
    VideoToASCII.frame_to_ascii self gray_resized resized_color
    = Ret (TextFrame.unlines lines)
    /\ TextFrame.lines_of (TextFrame.unlines lines) = lines
    /\ VideoToASCII.ascii_to_image true self (TextFrame.unlines lines)
       = Some {| img_width := width * VideoToASCII.char_width self;
                 img_height := Z.of_nat (List.length gray_resized)
                               * VideoToASCII.char_height self |}.
Proof.
  intros Hw Hne Hrows Hfirst Hlast self.
  pose proof (configured_alphabet_nonempty colorama_available width false quality)
    as Hnonempty.
  pose proof (configured_alphabet_plain quality) as Hplain.
  rewrite Forall_forall in Hplain.
  destruct (mono_frame_lines self gray_resized resized_color eq_refl Hnonempty)
    as (lines & Etext & Hshape).
  exists lines. split; [exact Etext|].
  assert (Hlen : List.length lines = List.length gray_resized)
    by (eapply Forall2_length; eassumption).
  assert (Hlines : Forall (fun l => ~ In NL l /\ ~ In ESC l /\ len l = width) lines).
  { clear - Hshape Hplain Hrows.
    induction Hshape as [|line row lines rows (_ & Hl & Hall) _ IH];
      constructor.
    - rewrite Forall_forall in Hall.
      split; [|split].
      + intros Hin. apply Hall, Hplain in Hin. now destruct Hin.
      + intros Hin. apply Hall, Hplain in Hin. now destruct Hin.
      + unfold len. rewrite Hl. now inversion Hrows.
    - apply IH. now inversion Hrows. }
  assert (Hrows' : Forall (fun row : list Z => row <> []) gray_resized).
  { eapply Forall_impl; [|exact Hrows]. intros row Hrow ->. cbn in Hrow. lia. }
  assert (Hglyphs : Forall2
            (fun line row =>
               Glyph.glyph_row (VideoToASCII.ascii_chars self) row = Ret line)
            lines gray_resized).
  { eapply Forall2_impl; [|exact Hshape]. now intros ? ? (? & _). }
  destruct (rendered_text_ends (VideoToASCII.ascii_chars self) lines gray_resized
              (configured_glyph_not_space quality) Hglyphs Hne Hrows' Hfirst Hlast)
    as [(c & rest & Hhead & Hc) (init_lines & last_line & z & Elines & Hz)].
  assert (Hread : TextFrame.lines_of (TextFrame.unlines lines) = lines).
  { assert (Hnl : Forall (fun l => ~ In NL l) lines)
      by (eapply Forall_impl; [|exact Hlines]; now intros ? (? & _)).
    rewrite Elines in Hnl, Hhead |- *.
    exact (lines_of_unlines c rest init_lines last_line z Hnl Hhead Hc Hz). }
  split; [exact Hread|].
  unfold VideoToASCII.ascii_to_image. cbn [negb].
  rewrite (image_of_text_lines _ _ _ _ _ Hread)
    by (destruct lines; [destruct gray_resized; [contradiction | discriminate]
                        | discriminate]).
  replace (List.map TextFrame.clean_line lines) with lines.
  - rewrite <- (app_nil_r lines) at 1.
    rewrite (max_len_uniform width); try lia.
    + now rewrite Hlen.
    + destruct lines; [|discriminate].
      destruct gray_resized; [contradiction | discriminate].
    + eapply Forall_impl; [|exact Hlines]. now intros ? (_ & _ & ?).
    + constructor.
  - clear - Hlines. induction Hlines as [|l lines (_ & Hesc & _) _ IH];
      [reflexivity|].
    cbn [List.map]. unfold TextFrame.clean_line at 1.
    rewrite sub_ansi_plain by assumption. now rewrite <- IH.
Qed.

Lemma video_mono_image_size_witness :
  let self := VideoToASCII.init true 3 false (lit "high") in
  exists lines,
    VideoToASCII.frame_to_ascii self [[0; 255; 255]; [255; 255; 100]] []
    = Ret (TextFrame.unlines lines)
    /\ TextFrame.lines_of (TextFrame.unlines lines) = lines
    /\ VideoToASCII.ascii_to_image true self (TextFrame.unlines lines)
       = Some {| img_width := 18; img_height := 24 |}.
Proof.
  apply (video_mono_image_size true 3 (lit "high")
           [[0; 255; 255]; [255; 255; 100]] []).
  - lia.
  - discriminate.
  - repeat constructor.
  - cbn. lia.
  - cbn. lia.
Defined.

(** ** ascii_video_with_audio.py without colour *)

Lemma reliable_ascii_line_mono (self : ReliableVideoToASCII.t) (grays : list Z) :
  ReliableVideoToASCII.ascii_line self grays None
  = Glyph.glyph_row (ReliableVideoToASCII.ascii_chars self) grays.
Proof.
  induction grays as [|b grays IH]; cbn [ReliableVideoToASCII.ascii_line
                                         Glyph.glyph_row]; [reflexivity|].
  now rewrite IH.
Qed.

(** X18.  With colour off, ascii_video_with_audio.py is
    simple_ascii_video.py: [frame_to_ascii] gives the same text for every
    resized frame (no escape, no reset at the end), and for every text the
    compositor draws the same grey rectangles. *)
Theorem reliable_mono_matches_simple (width : Z) (gray_resized : gray_image)
  (resized : color_image) (ascii_text : str) :
  ReliableVideoToASCII.frame_to_ascii (ReliableVideoToASCII.init width false)
    gray_resized resized
  = SimpleVideoToASCII.frame_to_ascii (SimpleVideoToASCII.init width) gray_resized
  /\ ReliableVideoToASCII.draw_text (ReliableVideoToASCII.init width false)
       ascii_text
     = SimpleVideoToASCII.draw_text (SimpleVideoToASCII.init width) ascii_text.
Proof.
  split.
  - unfold ReliableVideoToASCII.frame_to_ascii.
    cbn [ReliableVideoToASCII.init ReliableVideoToASCII.use_color].
    change (ReliableVideoToASCII.ascii_lines _ gray_resized None)
      with (ReliableVideoToASCII.ascii_lines
              (ReliableVideoToASCII.init width false) gray_resized
              (@None (list (list (Z * Z * Z))))).
    assert (E : ReliableVideoToASCII.ascii_lines
                  (ReliableVideoToASCII.init width false) gray_resized
                  (@None (list (list (Z * Z * Z))))
                = SimpleVideoToASCII.frame_to_ascii
                    (SimpleVideoToASCII.init width) gray_resized).
    { induction gray_resized as [|row rows IH];
        cbn [ReliableVideoToASCII.ascii_lines SimpleVideoToASCII.frame_to_ascii
             option_map]; [reflexivity|].
      rewrite reliable_ascii_line_mono, IH. reflexivity. }
    rewrite E.
    now destruct (SimpleVideoToASCII.frame_to_ascii _ gray_resized).
  - unfold ReliableVideoToASCII.draw_text, SimpleVideoToASCII.draw_text.
    rewrite reliable_draw_lines_plain by apply split_fields_no_sep.
    destruct (SimpleVideoToASCII.draw_lines _ _ 0) as [rects|e]; [|reflexivity].
    cbn [bind]. now rewrite map_id.
Qed.

(** ** The inverse mappings: what reads as white and what does not *)

Lemma index_third {A : Type} (a b c : A) (l : list A) :
  index (a :: b :: c :: l) 2 = Ret c.
Proof.
  unfold index. cbn [Z.ltb Z.compare List.length].
  destruct (Z.leb_spec (Z.of_nat (S (S (S (List.length l))))) 2) as [H|_];
    [lia|].
  reflexivity.
Qed.

Lemma palette_number_reads_back (n : Z) :
  0 <= n <= 255 ->
  int_of_str (rstrip_char LOWER_M (str_of_int n)) = Ret n.
Proof.
  intros Hn. apply res_eqb_Z.
  apply (all_between_spec Checks.reads_own_number 0 255); [|exact Hn].
  vm_compute. reflexivity.
Qed.

Lemma rgb_of_color_num_palette (n : Z) :
  0 <= n <= 255 ->
  VideoToASCII.rgb_of_color_num n = Ret (Some (Spec.palette_rgb n)).
Proof.
  intros Hn.
  assert (H : Checks.palette_agrees n = true).
  { apply (all_between_spec Checks.palette_agrees 0 255); [|exact Hn].
    vm_compute. reflexivity. }
  unfold Checks.palette_agrees in H.
  destruct (VideoToASCII.rgb_of_color_num n) as [[c|]|]; try discriminate.
  apply rgb_eqb_eq in H. now subst.
Qed.

(** What [get_rgb_from_ansi] returns, from what its parser reads. *)
Lemma get_rgb_from_ansi_cases (ansi_code : str) :
  VideoToASCII.get_rgb_from_ansi ansi_code
  = Ret (if startswith ansi_code VideoToASCII.sgr256_prefix then
           match VideoToASCII.palette_number ansi_code with
           | Ret n => if (0 <=? n) && (n <=? 255) then Spec.palette_rgb n
                      else white
           | Raise _ => white
           end
         else white).
Proof.
  unfold VideoToASCII.get_rgb_from_ansi.
  destruct ansi_code as [|c0 rest0] eqn:Ecode; [reflexivity|].
  rewrite <- Ecode. clear Ecode c0 rest0. cbn [orb].
  destruct (startswith ansi_code VideoToASCII.sgr256_prefix); cbn [negb];
    [|reflexivity].
  destruct (VideoToASCII.rgb_try ansi_code) as [[c|]|e] eqn:E.
  - revert E. unfold VideoToASCII.rgb_try, VideoToASCII.palette_number.
    destruct (index (split SEMI ansi_code) 2) as [field|]; cbn [bind];
      [|discriminate].
    destruct (int_of_str (rstrip_char LOWER_M field)) as [n|]; cbn [bind];
      [|discriminate].
    destruct (Z.leb_spec 0 n) as [H0|H0];
      [destruct (Z.leb_spec n 255) as [H1|H1]|]; cbn [andb].
    + rewrite rgb_of_color_num_palette by lia. congruence.
    + destruct (rgb_of_color_num_returns n) as (c' & Hc' & Hnone).
      rewrite Hnone in Hc' by lia. congruence.
    + destruct (rgb_of_color_num_returns n) as (c' & Hc' & Hnone).
      rewrite Hnone in Hc' by lia. congruence.
  - revert E. unfold VideoToASCII.rgb_try, VideoToASCII.palette_number.
    destruct (index (split SEMI ansi_code) 2) as [field|]; cbn [bind];
      [|discriminate].
    destruct (int_of_str (rstrip_char LOWER_M field)) as [n|]; cbn [bind];
      [|discriminate].
    destruct (Z.leb_spec 0 n) as [H0|H0];
      [destruct (Z.leb_spec n 255) as [H1|H1]|]; cbn [andb];
      try reflexivity.
    rewrite rgb_of_color_num_palette by lia. discriminate.
  - destruct (rgb_try_raises _ _ E) as [-> | ->].
    + revert E. unfold VideoToASCII.rgb_try, VideoToASCII.palette_number.
      destruct (index (split SEMI ansi_code) 2) as [field|]; cbn [bind];
        [|reflexivity].
      destruct (int_of_str (rstrip_char LOWER_M field)) as [n|]; cbn [bind];
        [|reflexivity].
      destruct (rgb_of_color_num_returns n) as (c' & -> & _). discriminate.
    + revert E. unfold VideoToASCII.rgb_try, VideoToASCII.palette_number.
      destruct (index (split SEMI ansi_code) 2) as [field|]; cbn [bind];
        [|reflexivity].
      destruct (int_of_str (rstrip_char LOWER_M field)) as [n|]; cbn [bind];
        [|reflexivity].
      destruct (rgb_of_color_num_returns n) as (c' & -> & _). discriminate.
Qed.

(** The parser takes the third ';'-field and drops trailing 'm's: whatever
    follows the decimal of the number, after a ';' or by way of more 'm's
    or nothing at all, the number is read. *)
Lemma palette_number_lenient (n : Z) (tail : str) :
  0 <= n <= 255 ->
  tail = [] \/ tail = [LOWER_M] \/ (exists junk, tail = SEMI :: junk) ->
  let code := VideoToASCII.sgr256_prefix ++ str_of_int n ++ tail in
  startswith code VideoToASCII.sgr256_prefix = true
  /\ VideoToASCII.palette_number code = Ret n.
Proof.
  intros Hn Htail code.
  split; [subst code; cbn; now destruct (str_of_int n ++ tail)|].
  pose proof (palette_code_digits n Hn) as Hds.
  pose proof (palette_number_reads_back n Hn) as Hback.
  assert (Hsemi : ~ In SEMI (str_of_int n)).
  { apply digit_plain; [exact Hds|]. left. reflexivity. }
  subst code. unfold VideoToASCII.palette_number.
  change (VideoToASCII.sgr256_prefix ++ str_of_int n ++ tail)
    with ((ESC :: lit "[38") ++ SEMI :: lit "5" ++ SEMI :: str_of_int n ++ tail).
  rewrite split_app_sep
    by (cbn; intros H; repeat (destruct H as [H|H]; [discriminate|]); exact H).
  rewrite split_app_sep
    by (cbn; intros H; repeat (destruct H as [H|H]; [discriminate|]); exact H).
  destruct Htail as [-> | [-> | (junk & ->)]].
  - rewrite app_nil_r, split_no_sep by assumption.
    rewrite index_third. cbn [bind]. exact Hback.
  - rewrite split_no_sep.
    + rewrite index_third. cbn [bind].
      unfold rstrip_char, rstrip_by in Hback |- *.
      rewrite rev_app_distr. cbn [rev app dropwhile N.eqb LOWER_M Pos.eqb].
      exact Hback.
    + intros H. apply in_app_or in H. destruct H as [H|[H|[]]];
        [now apply Hsemi | discriminate].
  - rewrite split_app_sep by assumption.
    rewrite index_third. cbn [bind]. exact Hback.
Qed.

Lemma sgr256_last (n : Z) : List.last (VideoToASCII.sgr256 n) 0%N = LOWER_M.
Proof.
  rewrite sgr256_parts, app_assoc. apply last_last.
Qed.

(** C6, counterexample.  Two strings that are no palette codes, one without
    the closing 'm' and one with junk after the number, do not read as
    white: the parser takes the numbers 196 and 9 out of them and returns
    the palette's red. *)
Lemma malformed_codes_read_as_colours :
  (~ Spec.well_formed256 (ESC :: lit "[38;5;196")
   /\ VideoToASCII.get_rgb_from_ansi (ESC :: lit "[38;5;196") = Ret (255, 0, 0))
  /\ (~ Spec.well_formed256 (ESC :: lit "[38;5;9;junk")
      /\ VideoToASCII.get_rgb_from_ansi (ESC :: lit "[38;5;9;junk")
         = Ret (255, 0, 0))
  /\ ~ Spec.malformed_gives_white.
Proof.
  assert (H1 : ~ Spec.well_formed256 (ESC :: lit "[38;5;196")).
  { intros (n & _ & E). apply (f_equal (fun s => List.last s 0%N)) in E.
    rewrite sgr256_last in E. discriminate. }
  assert (H2 : ~ Spec.well_formed256 (ESC :: lit "[38;5;9;junk")).
  { intros (n & _ & E). apply (f_equal (fun s => List.last s 0%N)) in E.
    rewrite sgr256_last in E. discriminate. }
  split; [split; [exact H1 | reflexivity]|].
  split; [split; [exact H2 | reflexivity]|].
  intros Hsoft. specialize (Hsoft _ H1). discriminate.
Qed.

(** C6, amended.  Both inverse mappings are total: [get_rgb_from_ansi]
    returns a colour for every string, no exception leaving its [try], and
    [ansi_to_rgb] is a table lookup that gives white for every string that
    is not one of its keys.  [get_rgb_from_ansi] gives white for a string
    without the prefix ESC[38;5; (the empty string included), for one whose
    third ';'-field does not read as an integer once its trailing 'm's are
    dropped, and for one whose number lies outside 0..255; in every other
    case it gives the palette colour of the number read.  So every palette
    code ESC[38;5;Nm reads as the colour of N, and so does a string that
    lacks the closing 'm' or goes on after the number with a ';' and
    anything at all: such malformed codes are not read as white. *)
Theorem inverse_mappings_total_default_white (ansi_code : str) :
  (exists c, VideoToASCII.get_rgb_from_ansi ansi_code = Ret c)
  /\ (startswith ansi_code VideoToASCII.sgr256_prefix = false ->
      VideoToASCII.get_rgb_from_ansi ansi_code = Ret white)
  /\ (forall e, VideoToASCII.palette_number ansi_code = Raise e ->
      VideoToASCII.get_rgb_from_ansi ansi_code = Ret white)
  /\ (forall n, VideoToASCII.palette_number ansi_code = Ret n ->
      ~ 0 <= n <= 255 ->
      VideoToASCII.get_rgb_from_ansi ansi_code = Ret white)
  /\ (forall n, startswith ansi_code VideoToASCII.sgr256_prefix = true ->
      VideoToASCII.palette_number ansi_code = Ret n ->
      0 <= n <= 255 ->
      VideoToASCII.get_rgb_from_ansi ansi_code = Ret (Spec.palette_rgb n))
  /\ (forall n, 0 <= n <= 255 ->
      VideoToASCII.get_rgb_from_ansi (VideoToASCII.sgr256 n)
      = Ret (Spec.palette_rgb n))
  /\ (forall n junk, 0 <= n <= 255 ->
      VideoToASCII.get_rgb_from_ansi
        (VideoToASCII.sgr256_prefix ++ str_of_int n)
      = Ret (Spec.palette_rgb n)
      /\ VideoToASCII.get_rgb_from_ansi
           (VideoToASCII.sgr256_prefix ++ str_of_int n ++ SEMI :: junk)
         = Ret (Spec.palette_rgb n))
  /\ (~ Spec.recognized16 ansi_code ->
      ReliableVideoToASCII.ansi_to_rgb ansi_code = white).
Proof.
  assert (Hlenient : forall n tail, 0 <= n <= 255 ->
            tail = [] \/ tail = [LOWER_M] \/ (exists junk, tail = SEMI :: junk) ->
            VideoToASCII.get_rgb_from_ansi
              (VideoToASCII.sgr256_prefix ++ str_of_int n ++ tail)
            = Ret (Spec.palette_rgb n)).
  { intros n tail Hn Htail.
    destruct (palette_number_lenient n tail Hn Htail) as [Hpre Hnum].
    cbv zeta in Hpre, Hnum.
    rewrite get_rgb_from_ansi_cases, Hpre, Hnum.
    destruct (Z.leb_spec 0 n); [|lia]. destruct (Z.leb_spec n 255); [|lia].
    reflexivity. }
  rewrite get_rgb_from_ansi_cases.
  split; [now eexists|].
  split; [now intros ->|].
  split; [intros e ->; now destruct (startswith _ _)|].
  split.
  { intros n -> Hn. destruct (startswith _ _); [|reflexivity].
    destruct (Z.leb_spec 0 n); [destruct (Z.leb_spec n 255)|];
      cbn [andb]; try reflexivity. lia. }
  split.
  { intros n -> -> Hn.
    destruct (Z.leb_spec 0 n); [|lia]. destruct (Z.leb_spec n 255); [|lia].
    reflexivity. }
  split.
  { intros n Hn. rewrite sgr256_parts. apply Hlenient; [exact Hn|]. now right; left. }
  split.
  { intros n junk Hn. split.
    - rewrite <- (app_nil_r (str_of_int n)). apply Hlenient; [exact Hn|]. now left.
    - apply Hlenient; [exact Hn|]. right; right. now exists junk. }
  intros Hnot. unfold ReliableVideoToASCII.ansi_to_rgb.
  now apply dict_get_absent.
Qed.

(** A code without the prefix, an out-of-range code and an unknown
    sixteen-colour escape all come back white. *)
Lemma inverse_mappings_total_default_white_witness :
  VideoToASCII.get_rgb_from_ansi (lit "garbage") = Ret white
  /\ VideoToASCII.get_rgb_from_ansi (VideoToASCII.sgr256 300) = Ret white
  /\ ReliableVideoToASCII.ansi_to_rgb (lit "garbage") = white.
Proof.
  destruct (inverse_mappings_total_default_white (lit "garbage"))
    as (_ & Hpre & _ & _ & _ & _ & _ & H16).
  destruct (inverse_mappings_total_default_white (VideoToASCII.sgr256 300))
    as (_ & _ & _ & Hrange & _).
  split; [apply Hpre; reflexivity|].
  split; [apply (Hrange 300); [reflexivity | lia]|].
  apply H16. unfold Spec.recognized16. intros Hin. vm_compute in Hin.
  repeat (destruct Hin as [Hin | Hin]; [discriminate|]). exact Hin.
Defined.
